(** * a3lib: PBO archives, signature hashes and RSA signatures

    A shallow embedding of [a3lib.py] and the properties its
    specification states about it.  Python integers are [Z], byte
    strings are [list byte], text strings are [string], file objects are
    records holding their contents and their position, and every
    function that can raise or loop returns a [res]. *)

From Stdlib Require Import Ascii String.
From Stdlib Require Import ZArith Znumtheory Zpow_facts List Lia Bool.
From Stdlib Require Import Sorting.Sorted Sorting.Permutation.
From Stdlib Require Zmod.
From coqutil Require Import Byte Word.LittleEndianList.
Import ListNotations.

Local Open Scope Z_scope.

(** ** Results of running Python code *)

(** The exceptions the modelled code can raise. *)
Inductive exn : Type :=
| StructError
| ValueError
| KeyError
| IOError
| AttributeError
| OverflowError.

(** A computation returns a value, raises, or is still running when the
    fuel given to its loops is used up. *)
Inductive res (A : Type) : Type :=
| Ok (a : A)
| Raise (e : exn)
| OutOfFuel.

Arguments Ok {A} a.
Arguments Raise {A} e.
Arguments OutOfFuel {A}.

Definition bind {A B : Type} (c : res A) (k : A -> res B) : res B :=
  match c with
  | Ok a => k a
  | Raise e => Raise e
  | OutOfFuel => OutOfFuel
  end.

Notation "x <- c ;; k" := (bind c (fun x => k))
  (at level 61, c at next level, right associativity).
Notation "' p <- c ;; k" := (bind c (fun x => let p := x in k))
  (at level 61, p pattern, c at next level, right associativity).

(** [while cond: body], run for at most [fuel] tests of the condition. *)
Fixpoint while {S : Type} (fuel : nat) (cond : S -> bool)
    (body : S -> res S) (s : S) : res S :=
  match fuel with
  | O => OutOfFuel
  | Datatypes.S fuel' =>
      if cond s then s' <- body s ;; while fuel' cond body s' else Ok s
  end.

(** [for x in xs: body], threading the state through. *)
Fixpoint for_each {A S : Type} (xs : list A) (body : A -> S -> res S)
    (s : S) : res S :=
  match xs with
  | [] => Ok s
  | x :: xs' => s' <- body x s ;; for_each xs' body s'
  end.

(** ** Byte strings *)

Abbreviation bytes := (list byte) (only parsing).

Definition NUL : byte := Byte.x00.

Definition BACKSLASH : byte := Byte.x5c.

Definition byte_eqb (a b : byte) : bool := Byte.eqb a b.

Fixpoint bytes_eqb (a b : bytes) : bool :=
  match a, b with
  | [], [] => true
  | x :: a', y :: b' => byte_eqb x y && bytes_eqb a' b'
  | _, _ => false
  end.

(** Python compares [bytes] lexicographically by unsigned byte value. *)
Fixpoint bytes_ltb (a b : bytes) : bool :=
  match a, b with
  | [], [] => false
  | [], _ :: _ => true
  | _ :: _, [] => false
  | x :: a', y :: b' =>
      if byte.unsigned x <? byte.unsigned y then true
      else if byte.unsigned y <? byte.unsigned x then false
      else bytes_ltb a' b'
  end.

Definition bytes_leb (a b : bytes) : bool := negb (bytes_ltb b a).

(** [bytes.lower()]: the ASCII capitals [A]..[Z] move to [a]..[z]. *)
Definition byte_lower (b : byte) : byte :=
  let v := byte.unsigned b in
  if (65 <=? v) && (v <=? 90) then byte.of_Z (v + 32) else b.

Definition lower (s : bytes) : bytes := map byte_lower s.

(** [s.endswith(suffix)] and [s.endswith((suffix, ...))]. *)
Definition endswith1 (s suffix : bytes) : bool :=
  (length suffix <=? length s)%nat &&
  bytes_eqb (skipn (length s - length suffix) s) suffix.

Definition endswith (s : bytes) (suffixes : list bytes) : bool :=
  existsb (endswith1 s) suffixes.

(** A bytes literal written as text. *)
Definition b (s : string) : bytes := list_byte_of_string s.

(** Python slicing [s[i:i+n]] for [0 <= i]. *)
Definition slice (s : bytes) (i n : Z) : bytes :=
  firstn (Z.to_nat n) (skipn (Z.to_nat i) s).

(** ** Integers and bytes *)

Inductive endian : Type := little | big.

(** [bytes_to_int(b, endian)], that is [int.from_bytes]. *)
Definition bytes_to_int (bs : bytes) (e : endian) : Z :=
  match e with
  | little => le_combine bs
  | big => le_combine (rev bs)
  end.

(** [int_to_bytes(n, length, endian)], that is [n.to_bytes]: a negative
    [n] or one that does not fit raises [OverflowError]. *)
Definition int_to_bytes (n length : Z) (e : endian) : res bytes :=
  if length <? 0 then Raise ValueError
  else if (n <? 0) || (2 ^ (8 * length) <=? n) then Raise OverflowError
  else
    let l := le_split (Z.to_nat length) n in
    Ok (match e with little => l | big => rev l end).

(** [struct.pack('<I', x)] and [struct.unpack('<I', bs)]. *)
Definition pack_I (x : Z) : res bytes :=
  if (0 <=? x) && (x <? 2 ^ 32) then Ok (le_split 4 x)
  else Raise StructError.

Definition unpack_I (bs : bytes) : res Z :=
  if (length bs =? 4)%nat then Ok (le_combine bs) else Raise StructError.

(** ** hashlib.sha1

    The program takes SHA-1 from Python's [hashlib]; it is embedded here
    as FIPS 180-4 defines it, on 32-bit words held in [Z]. *)

Module SHA1.

Definition w32 (x : Z) : Z := x mod 2 ^ 32.

Definition rotl (n x : Z) : Z :=
  Z.lor (w32 (Z.shiftl x n)) (Z.shiftr x (32 - n)).

Definition pad (m : bytes) : bytes :=
  let len := Z.of_nat (length m) in
  m ++ [Byte.x80] ++ repeat NUL (Z.to_nat ((55 - len) mod 64))
    ++ rev (le_split 8 (8 * len)).

Definition word_at (blk : bytes) (i : nat) : Z :=
  le_combine (rev (firstn 4 (skipn (4 * i) blk))).

(** The message schedule, newest word first. *)
Fixpoint schedule (n : nat) (rw : list Z) : list Z :=
  match n with
  | O => rw
  | S n' =>
      schedule n'
        (rotl 1 (Z.lxor (Z.lxor (nth 2 rw 0) (nth 7 rw 0))
                        (Z.lxor (nth 13 rw 0) (nth 15 rw 0))) :: rw)
  end.

Definition state : Type := (Z * Z * Z * Z * Z)%type.

Definition init : state :=
  (0x67452301, 0xEFCDAB89, 0x98BADCFE, 0x10325476, 0xC3D2E1F0).

Definition round (s : state) (iw : nat * Z) : state :=
  let '(a, b, c, d, e) := s in
  let '(i, w) := iw in
  let '(f, k) :=
    if (i <? 20)%nat then
      (Z.lor (Z.land b c) (Z.land (Z.lxor b 0xFFFFFFFF) d), 0x5A827999)
    else if (i <? 40)%nat then
      (Z.lxor (Z.lxor b c) d, 0x6ED9EBA1)
    else if (i <? 60)%nat then
      (Z.lor (Z.lor (Z.land b c) (Z.land b d)) (Z.land c d), 0x8F1BBCDC)
    else
      (Z.lxor (Z.lxor b c) d, 0xCA62C1D6) in
  (w32 (rotl 5 a + f + e + k + w), a, rotl 30 b, c, d).

Definition block (blk : bytes) (h : state) : state :=
  let w := rev (schedule 64 (rev (map (word_at blk) (seq 0 16)))) in
  let '(a, b, c, d, e) := fold_left round (combine (seq 0 80) w) h in
  let '(h0, h1, h2, h3, h4) := h in
  (w32 (h0 + a), w32 (h1 + b), w32 (h2 + c), w32 (h3 + d), w32 (h4 + e)).

Fixpoint blocks (n : nat) (m : bytes) (h : state) : state :=
  match n with
  | O => h
  | S n' => blocks n' (skipn 64 m) (block (firstn 64 m) h)
  end.

Definition sha1 (m : bytes) : bytes :=
  let p := pad m in
  let '(h0, h1, h2, h3, h4) := blocks (length p / 64) p init in
  flat_map (fun h => rev (le_split 4 h)) [h0; h1; h2; h3; h4].

End SHA1.

(** A [hashlib.sha1()] object is the bytes it was fed so far. *)
Abbreviation hashobj := (list byte) (only parsing).

Definition sha1_new : hashobj := [].
Definition update (h : hashobj) (data : bytes) : hashobj := h ++ data.
Definition digest (h : hashobj) : bytes := SHA1.sha1 h.

(** ** Hexadecimal text *)

Local Open Scope string_scope.

Definition hex_digit (v : Z) : ascii :=
  match v with
  | 0 => "0" | 1 => "1" | 2 => "2" | 3 => "3" | 4 => "4" | 5 => "5"
  | 6 => "6" | 7 => "7" | 8 => "8" | 9 => "9" | 10 => "a" | 11 => "b"
  | 12 => "c" | 13 => "d" | 14 => "e" | _ => "f"
  end%char.

(** [bytes.hex()], which is what [hexdigest()] returns. *)
Fixpoint hex (bs : bytes) : string :=
  match bs with
  | [] => ""
  | x :: bs' =>
      String (hex_digit (byte.unsigned x / 16))
        (String (hex_digit (byte.unsigned x mod 16)) (hex bs'))
  end.

Definition hexdigest (h : hashobj) : string := hex (digest h).

Definition hex_value (c : ascii) : option Z :=
  let n := Z.of_nat (nat_of_ascii c) in
  (if (48 <=? n) && (n <=? 57) then Some (n - 48)
   else if (97 <=? n) && (n <=? 102) then Some (n - 87)
   else if (65 <=? n) && (n <=? 70) then Some (n - 55)
   else None)%Z.

Fixpoint parse_hex (acc : Z) (s : string) : option Z :=
  match s with
  | "" => Some acc
  | String c s' =>
      match hex_value c with
      | Some v => parse_hex (16 * acc + v) s'
      | None => None
      end
  end.

(** [long(s, 16)] for the texts this program builds: an optional [0x]
    and then one or more hexadecimal digits.  Anything else raises
    [ValueError]
    (Python also takes a sign, blanks around the number and single
    underscores between digits; no caller produces them). *)
Definition long16 (s : string) : res Z :=
  let digits :=
    match s with
    | String c0 (String c1 r) =>
        if Ascii.eqb c0 "0" && (Ascii.eqb c1 "x" || Ascii.eqb c1 "X")
        then r else s
    | _ => s
    end in
  match digits with
  | "" => Raise ValueError
  | _ =>
      match parse_hex 0 digits with
      | Some v => Ok v
      | None => Raise ValueError
      end
  end.

(** [s * n] on text: no copies when [n <= 0]. *)
Fixpoint str_repeat (s : string) (n : nat) : string :=
  match n with
  | O => ""
  | S n' => s ++ str_repeat s n'
  end.

Definition str_mul (s : string) (n : Z) : string := str_repeat s (Z.to_nat n).

Definition str_len (s : string) : Z := Z.of_nat (String.length s).

(** ** EMSA-PKCS1-v1_5 padding *)

Definition padding (hash_value : string) (tlen : Z) : res Z :=
  long16 ("0x0001" ++ str_mul "ff" (tlen - str_len hash_value / 2 - 3 - 15)
          ++ "00" ++ "3021300906052b0e03021a05000414" ++ hash_value).

Local Close Scope string_scope.

(** ** File objects *)

Definition CHUNK_SIZE : Z := 4096.

(** A binary file object: what the file holds, where the next read
    starts, whether it was closed, and the modification time the file
    system reports for it. *)
Module File.

Record t : Type := mk {
  content : bytes;
  pos : Z;
  closed : bool;
  mtime : Z
}.

Definition set_pos (f : t) (p : Z) : t := mk (content f) p (closed f) (mtime f).

Definition size (f : t) : Z := Z.of_nat (length (content f)).

(** [f.read(n)]; a negative [n] reads to the end of the file. *)
Definition read (f : t) (n : Z) : res (bytes * t) :=
  if closed f then Raise ValueError
  else
    let data := slice (content f) (pos f) (if n <? 0 then size f else n) in
    Ok (data, set_pos f (pos f + Z.of_nat (length data))).

Definition tell (f : t) : res Z :=
  if closed f then Raise ValueError else Ok (pos f).

(** [f.seek(offset, whence)]: a negative target raises. *)
Definition seek (f : t) (offset whence : Z) : res t :=
  if closed f then Raise ValueError
  else
    let target :=
      if whence =? 0 then Some offset
      else if whence =? 1 then Some (pos f + offset)
      else if whence =? 2 then Some (size f + offset)
      else None in
    match target with
    | Some p => if p <? 0 then Raise IOError else Ok (set_pos f p)
    | None => Raise ValueError
    end.

(** [os.fstat(f.fileno()).st_size] *)
Definition fstat_size (f : t) : res Z :=
  if closed f then Raise ValueError else Ok (size f).

Definition close (f : t) : t := mk (content f) (pos f) true (mtime f).

(** A file just opened for reading. *)
Definition open (data : bytes) : t := mk data 0 false 0.

End File.

(** [unpack_asciiz(file)]: the loop leaves only on a NUL byte. *)
Definition unpack_asciiz (fuel : nat) (file : File.t) : res (bytes * File.t) :=
  '(byte, file) <- File.read file 1 ;;
  '(string, _, file) <-
    while fuel
      (fun '(_, byte, _) => negb (bytes_eqb byte [NUL]))
      (fun '(string, byte, file) =>
         '(byte', file') <- File.read file 1 ;;
         Ok (string ++ byte, byte', file'))
      ([], byte, file) ;;
  Ok (string, file).

(** ** struct formats of the key and signature files *)

(** [struct.unpack('{}B'.format(n), bs)]: as many bytes as the format
    announces, or [struct.error]. *)
Definition unpack_nB (n : Z) (bs : bytes) : res bytes :=
  if Z.of_nat (length bs) =? n then Ok bs else Raise StructError.

(** [struct.pack('{}B'.format(n), *vals)] *)
Definition pack_nB (n : Z) (vals : bytes) : res bytes :=
  if Z.of_nat (length vals) =? n then Ok vals else Raise StructError.

(** [struct.pack('B', x)] *)
Definition pack_B (x : Z) : res bytes :=
  if (0 <=? x) && (x <? 256) then Ok [byte.of_Z x] else Raise StructError.

(** [struct.pack('{}s'.format(n), x)]: [n] bytes, cut or padded with NUL. *)
Definition pack_ns (n : nat) (x : bytes) : bytes := firstn n (x ++ repeat NUL n).

(** [struct.unpack('<IBB2xI', bs)] *)
Definition unpack_IBB2xI (bs : bytes) : res (Z * Z * Z * Z) :=
  if (length bs =? 12)%nat then
    Ok (le_combine (slice bs 0 4), le_combine (slice bs 4 1),
        le_combine (slice bs 5 1), le_combine (slice bs 8 4))
  else Raise StructError.

(** [struct.unpack('4s', bs)] *)
Definition unpack_4s (bs : bytes) : res bytes :=
  if (length bs =? 4)%nat then Ok bs else Raise StructError.

(** [struct.unpack('<II', bs)] *)
Definition unpack_II (bs : bytes) : res (Z * Z) :=
  if (length bs =? 8)%nat then
    Ok (le_combine (slice bs 0 4), le_combine (slice bs 4 4))
  else Raise StructError.

(** [struct.pack('<{}ssIBB2xI4sII'.format(len(name)), name, b'\0',
    length, type, 2, 0x2400, magic, bitlen, public_exponent)], the
    head of a key file. *)
Definition pack_key_head (name : bytes) (length type : Z) (magic : bytes)
    (bitlen public_exponent : Z) : res bytes :=
  f1 <- pack_I length ;;
  f2 <- pack_B type ;;
  f3 <- pack_B 2 ;;
  f4 <- pack_I 0x2400 ;;
  f5 <- pack_I bitlen ;;
  f6 <- pack_I public_exponent ;;
  Ok (pack_ns (List.length name) name ++ pack_ns 1 [NUL] ++ f1 ++ f2 ++ f3
      ++ [NUL; NUL] ++ f4 ++ pack_ns 4 magic ++ f5 ++ f6).

(** [struct.pack('{}B'.format(n), *int_to_bytes(x, n, 'little'))], one
    number of a key or signature file. *)
Definition pack_number (x n : Z) : res bytes :=
  bs <- int_to_bytes x n little ;; pack_nB n bs.

(** [bytes_to_int(struct.unpack('{}B'.format(n), file.read(n)))] *)
Definition read_number (file : File.t) (n : Z) : res (Z * File.t) :=
  '(raw, file) <- File.read file n ;;
  vals <- unpack_nB n raw ;;
  Ok (bytes_to_int vals little, file).

(** ** DER

    What [_parse_DER] returns: a tuple of integers, nested tuples, [None]
    and byte strings. *)
#[warnings="-register-all"] Inductive der_value : Type :=
| DInt (n : Z)
| DTuple (items : list der_value)
| DNone
| DBytes (bs : bytes).

(** [struct.unpack('B', bs)[0]] *)
Definition unpack_B (bs : bytes) : res Z :=
  match bs with
  | [x] => Ok (byte.unsigned x)
  | _ => Raise StructError
  end.

(** [_parse_DER(der)]; the fuel bounds the rounds of the loop and the
    depth of the nested calls. *)
Fixpoint _parse_DER (fuel : nat) (der : bytes) : res (list der_value) :=
  match fuel with
  | O => OutOfFuel
  | S fuel' =>
      '(_, r) <-
        while fuel'
          (fun '(i, _) => i <? Z.of_nat (length der))
          (fun '(i, r) =>
             tag <- unpack_B (slice der i 1) ;;
             let i := i + 1 in
             l1 <- unpack_B (slice der i 1) ;;
             let l2 := Z.land l1 0x7f in
             let i := i + 1 in
             '(l, i) <-
               (if negb (Z.land l1 0x80 =? 0) then
                  bs <- unpack_nB l2 (slice der i l2) ;;
                  Ok (bytes_to_int bs big, i + l2)
                else Ok (l2, i)) ;;
             item <-
               (if tag =? 0x2 then
                  bs <- unpack_nB l (slice der i l) ;;
                  Ok (DInt (bytes_to_int bs big))
                else if tag =? 0x3 then
                  sub <- _parse_DER fuel' (slice der (i + 1) (l - 1)) ;;
                  Ok (DTuple sub)
                else if tag =? 0x5 then Ok DNone
                else if tag =? 0x30 then
                  sub <- _parse_DER fuel' (slice der i l) ;;
                  Ok (DTuple sub)
                else Ok (DBytes (slice der i l))) ;;
             Ok (i + l, r ++ [item]))
          (0, []) ;;
      Ok r
  end.

(** ** Keys and signatures

    The files are read in their own form ([form == 'bi'], the default);
    what [_export] writes to its file is returned as one byte string. *)

Module PublicKey.

Record t : Type := mk {
  name : bytes;
  bitlen : Z;
  public_exponent : Z;
  modulus : Z
}.

(** [PublicKey._from_file(file, 'bi')] *)
Definition _from_file (fuel : nat) (file : File.t) : res (t * File.t) :=
  '(name, file) <- unpack_asciiz fuel file ;;
  '(raw, file) <- File.read file 12 ;;
  '(bikey_length, bikey_type, bikey_version, bikey_alg) <- unpack_IBB2xI raw ;;
  '(raw, file) <- File.read file 4 ;;
  magic <- unpack_4s raw ;;
  '(raw, file) <- File.read file (4 + 4) ;;
  '(bitlen, public_exponent) <- unpack_II raw ;;
  '(modulus, file) <- read_number file (bitlen / 8) ;;
  Ok (mk name bitlen public_exponent modulus, file).

(** [PublicKey._export(file)] *)
Definition _export (k : t) : res bytes :=
  head <- pack_key_head (name k) (bitlen k / 8 + 20) 6 (b "RSA1") (bitlen k)
            (public_exponent k) ;;
  m <- pack_number (modulus k) (bitlen k / 8) ;;
  Ok (head ++ m).

End PublicKey.

Module PrivateKey.

Record t : Type := mk {
  public_key : PublicKey.t;
  private_exponent : Z;
  prime1 : Z;
  prime2 : Z;
  exponent1 : Z;
  exponent2 : Z;
  coefficient : Z
}.

(** [PrivateKey._from_file(file, 'bi')] *)
Definition _from_file (fuel : nat) (file : File.t) : res (t * File.t) :=
  '(public_key, file) <- PublicKey._from_file fuel file ;;
  let bitlen := PublicKey.bitlen public_key in
  '(prime1, file) <- read_number file (bitlen / 16) ;;
  '(prime2, file) <- read_number file (bitlen / 16) ;;
  '(exponent1, file) <- read_number file (bitlen / 16) ;;
  '(exponent2, file) <- read_number file (bitlen / 16) ;;
  '(coefficient, file) <- read_number file (bitlen / 16) ;;
  '(private_exponent, file) <- read_number file (bitlen / 8) ;;
  Ok (mk public_key private_exponent prime1 prime2 exponent1 exponent2
         coefficient, file).

(** [PrivateKey._export(file)] *)
Definition _export (k : t) : res bytes :=
  let pkey := public_key k in
  let bitlen := PublicKey.bitlen pkey in
  head <- pack_key_head (PublicKey.name pkey) (bitlen / 16 * 9 + 20) 7
            (b "RSA2") bitlen (PublicKey.public_exponent pkey) ;;
  m <- pack_number (PublicKey.modulus pkey) (bitlen / 8) ;;
  p1 <- pack_number (prime1 k) (bitlen / 16) ;;
  p2 <- pack_number (prime2 k) (bitlen / 16) ;;
  e1 <- pack_number (exponent1 k) (bitlen / 16) ;;
  e2 <- pack_number (exponent2 k) (bitlen / 16) ;;
  c <- pack_number (coefficient k) (bitlen / 16) ;;
  d <- pack_number (private_exponent k) (bitlen / 8) ;;
  Ok (head ++ m ++ p1 ++ p2 ++ e1 ++ e2 ++ c ++ d).

End PrivateKey.

Module Bisign.

Record t : Type := mk {
  public_key : PublicKey.t;
  sig1 : Z;
  sig2 : Z;
  sig3 : Z;
  version : Z
}.

(** [Bisign._from_file(file)] *)
Definition _from_file (fuel : nat) (file : File.t) : res (t * File.t) :=
  '(public_key, file) <- PublicKey._from_file fuel file ;;
  '(raw, file) <- File.read file 4 ;;
  len1 <- unpack_I raw ;;
  '(sig1, file) <- read_number file len1 ;;
  '(raw, file) <- File.read file 8 ;;
  '(version, len2) <- unpack_II raw ;;
  '(sig2, file) <- read_number file len2 ;;
  '(raw, file) <- File.read file 4 ;;
  len3 <- unpack_I raw ;;
  '(sig3, file) <- read_number file len3 ;;
  Ok (mk public_key sig1 sig2 sig3 version, file).

(** [struct.pack('<I{}B'.format(n), n, *int_to_bytes(sig, n, 'little'))] *)
Definition pack_sig (sig n : Z) : res bytes :=
  bs <- int_to_bytes sig n little ;;
  l <- pack_I n ;;
  bs <- pack_nB n bs ;;
  Ok (l ++ bs).

(** [Bisign._export(file)] *)
Definition _export (s : t) : res bytes :=
  k <- PublicKey._export (public_key s) ;;
  let len123 := PublicKey.bitlen (public_key s) / 8 in
  s1 <- pack_sig (sig1 s) len123 ;;
  v <- pack_I (version s) ;;
  s2 <- pack_sig (sig2 s) len123 ;;
  s3 <- pack_sig (sig3 s) len123 ;;
  Ok (k ++ s1 ++ v ++ s2 ++ s3).

End Bisign.

(** ** Archive members *)

Module PboInfo.

Record t : Type := mk {
  filename : bytes;
  packing_method : Z;
  original_size : Z;
  reserved : Z;
  timestamp : Z;
  data_size : Z;
  fp : option File.t;
  data_offset : Z
}.

(** [PboInfo(filename, packing_method, ..., data_size, fp)] *)
Definition init (filename : bytes) (packing_method original_size reserved
    timestamp data_size : Z) (fp : option File.t) : t :=
  mk filename packing_method original_size reserved timestamp data_size fp (-1).

Definition set_data_offset (i : t) (o : Z) : t :=
  mk (filename i) (packing_method i) (original_size i) (reserved i)
     (timestamp i) (data_size i) (fp i) o.

Definition set_fp (i : t) (f : option File.t) : t :=
  mk (filename i) (packing_method i) (original_size i) (reserved i)
     (timestamp i) (data_size i) f (data_offset i).

Definition get_data_size (i : t) : res Z :=
  match fp i with
  | None => Ok (data_size i)
  | Some f => File.fstat_size f
  end.

Definition get_timestamp (i : t) : res Z :=
  match fp i with
  | None => Ok (timestamp i)
  | Some f => Ok (File.mtime f)
  end.

Definition check_name_hash (i : t) : res bool :=
  sz <- get_data_size i ;; Ok (0 <? sz).

Definition v2_excluded : list bytes :=
  map b [".paa"; ".jpg"; ".p3d"; ".tga"; ".rvmat"; ".lip"; ".ogg"; ".wss";
         ".png"; ".rtm"; ".pac"; ".fxy"; ".wrp"]%string.

Definition v3_included : list bytes :=
  map b [".sqf"; ".inc"; ".bikb"; ".ext"; ".fsm"; ".sqm"; ".hpp"; ".cfg";
         ".sqs"; ".h"]%string.

(** [and] evaluates its right side only when the size is positive. *)
Definition check_file_hash (i : t) (version : Z) : res bool :=
  if version =? 2 then
    sz <- get_data_size i ;;
    Ok ((0 <? sz) && negb (endswith (lower (filename i)) v2_excluded))
  else if version =? 3 then
    sz <- get_data_size i ;;
    Ok ((0 <? sz) && endswith (lower (filename i)) v3_included)
  else Raise ValueError.

End PboInfo.

(** A view of one member inside the backing file of the archive.  The
    backing file is shared by all views, so it is passed in and out. *)
Module PboExtFile.

Record t : Type := mk {
  info : PboInfo.t;
  pos : Z
}.

Definition init (pboinfo : PboInfo.t) : t :=
  mk pboinfo (PboInfo.data_offset pboinfo).

Definition read (fp : option File.t) (x : t) (n : Z)
    : res (bytes * option File.t * t) :=
  match fp with
  | None => Raise AttributeError
  | Some fp =>
      fp <- File.seek fp (pos x) 0 ;;
      let read_size :=
        PboInfo.data_offset (info x) + PboInfo.data_size (info x) - pos x in
      let read_size := if -1 <? n then Z.min n read_size else read_size in
      '(data, fp) <-
        (if 0 <? read_size then File.read fp read_size else Ok ([], fp)) ;;
      p <- File.tell fp ;;
      Ok (data, Some fp, mk (info x) p)
  end.

Definition tell (x : t) : Z := pos x - PboInfo.data_offset (info x).

(** [seek(offset, whence)]: the target is taken from the start of the
    member, from the position of the view or from the end of the member;
    a target in front of the member raises. *)
Definition seek (fp : option File.t) (x : t) (offset whence : Z)
    : res (option File.t * t) :=
  offset <-
    (if whence =? 0 then Ok (offset + PboInfo.data_offset (info x))
     else if whence =? 1 then Ok (offset + pos x)
     else if whence =? 2 then
       Ok (offset + (PboInfo.data_offset (info x) + PboInfo.data_size (info x)))
     else Raise IOError) ;;
  if offset <? PboInfo.data_offset (info x) then Raise IOError
  else
    match fp with
    | None => Raise AttributeError
    | Some fp =>
        fp <- File.seek fp offset 0 ;;
        p <- File.tell fp ;;
        Ok (Some fp, mk (info x) p)
    end.

End PboExtFile.

(** ** Insertion-ordered dictionaries *)

(** An [OrderedDict] keyed by byte strings: [d[k] = v] replaces the
    value of a key already present where it stands and appends a new
    key at the end. *)
Fixpoint odict_set {V : Type} (d : list (bytes * V)) (k : bytes) (v : V)
    : list (bytes * V) :=
  match d with
  | [] => [(k, v)]
  | (k', v') :: d' =>
      if bytes_eqb k' k then (k', v) :: d' else (k', v') :: odict_set d' k v
  end.

Fixpoint odict_get {V : Type} (d : list (bytes * V)) (k : bytes) : option V :=
  match d with
  | [] => None
  | (k', v') :: d' => if bytes_eqb k' k then Some v' else odict_get d' k
  end.

(** [d.pop(k)]: the value of [k] and the dictionary without it. *)
Fixpoint odict_pop {V : Type} (d : list (bytes * V)) (k : bytes)
    : option (V * list (bytes * V)) :=
  match d with
  | [] => None
  | (k', v') :: d' =>
      if bytes_eqb k' k then Some (v', d')
      else
        match odict_pop d' k with
        | Some (v, d'') => Some (v, (k', v') :: d'')
        | None => None
        end
  end.

(** [sorted(xs, key=key)]: stable, ascending. *)
Fixpoint insert_sorted {A : Type} (key : A -> bytes) (x : A) (l : list A)
    : list A :=
  match l with
  | [] => [x]
  | y :: l' =>
      if bytes_leb (key x) (key y) then x :: y :: l'
      else y :: insert_sorted key x l'
  end.

Definition sorted {A : Type} (key : A -> bytes) (l : list A) : list A :=
  fold_right (insert_sorted key) [] l.

(** ** Archives *)

(** What [PboFile.open] returns: a view into the backing file, or the
    member's own file object. *)
Inductive member : Type :=
| Archived (x : PboExtFile.t)
| External (f : File.t).

Definition member_read (fp : option File.t) (m : member) (n : Z)
    : res (bytes * option File.t * member) :=
  match m with
  | Archived x =>
      '(data, fp, x) <- PboExtFile.read fp x n ;; Ok (data, fp, Archived x)
  | External f =>
      '(data, f) <- File.read f n ;; Ok (data, fp, External f)
  end.

Definition member_tell (m : member) : res Z :=
  match m with
  | Archived x => Ok (PboExtFile.tell x)
  | External f => File.tell f
  end.

(** Leaving [with self.open(info) as f]: a view has nothing to close, a
    member's own file object is closed. *)
Definition member_exit (info : PboInfo.t) (m : member) : PboInfo.t :=
  match m with
  | Archived _ => info
  | External f => PboInfo.set_fp info (Some (File.close f))
  end.

Definition unpack_IIIII (bs : bytes) : res (Z * Z * Z * Z * Z) :=
  if (length bs =? 20)%nat then
    Ok (le_combine (slice bs 0 4), le_combine (slice bs 4 4),
        le_combine (slice bs 8 4), le_combine (slice bs 12 4),
        le_combine (slice bs 16 4))
  else Raise StructError.

Definition pack_IIIII (v : Z * Z * Z * Z * Z) : res bytes :=
  let '(x1, x2, x3, x4, x5) := v in
  b1 <- pack_I x1 ;; b2 <- pack_I x2 ;; b3 <- pack_I x3 ;;
  b4 <- pack_I x4 ;; b5 <- pack_I x5 ;;
  Ok (b1 ++ b2 ++ b3 ++ b4 ++ b5).

(** [struct.pack('s', x)]: one byte, cut or padded with NUL. *)
Definition pack_s (x : bytes) : bytes := firstn 1 (x ++ [NUL]).

Module PboFile.

Record t : Type := mk {
  header : bytes * (Z * Z * Z * Z * Z);
  header_extension : list (bytes * bytes);
  filedict : list (bytes * PboInfo.t);
  fp : option File.t
}.

Definition set_state (p : t) (d : list (bytes * PboInfo.t))
    (f : option File.t) : t :=
  mk (header p) (header_extension p) d f.

(** [PboFile()] *)
Definition init : t := mk ([NUL], (0x56657273, 0, 0, 0, 0)) [] [] None.

Definition infolist (p : t) : list PboInfo.t := map snd (filedict p).

Fixpoint assign_offsets (d : list (bytes * PboInfo.t)) (data_offset : Z)
    : list (bytes * PboInfo.t) :=
  match d with
  | [] => []
  | (k, info) :: d' =>
      (k, PboInfo.set_data_offset info data_offset)
        :: assign_offsets d' (data_offset + PboInfo.data_size info)
  end.

Definition from_file (fuel : nat) (fp : File.t) : res t :=
  '(h0, fp) <- unpack_asciiz fuel fp ;;
  '(raw, fp) <- File.read fp 20 ;;
  h1 <- unpack_IIIII raw ;;
  '(s, fp) <- unpack_asciiz fuel fp ;;
  '(header_extension, _, fp) <-
    while fuel
      (fun '(_, s, _) => negb (length s =? 0)%nat)
      (fun '(header_extension, s, fp) =>
         '(v, fp) <- unpack_asciiz fuel fp ;;
         '(s', fp) <- unpack_asciiz fuel fp ;;
         Ok (odict_set header_extension s v, s', fp))
      ([], s, fp) ;;
  '(s, fp) <- unpack_asciiz fuel fp ;;
  '(filedict, _, fp) <-
    while fuel
      (fun '(_, s, _) => negb (length s =? 0)%nat)
      (fun '(filedict, s, fp) =>
         '(raw, fp) <- File.read fp 20 ;;
         '(pm, os, rs, ts, ds) <- unpack_IIIII raw ;;
         '(s', fp) <- unpack_asciiz fuel fp ;;
         Ok (odict_set filedict s (PboInfo.init s pm os rs ts ds None), s', fp))
      ([], s, fp) ;;
  '(empty, fp) <- File.read fp 20 ;;
  data_offset <- File.tell fp ;;
  Ok (mk (h0, h1) header_extension (assign_offsets filedict data_offset)
         (Some fp)).

Definition open (info : PboInfo.t) : member :=
  match PboInfo.fp info with
  | None => Archived (PboExtFile.init info)
  | Some f => External f
  end.

(** [add(name, file)], with [name] already in the archive's spelling
    (backslashes as separators) and encoded. *)
Definition add (p : t) (dst_name : bytes) (file : File.t) : res t :=
  match odict_get (filedict p) dst_name with
  | Some _ => Raise KeyError
  | None =>
      Ok (set_state p
            (odict_set (filedict p) dst_name
               (PboInfo.init dst_name 0 0 0 0 (-1) (Some file)))
            (fp p))
  end.

(** [delete(name)] with a [PboInfo] for [name]: the member of that
    file name is taken out and returned. *)
Definition delete (p : t) (name : PboInfo.t) : res (PboInfo.t * t) :=
  match odict_pop (filedict p) (PboInfo.filename name) with
  | Some (v, d) => Ok (v, set_state p d (fp p))
  | None => Raise KeyError
  end.

(** [getinfo(name)] with the name as bytes, as the keys are. *)
Definition getinfo (p : t) (name : bytes) : res PboInfo.t :=
  match odict_get (filedict p) name with
  | Some v => Ok v
  | None => Raise KeyError
  end.

(** [close()] *)
Definition close (p : t) : t :=
  set_state p (filedict p) (option_map File.close (fp p)).

Definition namelist (p : t) : list bytes := map fst (filedict p).

(** [open(name)] with a name instead of a [PboInfo]. *)
Definition open_name (p : t) (name : bytes) : res member :=
  pboinfo <- getinfo p name ;; Ok (open pboinfo).

(** The index record [_export] writes for one member. *)
Definition pack_info (v : PboInfo.t) : res bytes :=
  ts <- PboInfo.get_timestamp v ;;
  ds <- PboInfo.get_data_size v ;;
  rec <- pack_IIIII (PboInfo.packing_method v, PboInfo.original_size v,
                     PboInfo.reserved v, ts, ds) ;;
  Ok (PboInfo.filename v ++ [NUL] ++ rec).

(** The body of the second loop of [_export]: copy one member to the
    output in chunks, hashing along. *)
Definition export_member (fuel : nat) (kv : bytes * PboInfo.t)
    (st : hashobj * bytes * t) : res (hashobj * bytes * t) :=
  let '(hash1, out, p) := st in
  let '(k, v) := kv in
  '(data, fp, f) <- member_read (fp p) (open v) CHUNK_SIZE ;;
  '(hash1, out, _, fp, f) <-
    while fuel
      (fun '(_, _, data, _, _) => (0 <? length data)%nat)
      (fun '(hash1, out, data, fp, f) =>
         '(data', fp, f) <- member_read fp f CHUNK_SIZE ;;
         Ok (update hash1 data, out ++ data, data', fp, f))
      (hash1, out, data, fp, f) ;;
  Ok (hash1, out, set_state p (odict_set (filedict p) k (member_exit v f)) fp).

(** [_export(file)]: the bytes written to [file], and the archive with
    its file objects where the writing left them. *)
Definition _export (fuel : nat) (p : t) : res (bytes * t) :=
  let hash1 := sha1_new in
  h1 <- pack_IIIII (snd (header p)) ;;
  let header := pack_s (fst (header p)) ++ h1 in
  header <-
    for_each (header_extension p)
      (fun '(k, v) header => Ok (header ++ k ++ [NUL] ++ v ++ [NUL])) header ;;
  let header := header ++ pack_s [NUL] in
  header <-
    for_each (sorted fst (filedict p))
      (fun '(k, v) header => r <- pack_info v ;; Ok (header ++ r)) header ;;
  let header := header ++ repeat NUL 21 in
  let hash1 := update hash1 header in
  let out := header in
  '(hash1, out, p) <-
    for_each (sorted fst (filedict p)) (export_member fuel) (hash1, out, p) ;;
  n <- long16 (hexdigest hash1) ;;
  tail <- int_to_bytes n 20 big ;;
  Ok (out ++ [NUL] ++ tail, p).

(** [_namehash()] *)
Definition _namehash (p : t) : res hashobj :=
  for_each (sorted (fun v => lower (PboInfo.filename v)) (infolist p))
    (fun info namehash =>
       c <- PboInfo.check_name_hash info ;;
       Ok (if c then update namehash (lower (PboInfo.filename info))
           else namehash))
    sha1_new.

(** The body of the loop of [_filehash] for one member; the member is
    returned with its file object where the reading left it. *)
Definition filehash_member (fuel : nat) (version : Z) (info : PboInfo.t)
    (st : hashobj * bool * option File.t)
    : res (hashobj * bool * option File.t * PboInfo.t) :=
  let '(filehash, nothing, fp) := st in
  c <- PboInfo.check_file_hash info version ;;
  if c then
    let rlen := PboInfo.data_size info in
    '(filehash, _, fp, file) <-
      while fuel
        (fun '(_, rlen, _, _) => 0 <? rlen)
        (fun '(filehash, rlen, fp, file) =>
           '(data, fp, file) <- member_read fp file (Z.min CHUNK_SIZE rlen) ;;
           pos <- member_tell file ;;
           Ok (update filehash data, PboInfo.data_size info - pos, fp, file))
        (filehash, rlen, fp, open info) ;;
    Ok (filehash, false, fp, member_exit info file)
  else Ok (filehash, nothing, fp, info).

Fixpoint filehash_loop (fuel : nat) (version : Z)
    (d : list (bytes * PboInfo.t)) (st : hashobj * bool * option File.t)
    : res (hashobj * bool * option File.t * list (bytes * PboInfo.t)) :=
  match d with
  | [] => Ok (st, [])
  | (k, info) :: d' =>
      '(st, info) <- filehash_member fuel version info st ;;
      '(st, d') <- filehash_loop fuel version d' st ;;
      Ok (st, (k, info) :: d')
  end.

(** [_filehash(version)] *)
Definition _filehash (fuel : nat) (p : t) (version : Z) : res (hashobj * t) :=
  '(filehash, nothing, fp, d) <-
    filehash_loop fuel version (filedict p) (sha1_new, true, fp p) ;;
  filehash <-
    (if nothing then
       if version =? 2 then Ok (update filehash (b "nothing"))
       else if version =? 3 then Ok (update filehash (b "gnihton"))
       else Raise ValueError
     else Ok filehash) ;;
  Ok (filehash, set_state p d fp).

(** [hash1(file)] on the file object it is given. *)
Definition hash1 (fuel : nat) (file : option File.t)
    : res (hashobj * option File.t) :=
  match file with
  | None => Raise AttributeError
  | Some file =>
      oldpos <- File.tell file ;;
      file <- File.seek file (-21) 2 ;;
      end_ <- File.tell file ;;
      file <- File.seek file 0 0 ;;
      '(hash1, _, file) <-
        while fuel
          (fun '(_, rlen, _) => 0 <? rlen)
          (fun '(hash1, rlen, file) =>
             '(data, file) <- File.read file (Z.min CHUNK_SIZE rlen) ;;
             pos <- File.tell file ;;
             Ok (update hash1 data, end_ - pos, file))
          (sha1_new, end_, file) ;;
      file <- File.seek file oldpos 0 ;;
      Ok (hash1, Some file)
  end.

(** [if b'prefix' in self.header_extension: h.update(prefix + backslash)] *)
Definition update_prefix (p : t) (h : hashobj) : hashobj :=
  match odict_get (header_extension p) (b "prefix") with
  | Some v => update h (v ++ [BACKSLASH])
  | None => h
  end.

(** [hash(file, version)].  With [file = None] the backing file of the
    archive is hashed, and the reads move it. *)
Definition hash (fuel : nat) (p : t) (file : option File.t) (version : Z)
    : res (hashobj * hashobj * hashobj * t * option File.t) :=
  '(hash1, p, file) <-
    match file with
    | None =>
        '(h, f) <- hash1 fuel (fp p) ;; Ok (h, set_state p (filedict p) f, None)
    | Some f => '(h, f) <- hash1 fuel (Some f) ;; Ok (h, p, f)
    end ;;
  namehash <- _namehash p ;;
  let hash2 := sha1_new in
  let hash2 := update hash2 (digest hash1) in
  let hash2 := update hash2 (digest namehash) in
  let hash2 := update_prefix p hash2 in
  '(filehash, p) <- _filehash fuel p version ;;
  let hash3 := sha1_new in
  let hash3 := update hash3 (digest filehash) in
  let hash3 := update hash3 (digest namehash) in
  let hash3 := update_prefix p hash3 in
  Ok (hash1, hash2, hash3, p, file).

End PboFile.

(** ** Signing and verifying *)

(** [pow(base, exp, modulus)] for the exponents this program uses; a
    zero modulus raises, and so does a negative exponent here (newer
    Pythons invert the base instead). *)
Definition pow (base exp modulus : Z) : res Z :=
  if modulus =? 0 then Raise ValueError
  else if exp <? 0 then Raise ValueError
  else Ok (base ^ exp mod modulus).

(** [pow(padding(h.hexdigest(), bitlen//8), d, n)], the expression
    [sign] evaluates for each of the three hashes. *)
Definition sign_hash (pkey : PrivateKey.t) (hash_value : string) : res Z :=
  let pub := PrivateKey.public_key pkey in
  m <- padding hash_value (PublicKey.bitlen pub / 8) ;;
  pow m (PrivateKey.private_exponent pkey) (PublicKey.modulus pub).

(** [padding(h.hexdigest(), bitlen//8) == pow(sig, e, n)], the
    expression [verify] evaluates for each of the three signatures. *)
Definition verify_hash (pkey : PublicKey.t) (hash_value : string) (sig : Z)
    : res bool :=
  m <- padding hash_value (PublicKey.bitlen pkey / 8) ;;
  s <- pow sig (PublicKey.public_exponent pkey) (PublicKey.modulus pkey) ;;
  Ok (m =? s).


(** [verify] from the parsed key, the parsed signature and the bytes of
    the archive to the exit status. *)
Definition verify (fuel : nat) (pkey : PublicKey.t) (bsign : Bisign.t)
    (pbo : bytes) : res Z :=
  p <- PboFile.from_file fuel (File.open pbo) ;;
  '(hash1, hash2, hash3, _, _) <-
    PboFile.hash fuel p None (Bisign.version bsign) ;;
  verify1 <- verify_hash pkey (hexdigest hash1) (Bisign.sig1 bsign) ;;
  verify2 <- verify_hash pkey (hexdigest hash2) (Bisign.sig2 bsign) ;;
  verify3 <- verify_hash pkey (hexdigest hash3) (Bisign.sig3 bsign) ;;
  Ok (if verify1 && verify2 && verify3 then 0 else 1).

(** ** Definitions the statements below are written with *)

(** Reading digits from the left: the accumulator moves up one byte per
    byte read. *)
Definition be_fold (acc : Z) (bs : bytes) : Z :=
  fold_left (fun a x => 256 * a + byte.unsigned x) bs acc.

(** The DER prefix of a SHA-1 DigestInfo. *)
Definition digest_info : bytes :=
  [Byte.x30; Byte.x21; Byte.x30; Byte.x09; Byte.x06; Byte.x05; Byte.x2b;
   Byte.x0e; Byte.x03; Byte.x02; Byte.x1a; Byte.x05; Byte.x00; Byte.x04;
   Byte.x14].

(** The EMSA-PKCS1-v1_5 encoded message with [npad] bytes of [0xFF]
    (none when [npad] is negative). *)
Definition emsa (d : bytes) (npad : Z) : bytes :=
  [Byte.x00; Byte.x01] ++ repeat Byte.xff (Z.to_nat npad) ++ [Byte.x00]
    ++ digest_info ++ d.

(** A 512-bit key for the examples: two Proth primes, the usual public
    exponent, and the private exponent that inverts it modulo
    [lcm (p - 1) (q - 1)]. *)
Definition example_p : Z := 3 * 2 ^ 438 + 1.
Definition example_q : Z := 3 * 2 ^ 66 + 1.
Definition example_e : Z := 65537.
Definition example_d : Z :=
  Eval vm_compute in
    Z.invmod example_e (Z.lcm (example_p - 1) (example_q - 1)).

Definition example_public_key : PublicKey.t :=
  PublicKey.mk (b "example") 512 example_e (example_p * example_q).

Definition example_private_key : PrivateKey.t :=
  PrivateKey.mk example_public_key example_d example_p example_q
    (example_d mod (example_p - 1)) (example_d mod (example_q - 1))
    (Z.invmod example_q example_p).

(** Ascending keys, as [sorted] leaves them. *)
Definition key_le {A : Type} (key : A -> bytes) (x y : A) : Prop :=
  bytes_leb (key x) (key y) = true.

Definition bytes_le (x y : bytes) : Prop := bytes_leb x y = true.

Definition lower_name (i : PboInfo.t) : bytes := lower (PboInfo.filename i).

(** A member whose own file object, if it has one, is still open. *)
Definition readable (i : PboInfo.t) : Prop :=
  match PboInfo.fp i with
  | Some f => File.closed f = false
  | None => True
  end.

(** The member's data size is known and positive. *)
Definition positive_size (i : PboInfo.t) : bool :=
  match PboInfo.get_data_size i with
  | Ok sz => 0 <? sz
  | _ => false
  end.

(** The selection rule of the file hash, as the specification words it. *)
Definition selected (version : Z) (i : PboInfo.t) : bool :=
  positive_size i &&
  (if version =? 2 then negb (endswith (lower_name i) PboInfo.v2_excluded)
   else endswith (lower_name i) PboInfo.v3_included).

(** The sentinel fed to the file hash when no member is selected. *)
Definition sentinel (version : Z) : bytes :=
  if version =? 2 then b "nothing" else b "gnihton".

(** A member stored in the backing file [f]: no file object of its own,
    and its bytes lie inside [f]. *)
Definition archived_in (f : File.t) (i : PboInfo.t) : Prop :=
  PboInfo.fp i = None /\
  0 <= PboInfo.data_offset i /\
  0 <= PboInfo.data_size i /\
  PboInfo.data_offset i + PboInfo.data_size i <= File.size f.

(** The bytes of a member stored in the backing file [f]. *)
Definition payload (f : File.t) (i : PboInfo.t) : bytes :=
  slice (File.content f) (PboInfo.data_offset i) (PboInfo.data_size i).

(** An archive for the examples: [init.sqf] and [readme.txt], packed by
    [_export] and read back by [from_file]. *)
Definition example_archive : bytes :=
  Eval vm_compute in
    match
      (p <- PboFile.add PboFile.init (b "init.sqf")
              (File.mk (b "hint 'hi';") 0 false 1000) ;;
       p <- PboFile.add p (b "readme.txt") (File.mk (b "abcd") 0 false 2000) ;;
       '(out, _) <- PboFile._export 10 p ;;
       Ok out)
    with
    | Ok out => out
    | _ => []
    end.

Definition example_pbo : PboFile.t :=
  Eval vm_compute in
    match PboFile.from_file 200 (File.open example_archive) with
    | Ok p => p
    | _ => PboFile.init
    end.

(** What hash2 and hash3 are fed after the two digests: the value of the
    header extension [prefix] and a backslash, when the key is there. *)
Definition prefix_part (p : PboFile.t) : bytes :=
  match odict_get (PboFile.header_extension p) (b "prefix") with
  | Some v => v ++ [BACKSLASH]
  | None => []
  end.

(** An archive assembled in memory, as [create] does it: one member,
    added with its own file object. *)
Definition scratch_pbo : PboFile.t :=
  Eval vm_compute in
    match PboFile.add PboFile.init (b "init.sqf")
            (File.mk (b "hint 'hi';") 0 false 1000) with
    | Ok p => p
    | _ => PboFile.init
    end.

(** The example archive cut off inside its first file name: the stream
    ends after [init.s], in front of the NUL that should end the name. *)
Definition truncated_archive : bytes := firstn 28 example_archive.

(** ** The PBO file format

    What section 4.3 of the specification calls a PBO file, written out
    independently of the reader and the writer: the leading index record,
    the header extension, the index, 21 NUL bytes, the payloads in index
    order, then a NUL and the SHA-1 of everything in front of it. *)
Module Format.

Record member : Type := Member {
  name : bytes;
  packing_method : Z;
  original_size : Z;
  reserved : Z;
  timestamp : Z;
  data : bytes
}.

Record archive : Type := Archive {
  first_record : Z * Z * Z * Z * Z;
  extension : list (bytes * bytes);
  members : list member
}.

Definition u32 (x : Z) : bytes := le_split 4 x.

Definition record5 (r : Z * Z * Z * Z * Z) : bytes :=
  let '(x1, x2, x3, x4, x5) := r in
  u32 x1 ++ u32 x2 ++ u32 x3 ++ u32 x4 ++ u32 x5.

Definition fields (m : member) : Z * Z * Z * Z * Z :=
  (packing_method m, original_size m, reserved m, timestamp m,
   Z.of_nat (length (data m))).

Definition index_record (m : member) : bytes :=
  name m ++ [NUL] ++ record5 (fields m).

Definition pair_bytes (kv : bytes * bytes) : bytes :=
  fst kv ++ [NUL] ++ snd kv ++ [NUL].

Definition head (a : archive) : bytes :=
  [NUL] ++ record5 (first_record a)
    ++ concat (map pair_bytes (extension a)) ++ [NUL]
    ++ concat (map index_record (members a)) ++ repeat NUL 21.

Definition body (a : archive) : bytes :=
  head a ++ concat (map data (members a)).

Definition file (a : archive) : bytes :=
  body a ++ [NUL] ++ SHA1.sha1 (body a).

Definition is_u32 (x : Z) : Prop := 0 <= x < 2 ^ 32.

Definition record_ok (r : Z * Z * Z * Z * Z) : Prop :=
  let '(x1, x2, x3, x4, x5) := r in
  is_u32 x1 /\ is_u32 x2 /\ is_u32 x3 /\ is_u32 x4 /\ is_u32 x5.

(** A string that can be stored NUL-terminated. *)
Definition asciiz (s : bytes) : Prop := ~ In NUL s.

Definition pair_ok (kv : bytes * bytes) : Prop :=
  fst kv <> [] /\ asciiz (fst kv) /\ asciiz (snd kv).

Definition member_ok (m : member) : Prop :=
  name m <> [] /\ asciiz (name m) /\ record_ok (fields m).

Definition name_lt (m1 m2 : member) : Prop :=
  bytes_ltb (name m1) (name m2) = true.

(** A valid archive whose index is in lexicographic order of the file
    names: every field fits its 32 bits, the strings can be stored
    NUL-terminated, an empty key or name (which would end its table) does
    not occur, the keys of the header extension are distinct, and the
    names ascend strictly. *)
Record valid (a : archive) : Prop := {
  valid_first : record_ok (first_record a);
  valid_pairs : Forall pair_ok (extension a);
  valid_keys : NoDup (map fst (extension a));
  valid_members : Forall member_ok (members a);
  valid_order : StronglySorted name_lt (members a)
}.

(** The key, or the name, that is stored next: empty at the end of the
    table. *)
Definition next_key (kvs : list (bytes * bytes)) : bytes :=
  match kvs with [] => [] | kv :: _ => fst kv end.

Definition next_name (ms : list member) : bytes :=
  match ms with [] => [] | m :: _ => name m end.

(** What follows the NUL of the key just read while the pairs [kvs] are
    still to be stored. *)
Fixpoint pairs_rest (kvs : list (bytes * bytes)) (tail : bytes) : bytes :=
  match kvs with
  | [] => tail
  | kv :: kvs' => snd kv ++ NUL :: next_key kvs' ++ NUL :: pairs_rest kvs' tail
  end.

(** What follows the NUL of the name just read while the index records
    of [ms] are still to be stored. *)
Fixpoint index_rest (ms : list member) (tail : bytes) : bytes :=
  match ms with
  | [] => tail
  | m :: ms' =>
      record5 (fields m) ++ next_name ms' ++ NUL :: index_rest ms' tail
  end.

(** The member records [from_file] builds, before the offsets are set. *)
Definition info_of (m : member) : bytes * PboInfo.t :=
  (name m,
   PboInfo.init (name m) (packing_method m) (original_size m) (reserved m)
     (timestamp m) (Z.of_nat (length (data m))) None).

End Format.

(** A valid archive for the examples: a [prefix] extension and two
    members in name order. *)
Definition example_format : Format.archive :=
  Format.Archive (0x56657273, 0, 0, 0, 0)
    [(b "prefix", b "myAddon")]
    [Format.Member (b "data.sqf") 0 0 0 1000 (b "x");
     Format.Member (b "logo.paa") 0 0 0 2000 (b "12345678")].

(** ** What the three hashes of a valid archive are fed *)

Definition has_data (m : Format.member) : bool :=
  0 <? Z.of_nat (length (Format.data m)).

Definition lower_member (m : Format.member) : bytes := lower (Format.name m).

Definition selects (version : Z) (m : Format.member) : bool :=
  has_data m &&
  (if version =? 2 then negb (endswith (lower_member m) PboInfo.v2_excluded)
   else endswith (lower_member m) PboInfo.v3_included).

Definition filehash_input (a : Format.archive) (version : Z) : bytes :=
  match filter (selects version) (Format.members a) with
  | [] => sentinel version
  | l => concat (map Format.data l)
  end.

Definition prefix_input (a : Format.archive) : bytes :=
  match odict_get (Format.extension a) (b "prefix") with
  | Some v => v ++ [BACKSLASH]
  | None => []
  end.

(** The archive object [from_file] returns for the body of a valid
    archive followed by [trailer]. *)
Definition loaded (a : Format.archive) (trailer : bytes) : PboFile.t :=
  let D := Z.of_nat (length (Format.head a)) in
  PboFile.mk ([], Format.first_record a) (Format.extension a)
    (PboFile.assign_offsets (map Format.info_of (Format.members a)) D)
    (Some (File.set_pos (File.open (Format.body a ++ trailer)) D)).

(** The digests of hash1, hash2 and hash3 of the archive stored in
    [pbo], as [sign] and [verify] obtain them. *)
Definition digests (fuel : nat) (pbo : bytes) (version : Z)
    : res (bytes * bytes * bytes) :=
  p <- PboFile.from_file fuel (File.open pbo) ;;
  '(hash1, hash2, hash3, _, _) <- PboFile.hash fuel p None version ;;
  Ok (digest hash1, digest hash2, digest hash3).

(** ** Flipping one bit of one payload *)

Fixpoint map_nth {A : Type} (g : A -> A) (n : nat) (l : list A) : list A :=
  match l, n with
  | [], _ => []
  | x :: l', O => g x :: l'
  | x :: l', S n' => x :: map_nth g n' l'
  end.

(** Bit [k] of byte [i] of [s], flipped. *)
Definition flip_bit (i : nat) (k : Z) (s : bytes) : bytes :=
  map_nth (fun x => byte.of_Z (Z.lxor (byte.unsigned x) (2 ^ k))) i s.

Definition flip_data (i : nat) (k : Z) (m : Format.member) : Format.member :=
  Format.Member (Format.name m) (Format.packing_method m)
    (Format.original_size m) (Format.reserved m) (Format.timestamp m)
    (flip_bit i k (Format.data m)).

(** The archive [a] with bit [k] of byte [i] of the payload of member
    [j] flipped; leading record, header extension and index stay. *)
Definition flip_member (j i : nat) (k : Z) (a : Format.archive)
    : Format.archive :=
  Format.Archive (Format.first_record a) (Format.extension a)
    (map_nth (flip_data i k) j (Format.members a)).

(** The example archive with one bit of the payload of [logo.paa]
    flipped and the trailer left as it was. *)
Definition example_file : bytes := Format.file example_format.

Definition example_flipped : bytes :=
  Format.body (flip_member 1 0 0 example_format)
    ++ NUL :: SHA1.sha1 (Format.body example_format).

Definition example_trailer : bytes :=
  NUL :: SHA1.sha1 (Format.body example_format).

(** The signature of the example archive under the example key,
    computed by square-and-multiply. *)
Definition example_bisign : Bisign.t :=
  Eval vm_compute in
    let n := example_p * example_q in
    let s d :=
      match padding (hex d) 64 with
      | Ok m => Zpow_mod m example_d n
      | _ => 0
      end in
    match digests 200 example_file 3 with
    | Ok (d1, d2, d3) => Bisign.mk example_public_key (s d1) (s d2) (s d3) 3
    | _ => Bisign.mk example_public_key 0 0 0 3
    end.

(** ** Keys and signatures that can be stored *)

(** A public key fits its file form: the name can be stored
    NUL-terminated, the bit length and the exponent fit 32 bits, and the
    modulus fits the [bitlen // 8] bytes written for it. *)
Definition public_key_ok (k : PublicKey.t) : Prop :=
  Format.asciiz (PublicKey.name k) /\
  Format.is_u32 (PublicKey.bitlen k) /\
  Format.is_u32 (PublicKey.public_exponent k) /\
  0 <= PublicKey.modulus k < 2 ^ (8 * (PublicKey.bitlen k / 8)).

(** [x] fits [n] bytes. *)
Definition fits (n x : Z) : Prop := 0 <= x < 2 ^ (8 * n).

Definition private_key_ok (k : PrivateKey.t) : Prop :=
  let bitlen := PublicKey.bitlen (PrivateKey.public_key k) in
  public_key_ok (PrivateKey.public_key k) /\
  fits (bitlen / 8) (PrivateKey.private_exponent k) /\
  fits (bitlen / 16) (PrivateKey.prime1 k) /\
  fits (bitlen / 16) (PrivateKey.prime2 k) /\
  fits (bitlen / 16) (PrivateKey.exponent1 k) /\
  fits (bitlen / 16) (PrivateKey.exponent2 k) /\
  fits (bitlen / 16) (PrivateKey.coefficient k).

Definition bisign_ok (s : Bisign.t) : Prop :=
  let len123 := PublicKey.bitlen (Bisign.public_key s) / 8 in
  public_key_ok (Bisign.public_key s) /\
  fits len123 (Bisign.sig1 s) /\
  fits len123 (Bisign.sig2 s) /\
  fits len123 (Bisign.sig3 s) /\
  Format.is_u32 (Bisign.version s).

(** A key small enough to be read at a glance: 143 = 11 * 13, with
    7 * 103 = 1 modulo lcm (10, 12). *)
Definition toy_private_key : PrivateKey.t :=
  PrivateKey.mk (PublicKey.mk (b "toy") 16 7 143) 103 11 13 3 7 6.

(** The example archive with its members the other way round. *)
Definition example_pbo_reversed : PboFile.t :=
  PboFile.set_state example_pbo (rev (PboFile.filedict example_pbo))
    (PboFile.fp example_pbo).

(** What [_export] returns for the example archive. *)
Definition example_export : bytes * PboFile.t :=
  Eval vm_compute in
    match PboFile._export 200 example_pbo with
    | Ok r => r
    | _ => ([], PboFile.init)
    end.

(** ** Archives assembled from files *)

(** [PboFile()] with its header extension set. *)
Definition start (ext : list (bytes * bytes)) : PboFile.t :=
  PboFile.mk ([NUL], (0x56657273, 0, 0, 0, 0)) ext [] None.

(** The files added one after the other, each under its name. *)
Fixpoint add_all (p : PboFile.t) (files : list (bytes * File.t))
    : res PboFile.t :=
  match files with
  | [] => Ok p
  | (name, file) :: files' => p' <- PboFile.add p name file ;; add_all p' files'
  end.

(** The member record [add] makes for a file. *)
Definition added (kf : bytes * File.t) : bytes * PboInfo.t :=
  (fst kf, PboInfo.init (fst kf) 0 0 0 0 (-1) (Some (snd kf))).

(** The archive with all the files added. *)
Definition created (ext : list (bytes * bytes)) (files : list (bytes * File.t))
    : PboFile.t :=
  PboFile.mk ([NUL], (0x56657273, 0, 0, 0, 0)) ext (map added files) None.

(** The member of the format that stands for a file: its name, its
    modification time, its contents. *)
Definition packed_member (kf : bytes * File.t) : Format.member :=
  Format.Member (fst kf) 0 0 0 (File.mtime (snd kf)) (File.content (snd kf)).

Definition packed (ext : list (bytes * bytes)) (files : list (bytes * File.t))
    : Format.archive :=
  Format.Archive (0x56657273, 0, 0, 0, 0) ext
    (map packed_member (sorted fst files)).

(** A file just opened for reading, whose size and modification time fit
    32 bits, under a name that can be stored. *)
Definition file_ok (kf : bytes * File.t) : Prop :=
  fst kf <> [] /\ Format.asciiz (fst kf) /\
  File.closed (snd kf) = false /\ File.pos (snd kf) = 0 /\
  Format.is_u32 (File.mtime (snd kf)) /\
  Format.is_u32 (File.size (snd kf)).

(** Two files for the examples, given in the reverse of name order. *)
Definition example_files : list (bytes * File.t) :=
  [(b "readme.txt", File.mk (b "abcd") 0 false 2000);
   (b "init.sqf", File.mk (b "hint 'hi';") 0 false 1000)].

(** A member whose own file object has been closed. *)
Definition spent (i : PboInfo.t) : Prop :=
  match PboInfo.fp i with
  | Some f => File.closed f = true
  | None => False
  end.

(** ** DER encodings

    A definite-length encoding, as a tree: an INTEGER with its content
    bytes, a BIT STRING that holds further elements behind its first
    content byte, a NULL, a SEQUENCE, and any other element with its
    tag.  Every length is written on [w] length bytes after a byte
    [0x80 + w], or, for [w = 0], in the one byte of the short form. *)
#[warnings="-register-all"] Inductive tlv : Type :=
| TInt (w : nat) (content : bytes)
| TBits (w : nat) (pad : byte) (items : list tlv)
| TNull (w : nat) (content : bytes)
| TSeq (w : nat) (items : list tlv)
| TOther (tag : byte) (w : nat) (content : bytes).

Definition der_length (w n : nat) : bytes :=
  match w with
  | O => [byte.of_Z (Z.of_nat n)]
  | _ => byte.of_Z (0x80 + Z.of_nat w) :: rev (le_split w (Z.of_nat n))
  end.

Definition der_element (tag : byte) (w : nat) (content : bytes) : bytes :=
  tag :: der_length w (length content) ++ content.

Fixpoint encode (t : tlv) : bytes :=
  match t with
  | TInt w content => der_element Byte.x02 w content
  | TBits w pad items =>
      der_element Byte.x03 w (pad :: concat (map encode items))
  | TNull w content => der_element Byte.x05 w content
  | TSeq w items => der_element Byte.x30 w (concat (map encode items))
  | TOther tag w content => der_element tag w content
  end.

(** What the element stands for. *)
Fixpoint value_of (t : tlv) : der_value :=
  match t with
  | TInt _ content => DInt (bytes_to_int content big)
  | TBits _ _ items => DTuple (map value_of items)
  | TNull _ _ => DNone
  | TSeq _ items => DTuple (map value_of items)
  | TOther _ _ content => DBytes content
  end.

(** The length [n] can be written on [w] length bytes. *)
Definition length_fits (w n : nat) : bool :=
  match w with
  | O => (n <? 128)%nat
  | _ => (w <? 128)%nat && (Z.of_nat n <? 2 ^ (8 * Z.of_nat w))
  end.

Definition plain_tag (tag : byte) : bool :=
  negb (byte_eqb tag Byte.x02) && negb (byte_eqb tag Byte.x03)
  && negb (byte_eqb tag Byte.x05) && negb (byte_eqb tag Byte.x30).

(** Every length of the tree can be written as the tree says, and the
    elements with contents of their own carry none of the four tags the
    parser looks into. *)
Fixpoint well_formed (t : tlv) : bool :=
  match t with
  | TInt w content => length_fits w (length content)
  | TBits w pad items =>
      length_fits w (S (length (concat (map encode items))))
      && forallb well_formed items
  | TNull w content => length_fits w (length content)
  | TSeq w items =>
      length_fits w (length (concat (map encode items)))
      && forallb well_formed items
  | TOther tag w content => plain_tag tag && length_fits w (length content)
  end.

(** An RSA public key as PKCS #1 writes it: a SEQUENCE of the modulus
    143 and the exponent 7. *)
Definition example_der : list tlv :=
  [TSeq 0 [TInt 0 [Byte.x00; Byte.x8f]; TInt 0 [Byte.x07]]].

(** One round of the loop of [_parse_DER], with the nested calls made
    through [parse]. *)
Definition der_round (parse : bytes -> res (list der_value)) (der : bytes)
    (s : Z * list der_value) : res (Z * list der_value) :=
  let '(i, r) := s in
  tag <- unpack_B (slice der i 1) ;;
  let i := i + 1 in
  l1 <- unpack_B (slice der i 1) ;;
  let l2 := Z.land l1 0x7f in
  let i := i + 1 in
  '(l, i) <-
    (if negb (Z.land l1 0x80 =? 0) then
       bs <- unpack_nB l2 (slice der i l2) ;;
       Ok (bytes_to_int bs big, i + l2)
     else Ok (l2, i)) ;;
  item <-
    (if tag =? 0x2 then
       bs <- unpack_nB l (slice der i l) ;;
       Ok (DInt (bytes_to_int bs big))
     else if tag =? 0x3 then
       sub <- parse (slice der (i + 1) (l - 1)) ;;
       Ok (DTuple sub)
     else if tag =? 0x5 then Ok DNone
     else if tag =? 0x30 then
       sub <- parse (slice der i l) ;;
       Ok (DTuple sub)
     else Ok (DBytes (slice der i l))) ;;
  Ok (i + l, r ++ [item]).

(** What a round makes of an element whose tag is [u] and whose content
    is [content]. *)
Definition der_item (parse : bytes -> res (list der_value)) (u : Z)
    (content : bytes) : res der_value :=
  if u =? 0x2 then Ok (DInt (bytes_to_int content big))
  else if u =? 0x3 then sub <- parse (skipn 1 content) ;; Ok (DTuple sub)
  else if u =? 0x5 then Ok DNone
  else if u =? 0x30 then sub <- parse content ;; Ok (DTuple sub)
  else Ok (DBytes content).
(** * Properties *)

(** ** The embedded SHA-1 on the standard test vectors *)

Example sha1_abc :
  hexdigest (update sha1_new (b "abc"))
  = "a9993e364706816aba3e25717850c26c9cd0d89d"%string.
Proof. vm_compute. reflexivity. Qed.

Example sha1_empty :
  hexdigest sha1_new = "da39a3ee5e6b4b0d3255bfef95601890afd80709"%string.
Proof. vm_compute. reflexivity. Qed.

Example sha1_two_blocks :
  hexdigest (update sha1_new
    (b "abcdbcdecdefdefgefghfghighijhijkijkljklmklmnlmnomnopnopq"))
  = "84983e441c3bd26ebaae4aa1f95129e5e54670f1"%string.
Proof. vm_compute. reflexivity. Qed.

(** ** Bytes as numbers *)

Lemma le_combine_cons (x : byte) (t : bytes) :
  le_combine (x :: t) = byte.unsigned x + 256 * le_combine t.
Proof.
  change (le_combine (x :: t))
    with (Z.lor (byte.unsigned x) (Z.shiftl (le_combine t) 8)).
  pose proof (byte.unsigned_range x) as Hx.
  rewrite Z.shiftl_mul_pow2 by lia.
  assert (Hland : Z.land (byte.unsigned x) (le_combine t * 2 ^ 8) = 0).
  { apply Z.bits_inj'; intros n Hn. rewrite Z.land_spec, Z.bits_0.
    destruct (Z.ltb_spec n 8).
    - rewrite Z.mul_pow2_bits_low by lia. apply andb_false_r.
    - replace (Z.testbit (byte.unsigned x) n) with false; [reflexivity|].
      symmetry. destruct (Z.eq_dec (byte.unsigned x) 0) as [->|Hnz];
        [apply Z.bits_0|].
      apply Z.bits_above_log2; [lia|].
      apply Z.lt_le_trans with 8; [|lia].
      apply Z.log2_lt_pow2; lia. }
  rewrite <- Z.lxor_lor, <- Z.add_nocarry_lxor by exact Hland.
  change (2 ^ 8) with 256. ring.
Qed.

Lemma le_combine_snoc (l : bytes) (x : byte) :
  le_combine (l ++ [x])
  = le_combine l + 2 ^ (8 * Z.of_nat (length l)) * byte.unsigned x.
Proof.
  induction l as [|y l IH].
  - simpl app. rewrite le_combine_cons. cbn [length]. change (le_combine []) with 0.
    change (2 ^ (8 * Z.of_nat 0)) with 1. lia.
  - cbn [app length]. rewrite !le_combine_cons, IH.
    replace (8 * Z.of_nat (S (length l))) with (8 + 8 * Z.of_nat (length l)) by lia.
    rewrite Z.pow_add_r by lia. change (2 ^ 8) with 256. ring.
Qed.

Lemma be_fold_spec (bs : bytes) : forall acc,
  be_fold acc bs
  = acc * 2 ^ (8 * Z.of_nat (length bs)) + bytes_to_int bs big.
Proof.
  unfold be_fold, bytes_to_int.
  induction bs as [|x bs IH]; intros acc.
  - cbn. change (le_combine []) with 0. lia.
  - cbn [fold_left rev length]. rewrite IH, le_combine_snoc, length_rev.
    replace (8 * Z.of_nat (S (length bs))) with (8 * Z.of_nat (length bs) + 8) by lia.
    rewrite Z.pow_add_r by lia. change (2 ^ 8) with 256. ring.
Qed.

Lemma bytes_to_int_big_bound (bs : bytes) :
  0 <= bytes_to_int bs big < 2 ^ (8 * Z.of_nat (length bs)).
Proof.
  unfold bytes_to_int. pose proof (le_combine_bound (rev bs)) as H.
  rewrite length_rev in H. exact H.
Qed.

Lemma int_to_bytes_big (bs : bytes) :
  int_to_bytes (bytes_to_int bs big) (Z.of_nat (length bs)) big = Ok bs.
Proof.
  pose proof (bytes_to_int_big_bound bs) as Hb.
  unfold int_to_bytes.
  destruct (Z.ltb_spec (Z.of_nat (length bs)) 0); [lia|].
  destruct (Z.ltb_spec (bytes_to_int bs big) 0); [lia|].
  destruct (Z.leb_spec (2 ^ (8 * Z.of_nat (length bs))) (bytes_to_int bs big));
    [lia|].
  cbn [orb]. rewrite Nat2Z.id. unfold bytes_to_int.
  rewrite <- (length_rev bs), split_le_combine, rev_involutive. reflexivity.
Qed.

(** ** Hexadecimal text and the numbers it denotes *)

Lemma hex_value_digit (v : Z) :
  0 <= v < 16 -> hex_value (hex_digit v) = Some v.
Proof.
  intros Hv.
  assert (H : v = 0 \/ v = 1 \/ v = 2 \/ v = 3 \/ v = 4 \/ v = 5 \/ v = 6
              \/ v = 7 \/ v = 8 \/ v = 9 \/ v = 10 \/ v = 11 \/ v = 12
              \/ v = 13 \/ v = 14 \/ v = 15) by lia.
  repeat (destruct H as [->|H]; [reflexivity|]). subst v. reflexivity.
Qed.

Lemma parse_hex_hex (bs : bytes) (s : string) : forall acc,
  parse_hex acc (hex bs ++ s) = parse_hex (be_fold acc bs) s.
Proof.
  induction bs as [|x bs IH]; intros acc; [reflexivity|].
  pose proof (byte.unsigned_range x) as Hx. change (2 ^ 8) with 256 in Hx.
  cbn [hex String.append parse_hex].
  rewrite !hex_value_digit
    by (try apply Z.mod_pos_bound; try split;
        try apply Z.div_pos; try apply Z.div_lt_upper_bound; lia).
  rewrite IH. unfold be_fold. cbn [fold_left]. f_equal. f_equal.
  pose proof (Z.div_mod (byte.unsigned x) 16). lia.
Qed.

Lemma hex_app (a c : bytes) : hex (a ++ c) = (hex a ++ hex c)%string.
Proof.
  induction a as [|x a IH]; [reflexivity|].
  cbn [app hex String.append]. rewrite IH. reflexivity.
Qed.

Lemma hex_repeat_ff (n : nat) :
  hex (repeat Byte.xff n) = str_repeat "ff" n.
Proof.
  induction n as [|n IH]; [reflexivity|].
  cbn [repeat hex str_repeat]. rewrite IH. reflexivity.
Qed.

Lemma str_len_hex (bs : bytes) : str_len (hex bs) = 2 * Z.of_nat (length bs).
Proof.
  unfold str_len. induction bs as [|x bs IH]; [reflexivity|].
  cbn [hex String.length length]. lia.
Qed.

Lemma str_app_nil_r (s : string) : (s ++ "")%string = s.
Proof. induction s as [|c s IH]; [reflexivity|]. cbn. now rewrite IH. Qed.

Lemma hex_digit_not_x (v : Z) :
  Ascii.eqb (hex_digit v) "x" = false /\ Ascii.eqb (hex_digit v) "X" = false.
Proof.
  unfold hex_digit. destruct v as [|p|p]; [split; reflexivity| |split; reflexivity].
  do 4 (try destruct p as [p|p|]); split; reflexivity.
Qed.

(** [long(text, 16)] of the hexadecimal text of a byte string is its
    big-endian value, with or without the [0x] in front. *)
Lemma long16_0x_hex (bs : bytes) :
  bs <> [] ->
  long16 ("0x" ++ hex bs) = Ok (bytes_to_int bs big).
Proof.
  intros Hne. destruct bs as [|x bs]; [congruence|].
  unfold long16. cbn [String.append Ascii.eqb Bool.eqb andb orb].
  replace (hex (x :: bs)) with (hex (x :: bs) ++ "")%string
    by apply str_app_nil_r.
  rewrite parse_hex_hex, be_fold_spec. cbn [parse_hex hex String.append].
  f_equal.
Qed.

Lemma long16_hex (bs : bytes) :
  bs <> [] ->
  long16 (hex bs) = Ok (bytes_to_int bs big).
Proof.
  intros Hne. destruct bs as [|x bs]; [congruence|].
  unfold long16. cbn [hex].
  destruct (hex_digit_not_x (byte.unsigned x mod 16)) as [-> ->].
  rewrite andb_false_r.
  change (String (hex_digit (byte.unsigned x / 16))
            (String (hex_digit (byte.unsigned x mod 16)) (hex bs)))
    with (hex (x :: bs)).
  replace (hex (x :: bs)) with (hex (x :: bs) ++ "")%string
    by apply str_app_nil_r.
  rewrite parse_hex_hex, be_fold_spec. cbn [parse_hex hex String.append].
  f_equal.
Qed.

(** ** padding *)

(** Whatever the target length, [padding] returns the big-endian value
    of the encoded message; the run of [0xFF] is empty when the target
    length leaves no room for it. *)
Lemma padding_value (d : bytes) (k : Z) :
  padding (hex d) k
  = Ok (bytes_to_int (emsa d (k - Z.of_nat (length d) - 18)) big).
Proof.
  unfold padding. rewrite str_len_hex.
  replace (2 * Z.of_nat (length d) / 2) with (Z.of_nat (length d))
    by (rewrite Z.mul_comm, Z.div_mul; lia).
  replace (k - Z.of_nat (length d) - 3 - 15)
    with (k - Z.of_nat (length d) - 18) by lia.
  rewrite <- long16_0x_hex by (unfold emsa; discriminate).
  f_equal. unfold emsa, str_mul.
  rewrite !hex_app, hex_repeat_ff. reflexivity.
Qed.

Lemma length_emsa (d : bytes) (npad : Z) :
  0 <= npad ->
  Z.of_nat (length (emsa d npad)) = npad + 18 + Z.of_nat (length d).
Proof.
  intros H. unfold emsa, digest_info.
  rewrite !length_app, repeat_length. cbn [length]. lia.
Qed.

(** C6: for a 20-byte digest given as its 40 hexadecimal characters and
    a target length [k >= 64], [padding] returns the integer whose
    [k]-byte big-endian form is 00 01, then [k - 38] bytes FF, then 00,
    the 15 bytes of the SHA-1 DigestInfo prefix and the digest; that form
    is [k] bytes long and starts with 00 01. *)
Theorem padding_encoding (d : bytes) (k : Z) :
  length d = 20%nat ->
  64 <= k ->
  exists m enc,
    padding (hex d) k = Ok m /\
    int_to_bytes m k big = Ok enc /\
    enc = [Byte.x00; Byte.x01] ++ repeat Byte.xff (Z.to_nat (k - 38))
            ++ [Byte.x00] ++ digest_info ++ d /\
    Z.of_nat (length enc) = k /\
    firstn 2 enc = [Byte.x00; Byte.x01].
Proof.
  intros Hd Hk.
  exists (bytes_to_int (emsa d (k - 38)) big), (emsa d (k - 38)).
  assert (Hlen : Z.of_nat (length (emsa d (k - 38))) = k)
    by (rewrite length_emsa; lia).
  repeat split; try assumption.
  - rewrite padding_value, Hd.
    replace (k - Z.of_nat 20 - 18) with (k - 38) by lia. reflexivity.
  - rewrite <- Hlen at 2. apply int_to_bytes_big.
Qed.

Lemma padding_encoding_witness :
  exists m enc,
    padding (hex (SHA1.sha1 (b "abc"))) 128 = Ok m /\
    int_to_bytes m 128 big = Ok enc /\
    enc = [Byte.x00; Byte.x01] ++ repeat Byte.xff (Z.to_nat (128 - 38))
            ++ [Byte.x00] ++ digest_info ++ SHA1.sha1 (b "abc") /\
    Z.of_nat (length enc) = 128 /\
    firstn 2 enc = [Byte.x00; Byte.x01].
Proof.
  apply (padding_encoding (SHA1.sha1 (b "abc")) 128).
  - vm_compute. reflexivity.
  - lia.
Defined.

(** C7, as the specification states it, does not hold: with a target
    length of 63 bytes [padding] returns a value and raises nothing. *)
Lemma padding_63_returns :
  (exists m, padding (hex (SHA1.sha1 (b "abc"))) 63 = Ok m) /\
  ~ (exists e, padding (hex (SHA1.sha1 (b "abc"))) 63 = Raise e).
Proof.
  rewrite padding_value. split.
  - eexists. reflexivity.
  - intros [e He]. discriminate He.
Qed.

(** C7, amended: for a 20-byte digest and a target length [k < 64],
    [padding] raises nothing; it returns the big-endian value of 00 01,
    [k - 38] bytes FF (none when [k < 38]), 00, the DigestInfo prefix and
    the digest. *)
Theorem padding_small_modulus (d : bytes) (k : Z) :
  length d = 20%nat ->
  k < 64 ->
  padding (hex d) k = Ok (bytes_to_int (emsa d (k - 38)) big).
Proof.
  intros Hd _. rewrite padding_value, Hd.
  replace (k - Z.of_nat 20 - 18) with (k - 38) by lia. reflexivity.
Qed.

Lemma padding_small_modulus_witness :
  padding (hex (SHA1.sha1 (b "abc"))) 20
  = Ok (bytes_to_int (emsa (SHA1.sha1 (b "abc")) (20 - 38)) big).
Proof.
  apply (padding_small_modulus (SHA1.sha1 (b "abc")) 20).
  - vm_compute. reflexivity.
  - lia.
Defined.

(** ** Loops *)

(** A loop whose body keeps an invariant and lowers a measure returns,
    given fuel above the measure, in a state where the invariant holds
    and the condition fails. *)
Lemma while_terminates {S : Type} (cond : S -> bool) (body : S -> res S)
    (Inv : S -> Prop) (mu : S -> nat) :
  (forall s, Inv s -> cond s = true ->
     exists s', body s = Ok s' /\ Inv s' /\ (mu s' < mu s)%nat) ->
  forall fuel s, Inv s -> (mu s < fuel)%nat ->
  exists s', while fuel cond body s = Ok s' /\ Inv s' /\ cond s' = false.
Proof.
  intros Hstep fuel. induction fuel as [|fuel IH]; intros s Hs Hmu; [lia|].
  cbn [while]. destruct (cond s) eqn:Hc.
  - destruct (Hstep s Hs Hc) as [s' [Hb [Hs' Hlt]]].
    rewrite Hb. cbn [bind]. apply IH; [exact Hs'|lia].
  - exists s. auto.
Qed.

(** A loop whose body keeps an invariant under which the condition holds
    never returns: whatever the fuel, it is used up. *)
Lemma while_diverges {S : Type} (cond : S -> bool) (body : S -> res S)
    (Inv : S -> Prop) :
  (forall s, Inv s -> cond s = true /\ exists s', body s = Ok s' /\ Inv s') ->
  forall fuel s, Inv s -> while fuel cond body s = OutOfFuel.
Proof.
  intros Hstep fuel. induction fuel as [|fuel IH]; intros s Hs; [reflexivity|].
  cbn [while]. destruct (Hstep s Hs) as [-> [s' [-> Hs']]].
  cbn [bind]. apply IH. exact Hs'.
Qed.

(** ** Slices and reads *)

Lemma length_slice (s : bytes) (i n : Z) :
  0 <= i -> 0 <= n -> i + n <= Z.of_nat (length s) ->
  Z.of_nat (length (slice s i n)) = n.
Proof.
  intros Hi Hn Hle. unfold slice.
  rewrite length_firstn, length_skipn. lia.
Qed.

Lemma firstn_then_firstn {A : Type} (a n : nat) : forall s : list A,
  firstn a s ++ firstn n (skipn a s) = firstn (a + n) s.
Proof.
  induction a as [|a IH]; intros s; [reflexivity|].
  destruct s as [|x s]; cbn [firstn skipn Nat.add app].
  - now rewrite firstn_nil.
  - f_equal. apply IH.
Qed.

Lemma firstn_slice (s : bytes) (i n : Z) :
  0 <= i -> 0 <= n ->
  firstn (Z.to_nat i) s ++ slice s i n = firstn (Z.to_nat (i + n)) s.
Proof.
  intros Hi Hn. unfold slice.
  rewrite Z2Nat.inj_add by lia. apply firstn_then_firstn.
Qed.

Lemma slice_app (s : bytes) (i n1 n2 : Z) :
  0 <= i -> 0 <= n1 -> 0 <= n2 ->
  slice s i n1 ++ slice s (i + n1) n2 = slice s i (n1 + n2).
Proof.
  intros Hi H1 H2. unfold slice.
  rewrite !Z2Nat.inj_add by lia.
  rewrite (Nat.add_comm (Z.to_nat i)), <- skipn_skipn.
  apply firstn_then_firstn.
Qed.

Lemma slice_slice (s : bytes) (o i n len : Z) :
  0 <= o -> 0 <= i -> 0 <= n -> i + n <= len ->
  slice (slice s o len) i n = slice s (o + i) n.
Proof.
  intros Ho Hi Hn Hle. unfold slice.
  rewrite skipn_firstn_comm, firstn_firstn, skipn_skipn.
  rewrite Nat.min_l by lia. f_equal. f_equal. lia.
Qed.

Lemma slice_0 (s : bytes) (n : Z) : slice s 0 n = firstn (Z.to_nat n) s.
Proof. reflexivity. Qed.

Lemma slice_nil (s : bytes) (i : Z) : slice s i 0 = [].
Proof. reflexivity. Qed.

Lemma file_read_inside (f : File.t) (n : Z) :
  File.closed f = false -> 0 <= n ->
  File.read f n
  = Ok (slice (File.content f) (File.pos f) n,
        File.set_pos f
          (File.pos f
           + Z.of_nat (length (slice (File.content f) (File.pos f) n)))).
Proof.
  intros Hc Hn. unfold File.read. rewrite Hc.
  destruct (Z.ltb_spec n 0); [lia|reflexivity].
Qed.

Lemma set_pos_same (f : File.t) : File.set_pos f (File.pos f) = f.
Proof. destruct f. reflexivity. Qed.

Lemma set_pos_set_pos (f : File.t) (a c : Z) :
  File.set_pos (File.set_pos f a) c = File.set_pos f c.
Proof. reflexivity. Qed.

Lemma closed_set_pos (f : File.t) (a : Z) :
  File.closed (File.set_pos f a) = File.closed f.
Proof. reflexivity. Qed.

Lemma content_set_pos (f : File.t) (a : Z) :
  File.content (File.set_pos f a) = File.content f.
Proof. reflexivity. Qed.

Lemma pos_set_pos (f : File.t) (a : Z) : File.pos (File.set_pos f a) = a.
Proof. reflexivity. Qed.

Lemma size_set_pos (f : File.t) (a : Z) :
  File.size (File.set_pos f a) = File.size f.
Proof. reflexivity. Qed.

Ltac file_simpl :=
  repeat (rewrite ?set_pos_set_pos, ?closed_set_pos, ?content_set_pos,
            ?pos_set_pos, ?size_set_pos in *).

(** ** hash1 *)

(** The loop of [hash1], started at offset 0 with [end_] bytes to go,
    feeds the hash the first [end_] bytes and stops there. *)
Lemma hash1_loop (f : File.t) (end_ : Z) (fuel : nat) :
  File.closed f = false ->
  0 <= end_ <= File.size f ->
  (Z.to_nat end_ < fuel)%nat ->
  while fuel
    (fun '(_, rlen, _) => 0 <? rlen)
    (fun '(hash1, rlen, file) =>
       '(data, file) <- File.read file (Z.min CHUNK_SIZE rlen) ;;
       pos <- File.tell file ;;
       Ok (update hash1 data, end_ - pos, file))
    (sha1_new, end_, File.set_pos f 0)
  = Ok (firstn (Z.to_nat end_) (File.content f), 0, File.set_pos f end_).
Proof.
  intros Hc Hend Hfuel.
  set (Inv := fun s : hashobj * Z * File.t =>
    let '(h, rlen, file) := s in
    exists p, 0 <= p <= end_ /\ rlen = end_ - p /\
              file = File.set_pos f p /\
              h = firstn (Z.to_nat p) (File.content f)).
  set (mu := fun s : hashobj * Z * File.t =>
    let '(_, rlen, _) := s in Z.to_nat rlen).
  match goal with |- while _ ?c ?bd _ = _ => set (cond := c); set (body := bd) end.
  assert (Hstep : forall s, Inv s -> cond s = true ->
            exists s', body s = Ok s' /\ Inv s' /\ (mu s' < mu s)%nat).
  { intros [[h rlen] file] [p [Hp [Hr [Hf Hh]]]] Hcond.
    apply Z.ltb_lt in Hcond. subst file rlen h.
    unfold body, CHUNK_SIZE in *.
    rewrite file_read_inside by (file_simpl; auto; lia).
    file_simpl. cbn [bind].
    unfold File.size in Hend.
    rewrite length_slice by lia.
    unfold File.tell. file_simpl. rewrite Hc. cbn [bind].
    eexists. split; [reflexivity|]. split.
    - exists (p + Z.min 4096 (end_ - p)).
      repeat split; try lia.
      unfold update. rewrite firstn_slice by lia. reflexivity.
    - cbn. lia. }
  destruct (while_terminates cond body Inv mu Hstep fuel
              (sha1_new, end_, File.set_pos f 0))
    as [[[h rlen] file] [Hw [HI Hcond]]].
  { exists 0. split; [lia|]. split; [lia|]. split; reflexivity. }
  { exact Hfuel. }
  rewrite Hw. destruct HI as [p [Hp [Hr [Hf Hh]]]].
  apply Z.ltb_ge in Hcond.
  assert (p = end_) by lia. subst p. subst. repeat f_equal. lia.
Qed.

(** [hash1] on an open file of at least 21 bytes: the hash is fed the
    bytes in front of the last 21, and the file object comes back as it
    was. *)
Lemma hash1_returns (f : File.t) (fuel : nat) :
  File.closed f = false ->
  0 <= File.pos f ->
  21 <= File.size f ->
  (Z.to_nat (File.size f - 21) < fuel)%nat ->
  PboFile.hash1 fuel (Some f)
  = Ok (firstn (Z.to_nat (File.size f - 21)) (File.content f), Some f).
Proof.
  intros Hc Hpos Hsize Hfuel.
  unfold PboFile.hash1, File.tell. rewrite Hc. cbn [bind].
  unfold File.seek at 1. rewrite Hc.
  change (2 =? 0) with false. change (2 =? 1) with false.
  change (2 =? 2) with true. cbv iota.
  replace (File.size f + -21) with (File.size f - 21) by lia.
  destruct (Z.ltb_spec (File.size f - 21) 0); [lia|].
  cbn [bind]. file_simpl. rewrite Hc. cbn [bind].
  unfold File.seek at 1. file_simpl. rewrite Hc.
  change (0 =? 0) with true. cbv iota. change (0 <? 0) with false. cbv iota.
  cbn [bind].
  rewrite hash1_loop
    by (file_simpl; first [exact Hc | exact Hfuel | lia]).
  cbn [bind]. unfold File.seek. file_simpl. rewrite Hc.
  change (0 =? 0) with true. cbv iota.
  destruct (Z.ltb_spec (File.pos f) 0); [lia|].
  cbn [bind]. file_simpl. rewrite set_pos_same. reflexivity.
Qed.

(** C10: [hash1] leaves the file object it reads as it found it, so
    [tell()] answers after the call what it answered before, although the
    hash was fed every byte from offset 0 up to the last 21. *)
Theorem hash1_restores_position (f : File.t) (fuel : nat) :
  File.closed f = false ->
  0 <= File.pos f ->
  21 <= File.size f ->
  (Z.to_nat (File.size f - 21) < fuel)%nat ->
  exists h f',
    PboFile.hash1 fuel (Some f) = Ok (h, Some f') /\
    File.tell f' = File.tell f /\
    f' = f /\
    h = update sha1_new (slice (File.content f) 0 (File.size f - 21)).
Proof.
  intros Hc Hpos Hsize Hfuel.
  exists (firstn (Z.to_nat (File.size f - 21)) (File.content f)), f.
  split; [|auto]. now apply hash1_returns.
Qed.

Lemma hash1_restores_position_witness :
  exists h f',
    PboFile.hash1 5000 (Some (File.mk (repeat Byte.x41 5000) 17 false 0))
    = Ok (h, Some f') /\
    File.tell f' = File.tell (File.mk (repeat Byte.x41 5000) 17 false 0) /\
    f' = File.mk (repeat Byte.x41 5000) 17 false 0 /\
    h = update sha1_new (slice (repeat Byte.x41 5000) 0 (5000 - 21)).
Proof.
  apply (hash1_restores_position
           (File.mk (repeat Byte.x41 5000) 17 false 0) 5000).
  - reflexivity.
  - cbn. lia.
  - vm_compute. discriminate.
  - vm_compute. lia.
Defined.

(** ** The order on byte strings and [sorted] *)

Lemma byte_eqb_eq (x y : byte) : byte_eqb x y = true <-> x = y.
Proof.
  unfold byte_eqb. split.
  - apply Stdlib.Strings.Byte.byte_dec_bl.
  - apply Stdlib.Strings.Byte.byte_dec_lb.
Qed.

Lemma bytes_eqb_eq (x y : bytes) : bytes_eqb x y = true <-> x = y.
Proof.
  revert y. induction x as [|a x IH]; intros [|c y]; cbn [bytes_eqb];
    try (split; discriminate); [tauto|].
  rewrite andb_true_iff, IH, byte_eqb_eq. split.
  - intros [-> ->]. reflexivity.
  - intros E. injection E as -> ->. auto.
Qed.

Lemma bytes_eqb_refl (x : bytes) : bytes_eqb x x = true.
Proof. now apply bytes_eqb_eq. Qed.

Lemma bytes_eqb_neq (x y : bytes) : bytes_eqb x y = false <-> x <> y.
Proof.
  rewrite <- bytes_eqb_eq. destruct (bytes_eqb x y); split; congruence.
Qed.

Lemma bytes_ltb_irrefl (x : bytes) : bytes_ltb x x = false.
Proof.
  induction x as [|a x IH]; [reflexivity|].
  cbn [bytes_ltb]. rewrite Z.ltb_irrefl. exact IH.
Qed.

Lemma bytes_ltb_trans (x y z : bytes) :
  bytes_ltb x y = true -> bytes_ltb y z = true -> bytes_ltb x z = true.
Proof.
  revert y z. induction x as [|a x IH]; intros [|c y] [|d z];
    cbn [bytes_ltb]; try congruence.
  destruct (Z.ltb_spec (byte.unsigned a) (byte.unsigned c)),
           (Z.ltb_spec (byte.unsigned c) (byte.unsigned a)),
           (Z.ltb_spec (byte.unsigned c) (byte.unsigned d)),
           (Z.ltb_spec (byte.unsigned d) (byte.unsigned c)),
           (Z.ltb_spec (byte.unsigned a) (byte.unsigned d)),
           (Z.ltb_spec (byte.unsigned d) (byte.unsigned a));
    try lia; try congruence.
  apply IH.
Qed.

(** The order is total: of two different byte strings one is below the
    other. *)
Lemma bytes_ltb_total (x y : bytes) :
  bytes_ltb x y = false -> bytes_ltb y x = false -> x = y.
Proof.
  revert y. induction x as [|a x IH]; intros [|c y]; cbn [bytes_ltb];
    try congruence.
  destruct (Z.ltb_spec (byte.unsigned a) (byte.unsigned c)),
           (Z.ltb_spec (byte.unsigned c) (byte.unsigned a));
    try lia; try congruence.
  intros H1 H2. f_equal; [|now apply IH].
  apply byte.unsigned_inj. lia.
Qed.

Lemma bytes_ltb_asym (x y : bytes) :
  bytes_ltb x y = true -> bytes_ltb y x = false.
Proof.
  intros H. destruct (bytes_ltb y x) eqn:E; [|reflexivity].
  pose proof (bytes_ltb_trans _ _ _ H E) as C.
  rewrite bytes_ltb_irrefl in C. discriminate.
Qed.

Lemma bytes_leb_refl (x : bytes) : bytes_leb x x = true.
Proof. unfold bytes_leb. now rewrite bytes_ltb_irrefl. Qed.

Lemma bytes_leb_trans (x y z : bytes) :
  bytes_leb x y = true -> bytes_leb y z = true -> bytes_leb x z = true.
Proof.
  unfold bytes_leb. rewrite !negb_true_iff. intros Hyx Hzy.
  destruct (bytes_ltb z x) eqn:Hzx; [|reflexivity].
  destruct (bytes_ltb x y) eqn:Hxy.
  - rewrite (bytes_ltb_trans _ _ _ Hzx Hxy) in Hzy. discriminate.
  - rewrite (bytes_ltb_total _ _ Hxy Hyx) in Hzx. congruence.
Qed.

Lemma bytes_leb_total (x y : bytes) :
  bytes_leb x y = false -> bytes_leb y x = true.
Proof.
  unfold bytes_leb. rewrite negb_false_iff, negb_true_iff.
  apply bytes_ltb_asym.
Qed.

Lemma insert_sorted_perm {A : Type} (key : A -> bytes) (x : A) (l : list A) :
  Permutation (insert_sorted key x l) (x :: l).
Proof.
  induction l as [|y l IH]; cbn [insert_sorted]; [reflexivity|].
  destruct (bytes_leb (key x) (key y)); [reflexivity|].
  apply perm_trans with (y :: x :: l); [now apply perm_skip|apply perm_swap].
Qed.

Lemma sorted_perm {A : Type} (key : A -> bytes) (l : list A) :
  Permutation (sorted key l) l.
Proof.
  induction l as [|x l IH]; [reflexivity|].
  cbn [sorted fold_right]. fold (sorted key l).
  apply perm_trans with (x :: sorted key l);
    [apply insert_sorted_perm|now apply perm_skip].
Qed.

Lemma insert_sorted_sorted {A : Type} (key : A -> bytes) (x : A) (l : list A) :
  StronglySorted (key_le key) l ->
  StronglySorted (key_le key) (insert_sorted key x l).
Proof.
  induction 1 as [|y l Hl IH Hy]; cbn [insert_sorted].
  - repeat constructor.
  - destruct (bytes_leb (key x) (key y)) eqn:E.
    + constructor; [constructor; assumption|].
      constructor; [exact E|].
      eapply Forall_impl; [|exact Hy]. intros z Hz.
      unfold key_le in *. eapply bytes_leb_trans; eassumption.
    + constructor; [exact IH|].
      apply (Permutation_Forall (Permutation_sym (insert_sorted_perm key x l))).
      constructor; [|exact Hy]. apply bytes_leb_total. exact E.
Qed.

Lemma sorted_sorted {A : Type} (key : A -> bytes) (l : list A) :
  StronglySorted (key_le key) (sorted key l).
Proof.
  induction l as [|x l IH]; [constructor|].
  cbn [sorted fold_right]. apply insert_sorted_sorted. exact IH.
Qed.

(** Sorting a list whose keys already ascend leaves it as it is. *)
Lemma sorted_id {A : Type} (key : A -> bytes) (l : list A) :
  StronglySorted (key_le key) l -> sorted key l = l.
Proof.
  induction 1 as [|x l Hl IH Hx]; [reflexivity|].
  cbn [sorted fold_right]. fold (sorted key l). rewrite IH.
  destruct l as [|y l]; [reflexivity|].
  cbn [insert_sorted]. inversion Hx as [|? ? Hxy _]; subst.
  unfold key_le in Hxy. now rewrite Hxy.
Qed.

(** ** namehash *)

Lemma readable_data_size (i : PboInfo.t) :
  readable i -> exists sz, PboInfo.get_data_size i = Ok sz.
Proof.
  unfold readable, PboInfo.get_data_size, File.fstat_size.
  destruct (PboInfo.fp i) as [f|]; [intros ->|]; eexists; reflexivity.
Qed.

Lemma namehash_loop (l : list PboInfo.t) : forall h0,
  Forall readable l ->
  for_each l
    (fun info namehash =>
       c <- PboInfo.check_name_hash info ;;
       Ok (if c then update namehash (lower (PboInfo.filename info))
           else namehash))
    h0
  = Ok (h0 ++ concat (map lower_name (filter positive_size l))).
Proof.
  induction l as [|i l IH]; intros h0 Hl.
  - cbn. now rewrite app_nil_r.
  - inversion Hl as [|? ? Hi Hl']; subst.
    destruct (readable_data_size i Hi) as [sz Hsz].
    cbn [for_each filter]. unfold PboInfo.check_name_hash, positive_size.
    rewrite Hsz. cbn [bind]. rewrite IH by exact Hl'.
    destruct (0 <? sz); [|reflexivity].
    cbn [map concat]. unfold update, lower_name. now rewrite <- app_assoc.
Qed.

Lemma filter_sorted {A : Type} (R : A -> A -> Prop) (f : A -> bool)
    (l : list A) :
  StronglySorted R l -> StronglySorted R (filter f l).
Proof.
  induction 1 as [|x l Hl IH Hx]; cbn [filter]; [constructor|].
  destruct (f x); [|exact IH]. constructor; [exact IH|].
  apply Forall_forall. intros y Hy. apply filter_In in Hy.
  rewrite Forall_forall in Hx. now apply Hx.
Qed.

Lemma map_sorted {A : Type} (key : A -> bytes) (l : list A) :
  StronglySorted (key_le key) l -> StronglySorted bytes_le (map key l).
Proof.
  induction 1 as [|x l Hl IH Hx]; cbn [map]; constructor; [exact IH|].
  apply Forall_map. exact Hx.
Qed.

Lemma filter_perm {A : Type} (f : A -> bool) (l l' : list A) :
  Permutation l l' -> Permutation (filter f l) (filter f l').
Proof.
  induction 1 as [|x l l' _ IH|x y l|l l' l'' _ IH1 _ IH2]; cbn [filter].
  - constructor.
  - destruct (f x); [now constructor|exact IH].
  - destruct (f x), (f y); try reflexivity. apply perm_swap.
  - now apply perm_trans with (filter f l').
Qed.

(** C4: the name hash is the SHA-1 of the concatenated lowercased file
    names (nothing between them, nothing in front) of exactly the members
    with a positive data size, in ascending order of the lowercased name;
    with no members it is the SHA-1 of the empty string. *)
Theorem namehash_spec (p : PboFile.t) :
  Forall readable (PboFile.infolist p) ->
  exists (h : hashobj) (names : list bytes),
    PboFile._namehash p = Ok h /\
    digest h = SHA1.sha1 (concat names) /\
    Permutation names
      (map lower_name (filter positive_size (PboFile.infolist p))) /\
    StronglySorted bytes_le names /\
    (PboFile.infolist p = [] -> digest h = SHA1.sha1 []).
Proof.
  intros Hr.
  set (l := sorted lower_name (PboFile.infolist p)).
  exists (concat (map lower_name (filter positive_size l))),
         (map lower_name (filter positive_size l)).
  split; [|split; [reflexivity|split; [|split]]].
  - unfold PboFile._namehash. fold lower_name. fold l.
    rewrite namehash_loop; [reflexivity|].
    apply (Permutation_Forall (Permutation_sym (sorted_perm _ _))). exact Hr.
  - apply Permutation_map, filter_perm, sorted_perm.
  - apply map_sorted, filter_sorted, sorted_sorted.
  - unfold l. intros ->. reflexivity.
Qed.

Lemma namehash_spec_witness :
  exists (h : hashobj) (names : list bytes),
    PboFile._namehash example_pbo = Ok h /\
    digest h = SHA1.sha1 (concat names) /\
    Permutation names
      (map lower_name (filter positive_size (PboFile.infolist example_pbo))) /\
    StronglySorted bytes_le names /\
    (PboFile.infolist example_pbo = [] -> digest h = SHA1.sha1 []).
Proof.
  apply (namehash_spec example_pbo).
  repeat constructor.
Defined.

(** ** Reading a member through its view *)

(** A read through the view of a member stored in [bk] returns the next
    bytes of the member, at most [n] of them, and leaves the backing file
    behind the bytes read. *)
Lemma extfile_read (bk : File.t) (x : PboExtFile.t) (n : Z) :
  File.closed bk = false ->
  archived_in bk (PboExtFile.info x) ->
  PboInfo.data_offset (PboExtFile.info x) <= PboExtFile.pos x
    <= PboInfo.data_offset (PboExtFile.info x)
       + PboInfo.data_size (PboExtFile.info x) ->
  0 <= n ->
  let m := Z.min n (PboInfo.data_offset (PboExtFile.info x)
                    + PboInfo.data_size (PboExtFile.info x)
                    - PboExtFile.pos x) in
  PboExtFile.read (Some bk) x n
  = Ok (slice (File.content bk) (PboExtFile.pos x) m,
        Some (File.set_pos bk (PboExtFile.pos x + m)),
        PboExtFile.mk (PboExtFile.info x) (PboExtFile.pos x + m)).
Proof.
  intros Hc (Hfp & Hoff & Hsz & Hin) Hpos Hn m.
  unfold PboExtFile.read, File.seek. rewrite Hc.
  change (0 =? 0) with true. cbv iota.
  destruct (Z.ltb_spec (PboExtFile.pos x) 0); [lia|]. cbn [bind].
  destruct (Z.ltb_spec (-1) n); [|lia].
  fold m. unfold File.size in Hin.
  destruct (Z.ltb_spec 0 m) as [Hm|Hm].
  - rewrite file_read_inside by (file_simpl; auto; lia).
    file_simpl. cbn [bind]. rewrite length_slice by lia.
    unfold File.tell. file_simpl. rewrite Hc. reflexivity.
  - assert (m = 0) by lia.
    cbn [bind]. unfold File.tell. file_simpl. rewrite Hc. cbn [bind].
    replace m with 0 by lia. rewrite slice_nil, Z.add_0_r. reflexivity.
Qed.

(** The inner loop of [_filehash] on a member stored in [bk] feeds the
    hash the whole member. *)
Lemma filehash_read_loop (bk : File.t) (info : PboInfo.t) (fuel : nat)
    (h0 : hashobj) (q : Z) :
  File.closed bk = false ->
  archived_in bk info ->
  (Z.to_nat (PboInfo.data_size info) < fuel)%nat ->
  exists q',
    while fuel
      (fun '(_, rlen, _, _) => 0 <? rlen)
      (fun '(filehash, rlen, fp, file) =>
         '(data, fp, file) <- member_read fp file (Z.min CHUNK_SIZE rlen) ;;
         pos <- member_tell file ;;
         Ok (update filehash data, PboInfo.data_size info - pos, fp, file))
      (h0, PboInfo.data_size info, Some (File.set_pos bk q),
       PboFile.open info)
    = Ok (h0 ++ payload bk info, 0, Some (File.set_pos bk q'),
          Archived (PboExtFile.mk info
                      (PboInfo.data_offset info + PboInfo.data_size info))).
Proof.
  intros Hc Harch Hfuel. pose proof Harch as (Hfp & Hoff & Hsz & Hin).
  set (off := PboInfo.data_offset info) in *.
  set (size := PboInfo.data_size info) in *.
  set (Inv := fun s : hashobj * Z * option File.t * member =>
    let '(h, rlen, fp, file) := s in
    exists k q', 0 <= k <= size /\ rlen = size - k /\
      fp = Some (File.set_pos bk q') /\
      file = Archived (PboExtFile.mk info (off + k)) /\
      h = h0 ++ slice (File.content bk) off k).
  set (mu := fun s : hashobj * Z * option File.t * member =>
    let '(_, rlen, _, _) := s in Z.to_nat rlen).
  match goal with |- exists _, while _ ?c ?bd _ = _ =>
    set (cond := c); set (body := bd) end.
  assert (Hstep : forall s, Inv s -> cond s = true ->
            exists s', body s = Ok s' /\ Inv s' /\ (mu s' < mu s)%nat).
  { intros [[[h rlen] fp] file] (k & q' & Hk & Hr & Hf & Hx & Hh) Hcond.
    apply Z.ltb_lt in Hcond. subst fp file rlen h.
    unfold body, member_read, CHUNK_SIZE.
    rewrite extfile_read; cbn [PboExtFile.info PboExtFile.pos];
      fold off size; file_simpl; auto; try lia.
    cbn [bind member_tell]. unfold PboExtFile.tell.
    cbn [PboExtFile.info PboExtFile.pos]. fold off.
    replace (off + size - (off + k)) with (size - k) by lia.
    set (m := Z.min (Z.min 4096 (size - k)) (size - k)).
    eexists. split; [reflexivity|]. split.
    - exists (k + m), (off + k + m). unfold m.
      split; [lia|]. split; [lia|]. split; [reflexivity|].
      split; [do 2 f_equal; lia|].
      unfold update. rewrite <- app_assoc. f_equal.
      apply slice_app; lia.
    - cbn. unfold m. lia. }
  destruct (while_terminates cond body Inv mu Hstep fuel
              (h0, size, Some (File.set_pos bk q), PboFile.open info))
    as [[[[h rlen] fp] file] [Hw [HI Hcond]]].
  { exists 0, q. split; [lia|]. split; [lia|]. split; [reflexivity|].
    split.
    - unfold PboFile.open. rewrite Hfp. unfold PboExtFile.init.
      fold off. now rewrite Z.add_0_r.
    - rewrite slice_nil. now rewrite app_nil_r. }
  { exact Hfuel. }
  destruct HI as (k & q' & Hk & Hr & Hf & Hx & Hh).
  apply Z.ltb_ge in Hcond. assert (k = size) by lia. subst k.
  exists q'. rewrite Hw. subst. unfold payload. fold off size.
  repeat f_equal. lia.
Qed.

(** ** filehash *)

Lemma check_file_hash_selected (i : PboInfo.t) (version : Z) :
  version = 2 \/ version = 3 ->
  PboInfo.fp i = None ->
  PboInfo.check_file_hash i version = Ok (selected version i).
Proof.
  intros Hv Hfp.
  unfold PboInfo.check_file_hash, selected, positive_size,
    PboInfo.get_data_size, lower_name.
  rewrite Hfp. destruct Hv as [-> | ->]; reflexivity.
Qed.

Lemma filehash_member_archived (bk : File.t) (info : PboInfo.t)
    (fuel : nat) (version : Z) (h0 : hashobj) (nothing : bool) (q : Z) :
  version = 2 \/ version = 3 ->
  File.closed bk = false ->
  archived_in bk info ->
  (Z.to_nat (File.size bk) < fuel)%nat ->
  exists q',
    PboFile.filehash_member fuel version info
      (h0, nothing, Some (File.set_pos bk q))
    = Ok (if selected version info then h0 ++ payload bk info else h0,
          nothing && negb (selected version info),
          Some (File.set_pos bk q'), info).
Proof.
  intros Hv Hc Harch Hfuel. pose proof Harch as (Hfp & Hoff & Hsz & Hin).
  unfold PboFile.filehash_member.
  rewrite check_file_hash_selected by assumption. cbn [bind].
  destruct (selected version info).
  - destruct (filehash_read_loop bk info fuel h0 q Hc Harch ltac:(lia))
      as [q' ->].
    exists q'. cbn [bind member_exit]. now rewrite andb_false_r.
  - exists q. now rewrite andb_true_r.
Qed.

Lemma filehash_loop_archived (bk : File.t) (fuel : nat) (version : Z)
    (d : list (bytes * PboInfo.t)) : forall h0 nothing q,
  version = 2 \/ version = 3 ->
  File.closed bk = false ->
  Forall (archived_in bk) (map snd d) ->
  (Z.to_nat (File.size bk) < fuel)%nat ->
  exists q',
    PboFile.filehash_loop fuel version d
      (h0, nothing, Some (File.set_pos bk q))
    = Ok (h0 ++ concat (map (payload bk)
                          (filter (selected version) (map snd d))),
          nothing && forallb (fun i => negb (selected version i)) (map snd d),
          Some (File.set_pos bk q'), d).
Proof.
  induction d as [|[k info] d IH]; intros h0 nothing q Hv Hc Hall Hfuel.
  - exists q. cbn. now rewrite app_nil_r, andb_true_r.
  - cbn [map snd] in Hall. inversion Hall as [|? ? Hi Hd]; subst.
    cbn [PboFile.filehash_loop].
    destruct (filehash_member_archived bk info fuel version h0 nothing q
                Hv Hc Hi Hfuel) as [q1 ->].
    cbn [bind map snd filter forallb].
    destruct (selected version info); cbn [negb map concat].
    + destruct (IH (h0 ++ payload bk info) (nothing && false) q1
                  Hv Hc Hd Hfuel) as [q2 ->].
      exists q2. cbn [bind]. now rewrite <- app_assoc, !andb_false_r.
    + destruct (IH h0 (nothing && true) q1 Hv Hc Hd Hfuel) as [q2 ->].
      exists q2. cbn [bind]. now rewrite andb_true_r.
Qed.

Lemma forallb_negb_filter {A : Type} (f : A -> bool) (l : list A) :
  forallb (fun x => negb (f x)) l = true <-> filter f l = [].
Proof.
  induction l as [|x l IH]; cbn [forallb filter]; [tauto|].
  destruct (f x); cbn [negb andb]; [split; discriminate|exact IH].
Qed.

(** For an archive read from a file (every member stored in the backing
    file [bk]) and version 2 or 3, [_filehash] returns, and the hash was
    fed the payloads of exactly the selected members, in stored order, or
    the sentinel of the version when no member is selected. *)
Theorem filehash_archived (fuel : nat) (p : PboFile.t) (bk : File.t)
    (version : Z) :
  version = 2 \/ version = 3 ->
  PboFile.fp p = Some bk ->
  File.closed bk = false ->
  Forall (archived_in bk) (PboFile.infolist p) ->
  (Z.to_nat (File.size bk) < fuel)%nat ->
  let sel := filter (selected version) (PboFile.infolist p) in
  exists q,
    PboFile._filehash fuel p version
    = Ok (match sel with
          | [] => sentinel version
          | _ => concat (map (payload bk) sel)
          end,
          PboFile.set_state p (PboFile.filedict p)
            (Some (File.set_pos bk q))).
Proof.
  intros Hv Hfp Hc Hall Hfuel sel.
  unfold PboFile._filehash. rewrite Hfp.
  destruct (filehash_loop_archived bk fuel version (PboFile.filedict p)
              sha1_new true (File.pos bk) Hv Hc Hall Hfuel) as [q Hq].
  rewrite set_pos_same in Hq. rewrite Hq.
  exists q. cbn [bind andb]. fold (PboFile.infolist p). fold sel.
  destruct (forallb (fun i => negb (selected version i)) (PboFile.infolist p))
    eqn:E.
  - apply forallb_negb_filter in E. fold sel in E. rewrite E.
    unfold sentinel. destruct Hv as [-> | ->]; reflexivity.
  - destruct sel eqn:Es; [|reflexivity].
    apply forallb_negb_filter in Es. congruence.
Qed.

Lemma filehash_archived_example :
  exists q,
    PboFile._filehash 200 example_pbo 3
    = Ok (b "hint 'hi';",
          PboFile.set_state example_pbo (PboFile.filedict example_pbo)
            (Some (File.set_pos (File.open example_archive) q))).
Proof.
  apply (filehash_archived 200 example_pbo
           (File.mk example_archive 103 false 0) 3).
  - right. reflexivity.
  - reflexivity.
  - reflexivity.
  - repeat constructor; cbn; lia.
  - vm_compute. lia.
Defined.

(** C3 fails on the code for members added with a file object of their
    own: [check_file_hash] selects the member by the size [fstat]
    reports, but the read loop starts from [info.data_size], which is -1
    for such a member, so nothing is fed to the hash, and the sentinel is
    not fed either.  The file hash is then the SHA-1 of the empty string
    instead of the SHA-1 of the member's payload. *)
Lemma filehash_skips_external_member :
  forall fuel, (0 < fuel)%nat ->
  exists p',
    PboFile._filehash fuel scratch_pbo 3 = Ok (sha1_new, p') /\
    map (selected 3) (PboFile.infolist scratch_pbo) = [true] /\
    digest sha1_new <> SHA1.sha1 (b "hint 'hi';") /\
    digest sha1_new <> SHA1.sha1 (sentinel 3).
Proof.
  intros [|fuel] Hf; [lia|].
  eexists. split; [reflexivity|]. split; [reflexivity|].
  split; vm_compute; discriminate.
Qed.

Lemma filehash_skips_external_member_witness :
  exists p',
    PboFile._filehash 1 scratch_pbo 3 = Ok (sha1_new, p') /\
    map (selected 3) (PboFile.infolist scratch_pbo) = [true] /\
    digest sha1_new <> SHA1.sha1 (b "hint 'hi';") /\
    digest sha1_new <> SHA1.sha1 (sentinel 3).
Proof.
  apply (filehash_skips_external_member 1). lia.
Defined.

(** ** hash *)

Lemma update_prefix_part (p : PboFile.t) (h : hashobj) :
  PboFile.update_prefix p h = h ++ prefix_part p.
Proof.
  unfold PboFile.update_prefix, prefix_part, update.
  destruct (odict_get _ _); [reflexivity|now rewrite app_nil_r].
Qed.

Lemma filehash_header_extension (fuel : nat) (p p' : PboFile.t)
    (version : Z) (fh : hashobj) :
  PboFile._filehash fuel p version = Ok (fh, p') ->
  PboFile.header_extension p' = PboFile.header_extension p.
Proof.
  unfold PboFile._filehash. intros Hf.
  destruct (PboFile.filehash_loop _ _ _ _) as [[[[h n] fp'] d]| |];
    cbn [bind] in Hf; try discriminate.
  destruct n; [destruct (version =? 2); [|destruct (version =? 3)]|];
    cbn [bind] in Hf; try discriminate; injection Hf as _ <-; reflexivity.
Qed.

(** C5: whenever the three parts of [hash] return ([hash1] on the file
    hashed, [_namehash], [_filehash]), [hash] returns with
    hash2 = SHA-1(hash1 digest, name hash digest, X) and
    hash3 = SHA-1(file hash digest, name hash digest, X), where X is the
    value of the header extension [prefix] followed by one backslash when
    that key is present and empty otherwise. *)
Theorem hash_formula (fuel : nat) (p : PboFile.t) (file : option File.t)
    (version : Z) (h1 nh fh : hashobj) (f1 : option File.t)
    (p' : PboFile.t) :
  PboFile.hash1 fuel (match file with None => PboFile.fp p | Some _ => file end)
    = Ok (h1, f1) ->
  PboFile._namehash p = Ok nh ->
  PboFile._filehash fuel
    (match file with
     | None => PboFile.set_state p (PboFile.filedict p) f1
     | Some _ => p
     end) version = Ok (fh, p') ->
  exists h2 h3 file',
    PboFile.hash fuel p file version = Ok (h1, h2, h3, p', file') /\
    digest h2 = SHA1.sha1 (digest h1 ++ digest nh ++ prefix_part p) /\
    digest h3 = SHA1.sha1 (digest fh ++ digest nh ++ prefix_part p).
Proof.
  intros H1 Hn Hf.
  assert (Hpre : prefix_part p' = prefix_part p).
  { unfold prefix_part. rewrite (filehash_header_extension _ _ _ _ _ Hf).
    destruct file; reflexivity. }
  unfold PboFile.hash. destruct file as [f|].
  - rewrite H1. cbn [bind]. rewrite Hn. cbn [bind]. rewrite Hf. cbn [bind].
    do 3 eexists. split; [reflexivity|].
    rewrite !update_prefix_part, Hpre. unfold update, sha1_new, digest.
    cbn [app]. rewrite <- !app_assoc. split; reflexivity.
  - rewrite H1. cbn [bind].
    change (PboFile._namehash (PboFile.set_state p (PboFile.filedict p) f1))
      with (PboFile._namehash p).
    rewrite Hn. cbn [bind]. rewrite Hf. cbn [bind].
    do 3 eexists. split; [reflexivity|].
    rewrite !update_prefix_part, Hpre.
    change (prefix_part (PboFile.set_state p (PboFile.filedict p) f1))
      with (prefix_part p).
    unfold update, sha1_new, digest.
    cbn [app]. rewrite <- !app_assoc. split; reflexivity.
Qed.

Lemma hash_formula_witness :
  exists h2 h3 file',
    PboFile.hash 200 example_pbo None 3
    = Ok (slice example_archive 0 117, h2, h3,
          PboFile.set_state example_pbo (PboFile.filedict example_pbo)
            (Some (File.mk example_archive 113 false 0)),
          file') /\
    digest h2
    = SHA1.sha1 (digest (slice example_archive 0 117)
                 ++ digest (b "init.sqfreadme.txt")
                 ++ prefix_part example_pbo) /\
    digest h3
    = SHA1.sha1 (digest (b "hint 'hi';")
                 ++ digest (b "init.sqfreadme.txt")
                 ++ prefix_part example_pbo).
Proof.
  apply (hash_formula 200 example_pbo None 3
           (slice example_archive 0 117) (b "init.sqfreadme.txt")
           (b "hint 'hi';") (Some (File.mk example_archive 103 false 0))).
  - vm_compute. reflexivity.
  - vm_compute. reflexivity.
  - vm_compute. reflexivity.
Defined.

(** ** unpack_asciiz *)

Lemma firstn_1_skipn (l : bytes) (q : nat) :
  firstn 1 (skipn (S q) l) = firstn 1 (skipn 1 (skipn q l)).
Proof. now rewrite skipn_skipn. Qed.

Lemma file_read_1 (f : File.t) (q : Z) (r : bytes) :
  File.closed f = false -> 0 <= q ->
  skipn (Z.to_nat q) (File.content f) = r ->
  File.read (File.set_pos f q) 1
  = Ok (firstn 1 r, File.set_pos f (q + Z.of_nat (length (firstn 1 r)))).
Proof.
  intros Hc Hq Hr.
  rewrite file_read_inside by (file_simpl; auto; lia).
  file_simpl. unfold slice. rewrite Hr. reflexivity.
Qed.

(** The loop of [unpack_asciiz] in front of a string that its NUL
    follows: it returns the string and stops behind the NUL. *)
Lemma asciiz_loop (f : File.t) (rest : bytes) :
  File.closed f = false ->
  forall (s acc : bytes) (fuel : nat) (q : Z),
  0 <= q ->
  skipn (Z.to_nat q) (File.content f) = s ++ NUL :: rest ->
  ~ In NUL s ->
  (length s < fuel)%nat ->
  while fuel
    (fun '(_, byte, _) => negb (bytes_eqb byte [NUL]))
    (fun '(string, byte, file) =>
       '(byte', file') <- File.read file 1 ;;
       Ok (string ++ byte, byte', file'))
    (acc, firstn 1 (s ++ NUL :: rest), File.set_pos f (q + 1))
  = Ok (acc ++ s, [NUL], File.set_pos f (q + Z.of_nat (length s) + 1)).
Proof.
  intros Hc s. induction s as [|c s IH]; intros acc fuel q Hq Hr Hnul Hfuel.
  - destruct fuel as [|fuel]; [cbn in Hfuel; lia|].
    cbn. rewrite app_nil_r. do 3 f_equal. lia.
  - destruct fuel as [|fuel]; [cbn in Hfuel; lia|].
    cbn [while app firstn].
    assert (Hne : bytes_eqb [c] [NUL] = false).
    { apply bytes_eqb_neq. intros E. injection E as ->. apply Hnul. now left. }
    rewrite Hne. cbn [negb].
    assert (Hr' : skipn (Z.to_nat (q + 1)) (File.content f) = s ++ NUL :: rest).
    { replace (Z.to_nat (q + 1)) with (1 + Z.to_nat q)%nat by lia.
      rewrite <- skipn_skipn, Hr. reflexivity. }
    rewrite (file_read_1 f (q + 1) _ Hc ltac:(lia) Hr'). cbn [bind].
    assert (Hl : length (firstn 1 (s ++ NUL :: rest)) = 1%nat)
      by (destruct s; reflexivity).
    rewrite Hl. change (Z.of_nat 1) with 1.
    rewrite (IH (acc ++ [c]) fuel (q + 1)); try assumption; try lia.
    + rewrite <- app_assoc. cbn [length app]. do 3 f_equal. lia.
    + intros Hin. apply Hnul. now right.
    + cbn [length] in Hfuel. lia.
Qed.

Lemma unpack_asciiz_ok (f : File.t) (s rest : bytes) (fuel : nat) :
  File.closed f = false ->
  0 <= File.pos f ->
  skipn (Z.to_nat (File.pos f)) (File.content f) = s ++ NUL :: rest ->
  ~ In NUL s ->
  (length s < fuel)%nat ->
  unpack_asciiz fuel f
  = Ok (s, File.set_pos f (File.pos f + Z.of_nat (length s) + 1)).
Proof.
  intros Hc Hpos Hr Hnul Hfuel. unfold unpack_asciiz.
  rewrite <- (set_pos_same f) at 1.
  rewrite (file_read_1 f (File.pos f) _ Hc Hpos Hr). cbn [bind].
  assert (Hl : length (firstn 1 (s ++ NUL :: rest)) = 1%nat)
    by (destruct s; reflexivity).
  rewrite Hl. change (Z.of_nat 1) with 1.
  rewrite (asciiz_loop f rest Hc s [] fuel (File.pos f)) by assumption.
  reflexivity.
Qed.

(** With no NUL between the position of the file and its end,
    [unpack_asciiz] never returns: at the end of the file [read(1)]
    returns the empty byte string, which is not a NUL either. *)
Lemma unpack_asciiz_diverges (f : File.t) :
  File.closed f = false ->
  0 <= File.pos f ->
  ~ In NUL (skipn (Z.to_nat (File.pos f)) (File.content f)) ->
  forall fuel, unpack_asciiz fuel f = OutOfFuel.
Proof.
  intros Hc Hpos Hnul fuel. unfold unpack_asciiz.
  set (Inv := fun s : bytes * bytes * File.t =>
    let '(_, byte, file) := s in
    byte <> [NUL] /\
    exists q, 0 <= q /\ file = File.set_pos f q /\
              ~ In NUL (skipn (Z.to_nat q) (File.content f))).
  assert (Hread : forall q, 0 <= q ->
            ~ In NUL (skipn (Z.to_nat q) (File.content f)) ->
            exists byte q',
              File.read (File.set_pos f q) 1 = Ok (byte, File.set_pos f q') /\
              Inv ([], byte, File.set_pos f q')).
  { intros q Hq Hn.
    rewrite (file_read_1 f q _ Hc Hq eq_refl).
    do 2 eexists. split; [reflexivity|]. split.
    - intros E. apply Hn.
      destruct (skipn (Z.to_nat q) (File.content f)) as [|c l];
        [discriminate|]. injection E as ->. now left.
    - eexists. split; [|split; [reflexivity|]]; [lia|].
      intros Hin. apply Hn.
      set (k := length (firstn 1 (skipn (Z.to_nat q) (File.content f)))) in *.
      replace (Z.to_nat (q + Z.of_nat k)) with (k + Z.to_nat q)%nat in Hin
        by lia.
      rewrite <- skipn_skipn in Hin.
      rewrite <- (firstn_skipn k (skipn (Z.to_nat q) (File.content f))).
      apply in_or_app. now right. }
  rewrite <- (set_pos_same f) at 1.
  destruct (Hread (File.pos f) Hpos Hnul) as (byte & q' & -> & HI).
  cbn [bind].
  rewrite (while_diverges _ _ Inv); [reflexivity| |exact HI].
  intros [[acc byte1] file1] (Hb & q & Hq & -> & Hn). split.
  - apply negb_true_iff, bytes_eqb_neq. exact Hb.
  - destruct (Hread q Hq Hn) as (byte2 & q2 & -> & HI2).
    cbn [bind]. eexists. split; [reflexivity|exact HI2].
Qed.

(** ** from_file on truncated input *)

(** A stream without any NUL byte (the empty stream is one) makes
    [from_file] loop in its first [unpack_asciiz]. *)
Lemma from_file_hangs_without_nul (data : bytes) :
  ~ In NUL data -> forall fuel, PboFile.from_file fuel (File.open data) = OutOfFuel.
Proof.
  intros Hn fuel. unfold PboFile.from_file.
  rewrite unpack_asciiz_diverges; [reflexivity|reflexivity|cbn; lia|exact Hn].
Qed.

(** C9 fails on the code: on a stream that ends in front of the NUL of a
    file name, [from_file] neither raises nor returns, whatever fuel it
    is given.  [unpack_asciiz] compares what [read(1)] returns with a
    NUL byte only, and at the end of the stream [read(1)] returns the
    empty byte string for ever. *)
Theorem from_file_hangs_on_truncated_name :
  forall fuel,
    PboFile.from_file fuel (File.open truncated_archive) = OutOfFuel.
Proof.
  intros [|fuel]; [reflexivity|].
  unfold PboFile.from_file.
  set (f0 := File.open truncated_archive).
  assert (Hc : File.closed f0 = false) by reflexivity.
  rewrite (unpack_asciiz_ok f0 []
             (skipn 1 truncated_archive) (S fuel) Hc);
    [|cbn; lia|reflexivity|intros []|cbn; lia].
  cbn [bind].
  rewrite file_read_inside by (file_simpl; auto; lia).
  file_simpl. cbn [bind].
  match goal with |- context [unpack_IIIII ?x] =>
    let v := eval vm_compute in (unpack_IIIII x) in
    change (unpack_IIIII x) with v end.
  cbn [bind].
  match goal with |- context [File.set_pos f0 ?e] =>
    let v := eval vm_compute in e in change e with v end.
  rewrite (unpack_asciiz_ok (File.set_pos f0 21) []
             (skipn 22 truncated_archive) (S fuel) Hc);
    [|cbn; lia|reflexivity|intros []|cbn; lia].
  cbn [bind while length Nat.eqb negb]. file_simpl.
  match goal with |- context [File.set_pos f0 ?e] =>
    let v := eval vm_compute in e in change e with v end.
  rewrite unpack_asciiz_diverges; [reflexivity|exact Hc|cbn; lia|].
  vm_compute. intuition discriminate.
Qed.

(** ** Reading a valid archive *)

Lemma odict_set_fresh {V : Type} (d : list (bytes * V)) (k : bytes) (v : V) :
  ~ In k (map fst d) -> odict_set d k v = d ++ [(k, v)].
Proof.
  induction d as [|[k' v'] d IH]; intros Hk; [reflexivity|].
  cbn [odict_set app]. cbn [map fst In] in Hk.
  destruct (bytes_eqb k' k) eqn:E.
  - apply bytes_eqb_eq in E. tauto.
  - rewrite IH by tauto. reflexivity.
Qed.

Lemma skipn_after {A : Type} (l a r : list A) (q : nat) :
  skipn q l = a ++ r -> skipn (q + length a) l = r.
Proof.
  intros H. rewrite Nat.add_comm, <- skipn_skipn, H.
  rewrite skipn_app, Nat.sub_diag, skipn_all. reflexivity.
Qed.

Lemma skipn_nonempty_lt {A : Type} (l : list A) (q : nat) (x : A) (r : list A) :
  skipn q l = x :: r -> (q < length l)%nat.
Proof.
  intros H. destruct (Nat.lt_ge_cases q (length l)) as [|Hge]; [assumption|].
  rewrite skipn_all2 in H by exact Hge. discriminate.
Qed.

Section Reading.

Variable f : File.t.
Hypothesis f_open : File.closed f = false.

Lemma unpack_at (q : Z) (s rest : bytes) (fuel : nat) :
  0 <= q ->
  skipn (Z.to_nat q) (File.content f) = s ++ NUL :: rest ->
  Format.asciiz s ->
  (length s < fuel)%nat ->
  unpack_asciiz fuel (File.set_pos f q)
    = Ok (s, File.set_pos f (q + Z.of_nat (length s) + 1)) /\
  skipn (Z.to_nat (q + Z.of_nat (length s) + 1)) (File.content f) = rest.
Proof.
  intros Hq Hr Hs Hfuel. split.
  - rewrite (unpack_asciiz_ok (File.set_pos f q) s rest fuel);
      file_simpl; auto.
  - replace (Z.to_nat (q + Z.of_nat (length s) + 1))
      with (Z.to_nat q + length (s ++ [NUL]))%nat
      by (rewrite length_app; cbn [length]; lia).
    apply skipn_after. now rewrite <- app_assoc.
Qed.

Lemma read_at (q n : Z) (raw rest : bytes) :
  0 <= q ->
  skipn (Z.to_nat q) (File.content f) = raw ++ rest ->
  Z.of_nat (length raw) = n ->
  File.read (File.set_pos f q) n = Ok (raw, File.set_pos f (q + n)) /\
  skipn (Z.to_nat (q + n)) (File.content f) = rest.
Proof.
  intros Hq Hr Hn. split.
  - rewrite file_read_inside by (file_simpl; auto; lia).
    file_simpl. unfold slice. rewrite Hr.
    replace (Z.to_nat n) with (length raw) by lia.
    rewrite firstn_app, Nat.sub_diag, firstn_all, firstn_O, app_nil_r.
    now rewrite Hn.
  - replace (Z.to_nat (q + n)) with (Z.to_nat q + length raw)%nat by lia.
    now apply skipn_after.
Qed.

Lemma pairs_loop (fuel : nat) (tail : bytes) :
  forall (kvs acc : list (bytes * bytes)) (n : nat) (q : Z),
  0 <= q ->
  skipn (Z.to_nat q) (File.content f) = Format.pairs_rest kvs tail ->
  Forall Format.pair_ok kvs ->
  NoDup (map fst (acc ++ kvs)) ->
  Forall (fun kv => (length (fst kv) < fuel)%nat /\
                    (length (snd kv) < fuel)%nat) kvs ->
  (length kvs < n)%nat ->
  exists q',
    while n
      (fun '(_, s, _) => negb (length s =? 0)%nat)
      (fun '(header_extension, s, fp) =>
         '(v, fp) <- unpack_asciiz fuel fp ;;
         '(s', fp) <- unpack_asciiz fuel fp ;;
         Ok (odict_set header_extension s v, s', fp))
      (acc, Format.next_key kvs, File.set_pos f q)
    = Ok (acc ++ kvs, [], File.set_pos f q') /\
    0 <= q' /\
    skipn (Z.to_nat q') (File.content f) = tail.
Proof.
  induction kvs as [|[k v] kvs IH]; intros acc n q Hq Hr Hok Hnd Hlen Hn.
  - destruct n as [|n]; [cbn in Hn; lia|].
    exists q. cbn. rewrite app_nil_r. auto.
  - destruct n as [|n]; [cbn in Hn; lia|].
    inversion Hok as [|? ? (Hk & Hka & Hva) Hok']; subst.
    inversion Hlen as [|? ? (Hkl & Hvl) Hlen']; subst.
    cbn [fst snd] in *.
    cbn [while Format.next_key fst].
    destruct k as [|c k]; [congruence|]. cbn [length Nat.eqb negb].
    cbn [Format.pairs_rest snd] in Hr.
    destruct (unpack_at q v _ fuel Hq Hr Hva Hvl) as [-> Hr1].
    cbn [bind].
    assert (Hnk : Format.asciiz (Format.next_key kvs) /\
                  (length (Format.next_key kvs) < fuel)%nat).
    { destruct kvs as [|[k' v'] kvs']; cbn [Format.next_key fst].
      - split; [intros []|cbn; lia].
      - inversion Hok' as [|? ? (_ & Hk' & _) _]; subst.
        inversion Hlen' as [|? ? (Hkl' & _) _]; subst. auto. }
    destruct Hnk as [Hnka Hnkl].
    destruct (unpack_at (q + Z.of_nat (length v) + 1) (Format.next_key kvs) _ fuel
                ltac:(lia) Hr1 Hnka Hnkl) as [-> Hr2].
    cbn [bind].
    rewrite odict_set_fresh.
    2:{ rewrite map_app in Hnd. cbn [map fst] in Hnd.
        apply NoDup_remove_2 in Hnd. intros Hin. apply Hnd.
        apply in_or_app. now left. }
    destruct (IH (acc ++ [(c :: k, v)]) n
                (q + Z.of_nat (length v) + 1
                 + Z.of_nat (length (Format.next_key kvs)) + 1)
                ltac:(lia) Hr2 Hok')
      as (q' & Hw & Hq' & Hr');
      [now rewrite <- app_assoc|exact Hlen'|cbn [length] in Hn; lia|].
    exists q'. rewrite Hw, <- app_assoc. auto.
Qed.

End Reading.

Lemma le_combine_u32 (x : Z) :
  Format.is_u32 x -> le_combine (Format.u32 x) = x.
Proof.
  intros Hx. unfold Format.u32. rewrite le_combine_split.
  apply Z.mod_small. exact Hx.
Qed.

Lemma length_u32 (x : Z) : length (Format.u32 x) = 4%nat.
Proof. apply length_le_split. Qed.

Lemma length_record5 (r : Z * Z * Z * Z * Z) :
  length (Format.record5 r) = 20%nat.
Proof.
  destruct r as [[[[x1 x2] x3] x4] x5]. unfold Format.record5.
  rewrite !length_app, !length_u32. reflexivity.
Qed.

Lemma unpack_record5 (r : Z * Z * Z * Z * Z) :
  Format.record_ok r -> unpack_IIIII (Format.record5 r) = Ok r.
Proof.
  destruct r as [[[[x1 x2] x3] x4] x5]. intros (H1 & H2 & H3 & H4 & H5).
  unfold unpack_IIIII. rewrite length_record5. cbn [Nat.eqb].
  assert (E : forall x, Format.is_u32 x -> le_combine (le_split 4 x) = x)
    by exact le_combine_u32.
  unfold Format.record5, Format.u32, slice.
  change (Z.to_nat 0) with 0%nat. change (Z.to_nat 4) with 4%nat.
  change (Z.to_nat 8) with 8%nat. change (Z.to_nat 12) with 12%nat.
  change (Z.to_nat 16) with 16%nat.
  cbv [le_split app skipn firstn] in *.
  rewrite !E by assumption. reflexivity.
Qed.

Lemma pack_record5 (r : Z * Z * Z * Z * Z) :
  Format.record_ok r -> pack_IIIII r = Ok (Format.record5 r).
Proof.
  destruct r as [[[[x1 x2] x3] x4] x5]. intros (H1 & H2 & H3 & H4 & H5).
  assert (Hp : forall x, Format.is_u32 x -> pack_I x = Ok (Format.u32 x)).
  { intros x [Hx0 Hx1]. unfold pack_I.
    destruct (Z.leb_spec 0 x); [|lia]. destruct (Z.ltb_spec x (2 ^ 32)); [|lia].
    reflexivity. }
  unfold pack_IIIII. rewrite !Hp by assumption. reflexivity.
Qed.

Section ReadingIndex.

Variable f : File.t.
Hypothesis f_open : File.closed f = false.

Lemma index_loop (fuel : nat) (tail : bytes) :
  forall (ms : list Format.member) (acc : list (bytes * PboInfo.t))
         (n : nat) (q : Z),
  0 <= q ->
  skipn (Z.to_nat q) (File.content f) = Format.index_rest ms tail ->
  Forall Format.member_ok ms ->
  NoDup (map fst acc ++ map Format.name ms) ->
  Forall (fun m => (length (Format.name m) < fuel)%nat) ms ->
  (length ms < n)%nat ->
  exists q',
    while n
      (fun '(_, s, _) => negb (length s =? 0)%nat)
      (fun '(filedict, s, fp) =>
         '(raw, fp) <- File.read fp 20 ;;
         '(pm, os, rs, ts, ds) <- unpack_IIIII raw ;;
         '(s', fp) <- unpack_asciiz fuel fp ;;
         Ok (odict_set filedict s (PboInfo.init s pm os rs ts ds None), s', fp))
      (acc, Format.next_name ms, File.set_pos f q)
    = Ok (acc ++ map Format.info_of ms, [], File.set_pos f q') /\
    0 <= q' /\
    skipn (Z.to_nat q') (File.content f) = tail.
Proof.
  induction ms as [|m ms IH]; intros acc n q Hq Hr Hok Hnd Hlen Hn.
  - destruct n as [|n]; [cbn in Hn; lia|].
    exists q. cbn. rewrite app_nil_r. auto.
  - destruct n as [|n]; [cbn in Hn; lia|].
    inversion Hok as [|? ? (Hk & Hka & Hrec) Hok']; subst.
    inversion Hlen as [|? ? Hkl Hlen']; subst.
    cbn [while Format.next_name].
    destruct (Format.name m) as [|c k] eqn:Ename; [congruence|].
    cbn [length Nat.eqb negb].
    cbn [Format.index_rest] in Hr.
    destruct (read_at f f_open q 20 _ _ Hq Hr) as [-> Hr1];
      [rewrite length_record5; reflexivity|].
    cbn [bind]. rewrite (unpack_record5 _ Hrec). cbn [bind Format.fields].
    assert (Hnk : Format.asciiz (Format.next_name ms) /\
                  (length (Format.next_name ms) < fuel)%nat).
    { destruct ms as [|m' ms']; cbn [Format.next_name].
      - split; [intros []|cbn; lia].
      - inversion Hok' as [|? ? (_ & Hk' & _) _]; subst.
        inversion Hlen' as [|? ? Hkl' _]; subst. auto. }
    destruct Hnk as [Hnka Hnkl].
    destruct (unpack_at f f_open (q + 20) (Format.next_name ms) _ fuel
                ltac:(lia) Hr1 Hnka Hnkl) as [-> Hr2].
    cbn [bind].
    rewrite odict_set_fresh.
    2:{ cbn [map] in Hnd. rewrite Ename in Hnd.
        apply NoDup_remove_2 in Hnd. intros Hin. apply Hnd.
        apply in_or_app. now left. }
    destruct (IH (acc ++ [Format.info_of m]) n
                (q + 20 + Z.of_nat (length (Format.next_name ms)) + 1)
                ltac:(lia) Hr2 Hok')
      as (q' & Hw & Hq' & Hr');
      [|exact Hlen'|cbn [length] in Hn; lia|].
    + rewrite map_app, <- app_assoc. cbn [map app Format.info_of fst].
      cbn [map] in Hnd. exact Hnd.
    + exists q'. unfold Format.info_of in Hw at 1. rewrite Ename in Hw.
      rewrite Hw, <- app_assoc. auto.
Qed.

End ReadingIndex.

(** The tables of the format, seen from the reader: the next key or
    name, its NUL, and what follows. *)
Lemma pairs_stream (kvs : list (bytes * bytes)) (tail : bytes) :
  concat (map Format.pair_bytes kvs) ++ NUL :: tail
  = Format.next_key kvs ++ NUL :: Format.pairs_rest kvs tail.
Proof.
  induction kvs as [|[k v] kvs IH]; [reflexivity|].
  cbn [map concat Format.next_key Format.pairs_rest fst snd].
  unfold Format.pair_bytes at 1. cbn [fst snd].
  rewrite <- !app_assoc. cbn [app]. rewrite <- IH. reflexivity.
Qed.

Lemma index_stream (ms : list Format.member) (tail : bytes) :
  concat (map Format.index_record ms) ++ NUL :: tail
  = Format.next_name ms ++ NUL :: Format.index_rest ms tail.
Proof.
  induction ms as [|m ms IH]; [reflexivity|].
  cbn [map concat Format.next_name Format.index_rest].
  unfold Format.index_record at 1.
  rewrite <- !app_assoc. cbn [app]. rewrite <- IH. reflexivity.
Qed.

Lemma length_concat_In {A : Type} (l : list (list A)) (x : list A) :
  In x l -> (length x <= length (concat l))%nat.
Proof.
  induction l as [|y l IH]; intros Hin; [destruct Hin|].
  cbn [concat]. rewrite length_app. destruct Hin as [->|Hin]; [lia|].
  specialize (IH Hin). lia.
Qed.

Lemma length_concat_ge {A : Type} (l : list (list A)) :
  Forall (fun x => (1 <= length x)%nat) l -> (length l <= length (concat l))%nat.
Proof.
  induction 1 as [|x l Hx Hl IH]; [reflexivity|].
  cbn [concat length]. rewrite length_app. lia.
Qed.

(** Strictly ascending names are pairwise distinct. *)
Lemma name_lt_NoDup (ms : list Format.member) :
  StronglySorted Format.name_lt ms -> NoDup (map Format.name ms).
Proof.
  induction 1 as [|m ms Hs IH Hm]; cbn [map]; constructor; [|exact IH].
  intros Hin. apply in_map_iff in Hin. destruct Hin as (m' & E & Hin).
  rewrite Forall_forall in Hm. specialize (Hm m' Hin).
  unfold Format.name_lt in Hm. rewrite E, bytes_ltb_irrefl in Hm. discriminate.
Qed.

(** What [from_file] makes of the body of a valid archive, whatever
    follows it where the trailer should be: the leading record, the header
    extension in file order, one member record per index record with its
    offset behind the index, and the backing file left at the first
    payload byte. *)
Theorem from_file_body (a : Format.archive) (trailer : bytes) (fuel : nat) :
  Format.valid a ->
  (length (Format.body a ++ trailer) < fuel)%nat ->
  let f := File.open (Format.body a ++ trailer) in
  exists D,
    PboFile.from_file fuel f
    = Ok (PboFile.mk ([], Format.first_record a) (Format.extension a)
            (PboFile.assign_offsets (map Format.info_of (Format.members a)) D)
            (Some (File.set_pos f D))) /\
    0 <= D /\
    skipn (Z.to_nat D) (Format.body a ++ trailer)
    = concat (map Format.data (Format.members a)) ++ trailer.
Proof.
  intros [Hfirst Hpairs Hkeys Hmembers Horder] Hfuel f.
  set (payloads := concat (map Format.data (Format.members a))).
  set (t3 := repeat NUL 20 ++ payloads ++ trailer).
  set (t2 := Format.next_name (Format.members a)
             ++ NUL :: Format.index_rest (Format.members a) t3).
  set (t1 := Format.next_key (Format.extension a)
             ++ NUL :: Format.pairs_rest (Format.extension a) t2).
  assert (HF : Format.body a ++ trailer
               = [] ++ NUL :: Format.record5 (Format.first_record a) ++ t1).
  { unfold t1, t2, t3, payloads.
    rewrite <- index_stream, <- pairs_stream.
    unfold Format.body, Format.head.
    change (repeat NUL 21) with ([NUL] ++ repeat NUL 20).
    rewrite <- !app_assoc. reflexivity. }
  assert (Hc : File.closed f = false) by reflexivity.
  assert (Hcontent : File.content f = Format.body a ++ trailer) by reflexivity.
  (* bounds on what the loops have to read *)
  assert (Hlen : (length (concat (map Format.pair_bytes (Format.extension a)))
                  + length (concat (map Format.index_record (Format.members a)))
                  <= length (Format.body a ++ trailer))%nat).
  { unfold Format.body, Format.head.
    rewrite !length_app. lia. }
  assert (Hkv : Forall (fun kv => (length (fst kv) < fuel)%nat /\
                                  (length (snd kv) < fuel)%nat)
                  (Format.extension a)).
  { apply Forall_forall. intros kv Hin.
    pose proof (length_concat_In _ _ (in_map Format.pair_bytes _ _ Hin)) as H.
    unfold Format.pair_bytes in H at 1. rewrite !length_app in H.
    cbn [length] in H. lia. }
  assert (Hnm : Forall (fun m => (length (Format.name m) < fuel)%nat)
                  (Format.members a)).
  { apply Forall_forall. intros m Hin.
    pose proof (length_concat_In _ _ (in_map Format.index_record _ _ Hin)) as H.
    unfold Format.index_record in H at 1. rewrite !length_app in H. lia. }
  assert (Hn1 : (length (Format.extension a) < fuel)%nat).
  { pose proof (length_concat_ge (map Format.pair_bytes (Format.extension a))) as H.
    rewrite length_map in H. apply Nat.le_lt_trans with (2 := Hfuel).
    etransitivity; [apply H|lia].
    apply Forall_map, Forall_forall. intros kv _.
    unfold Format.pair_bytes. rewrite !length_app. cbn [length]. lia. }
  assert (Hn2 : (length (Format.members a) < fuel)%nat).
  { pose proof (length_concat_ge (map Format.index_record (Format.members a))) as H.
    rewrite length_map in H. apply Nat.le_lt_trans with (2 := Hfuel).
    etransitivity; [apply H|lia].
    apply Forall_map, Forall_forall. intros m _.
    unfold Format.index_record. rewrite !length_app. cbn [length]. lia. }
  unfold PboFile.from_file.
  (* the leading record *)
  destruct (unpack_at f Hc 0 [] _ fuel ltac:(lia)
              ltac:(rewrite Hcontent; exact HF) ltac:(intros [])
              ltac:(cbn; lia)) as [E0 Hr0].
  rewrite (set_pos_same f : File.set_pos f 0 = f) in E0.
  rewrite E0. cbn [bind length]. change (0 + Z.of_nat 0 + 1) with 1 in *.
  destruct (read_at f Hc 1 20 _ _ ltac:(lia) Hr0) as [-> Hr1];
    [rewrite length_record5; reflexivity|].
  cbn [bind]. rewrite (unpack_record5 _ Hfirst). cbn [bind].
  change (1 + 20) with 21 in *.
  (* the header extension *)
  assert (Hk0 : Format.asciiz (Format.next_key (Format.extension a)) /\
                (length (Format.next_key (Format.extension a)) < fuel)%nat).
  { destruct (Format.extension a) as [|kv kvs]; cbn [Format.next_key].
    - split; [intros []|cbn; lia].
    - inversion Hpairs as [|? ? (_ & Hk' & _) _]; subst.
      inversion Hkv as [|? ? (Hkl' & _) _]; subst. auto. }
  destruct (unpack_at f Hc 21 _ _ fuel ltac:(lia) Hr1 (proj1 Hk0) (proj2 Hk0))
    as [-> Hr2].
  cbn [bind].
  destruct (pairs_loop f Hc fuel t2 (Format.extension a) [] fuel
              (21 + Z.of_nat (length (Format.next_key (Format.extension a))) + 1)
              ltac:(lia) Hr2 Hpairs Hkeys Hkv Hn1) as (q3 & -> & Hq3 & Hr3).
  cbn [bind app].
  (* the index *)
  assert (Hm0 : Format.asciiz (Format.next_name (Format.members a)) /\
                (length (Format.next_name (Format.members a)) < fuel)%nat).
  { destruct (Format.members a) as [|m ms]; cbn [Format.next_name].
    - split; [intros []|cbn; lia].
    - inversion Hmembers as [|? ? (_ & Hk' & _) _]; subst.
      inversion Hnm as [|? ? Hkl' _]; subst. auto. }
  destruct (unpack_at f Hc q3 _ _ fuel Hq3 Hr3 (proj1 Hm0) (proj2 Hm0))
    as [-> Hr4].
  cbn [bind].
  destruct (index_loop f Hc fuel t3 (Format.members a) [] fuel
              (q3 + Z.of_nat (length (Format.next_name (Format.members a))) + 1)
              ltac:(lia) Hr4 Hmembers (name_lt_NoDup _ Horder) Hnm Hn2)
    as (q5 & -> & Hq5 & Hr5).
  cbn [bind app].
  (* the 20 bytes behind the index, and the offsets *)
  destruct (read_at f Hc q5 20 _ _ Hq5 Hr5) as [-> Hr6];
    [rewrite repeat_length; reflexivity|].
  cbn [bind]. unfold File.tell. file_simpl. rewrite Hc. cbn [bind].
  exists (q5 + 20). split; [reflexivity|]. split; [lia|]. exact Hr6.
Qed.

(** ** Writing an archive back *)

(** [_export] copies a member stored in the backing file [bk] whole: the
    chunks it reads until a read comes back empty are the payload. *)
Lemma export_member_archived (bk : File.t) (k : bytes) (info : PboInfo.t)
    (fuel : nat) (h out : bytes) (p : PboFile.t) (q : Z) :
  File.closed bk = false ->
  archived_in bk info ->
  PboFile.fp p = Some (File.set_pos bk q) ->
  (Z.to_nat (PboInfo.data_size info) < fuel)%nat ->
  exists q',
    PboFile.export_member fuel (k, info) (h, out, p)
    = Ok (h ++ payload bk info, out ++ payload bk info,
          PboFile.set_state p (odict_set (PboFile.filedict p) k info)
            (Some (File.set_pos bk q'))).
Proof.
  intros Hc Harch Hfp Hfuel. pose proof Harch as (Hnone & Hoff & Hsz & Hin).
  unfold PboFile.export_member. rewrite Hfp.
  unfold PboFile.open. rewrite Hnone. unfold member_read at 1.
  set (off := PboInfo.data_offset info) in *.
  set (size := PboInfo.data_size info) in *.
  rewrite extfile_read; cbn [PboExtFile.init PboExtFile.info PboExtFile.pos];
    fold off size; file_simpl; auto; try lia; try (unfold CHUNK_SIZE; lia).
  cbn [bind].
  replace (off + size - off) with size by lia.
  set (Inv := fun s : bytes * bytes * bytes * option File.t * member =>
    let '(h', out', data, fp, file) := s in
    exists j q', 0 <= j <= size /\
      h' = h ++ slice (File.content bk) off j /\
      out' = out ++ slice (File.content bk) off j /\
      data = slice (File.content bk) (off + j) (Z.min CHUNK_SIZE (size - j)) /\
      file = Archived (PboExtFile.mk info
                         (off + j + Z.min CHUNK_SIZE (size - j))) /\
      fp = Some (File.set_pos bk q')).
  set (mu := fun s : bytes * bytes * bytes * option File.t * member =>
    let '(h', out', data, fp, file) := s in
    match file with
    | Archived x => Z.to_nat (off + size - PboExtFile.pos x)
                    + length data
    | External _ => O
    end%nat).
  match goal with |- exists _, bind (while _ ?c ?bd ?s0) _ = _ =>
    set (cond := c); set (body := bd); set (start := s0) end.
  assert (Hdata : forall j, 0 <= j <= size ->
            Z.of_nat (length (slice (File.content bk) (off + j)
                                (Z.min CHUNK_SIZE (size - j))))
            = Z.min CHUNK_SIZE (size - j)).
  { intros j Hj. unfold File.size in Hin. apply length_slice;
      unfold CHUNK_SIZE; lia. }
  assert (Hstep : forall s, Inv s -> cond s = true ->
            exists s', body s = Ok s' /\ Inv s' /\ (mu s' < mu s)%nat).
  { intros [[[[h' out'] data] fp] file]
      (j & q' & Hj & Hh & Ho & Hd & Hx & Hf) Hcond.
    apply Nat.ltb_lt in Hcond. subst h' out' fp file.
    pose proof (Hdata j Hj) as Hlen. rewrite <- Hd in Hlen.
    unfold body, member_read.
    rewrite extfile_read; cbn [PboExtFile.info PboExtFile.pos];
      fold off size; file_simpl; auto; try lia;
      try (unfold CHUNK_SIZE in *; lia).
    cbn [bind].
    set (m := Z.min CHUNK_SIZE (size - j)) in *.
    replace (off + size - (off + j + m)) with (size - (j + m)) by lia.
    eexists. split; [reflexivity|]. split.
    - exists (j + m), (off + j + m + Z.min CHUNK_SIZE (size - (j + m))).
      split; [unfold m, CHUNK_SIZE in *; lia|].
      unfold update. rewrite <- !app_assoc, Hd.
      rewrite !slice_app by (unfold m, CHUNK_SIZE; lia).
      split; [reflexivity|]. split; [reflexivity|].
      split; [f_equal; lia|]. split; [do 2 f_equal; lia|reflexivity].
    - cbn [mu PboExtFile.pos].
      pose proof (Hdata (j + m) ltac:(unfold m, CHUNK_SIZE in *; lia)) as Hl2.
      replace (off + (j + m)) with (off + j + m) in Hl2 by lia.
      unfold m, CHUNK_SIZE in *.
      match goal with |- context [length ?x] =>
        match type of Hl2 with context [length x] =>
          generalize dependent (length x) end end.
      intros n2 Hl2. clear - Hl2 Hlen Hcond Hj Hsz Hoff. lia. }
  destruct (while_terminates cond body Inv mu Hstep fuel start)
    as [[[[[h' out'] data] fp] file] [Hw [HI Hcond]]].
  { exists 0, (off + Z.min CHUNK_SIZE size).
    rewrite !slice_nil, !app_nil_r, !Z.add_0_r, Z.sub_0_r.
    split; [lia|]. repeat split; reflexivity. }
  { unfold start, mu. cbn [PboExtFile.pos].
    pose proof (Hdata 0 ltac:(lia)) as Hl.
    rewrite Z.add_0_r, Z.sub_0_r in Hl. unfold CHUNK_SIZE in *. lia. }
  rewrite Hw. cbn [bind].
  destruct HI as (j & q' & Hj & Hh & Ho & Hd & Hx & Hf).
  apply Nat.ltb_ge in Hcond.
  pose proof (Hdata j Hj) as Hlen. rewrite <- Hd in Hlen.
  assert (j = size) by (unfold CHUNK_SIZE in *; lia). subst j.
  exists q'. subst. cbn [member_exit]. reflexivity.
Qed.

Lemma sha1_length (m : bytes) : length (SHA1.sha1 m) = 20%nat.
Proof.
  unfold SHA1.sha1.
  destruct (SHA1.blocks _ _ _) as [[[[h0 h1] h2] h3] h4].
  cbn [flat_map]. rewrite !length_app, !length_rev, !length_le_split.
  reflexivity.
Qed.

(** The trailer [_export] writes is the digest itself: its hexadecimal
    text, read as a number and cut into 20 big-endian bytes. *)
Lemma long16_hexdigest (h : hashobj) :
  long16 (hexdigest h) = Ok (bytes_to_int (SHA1.sha1 h) big).
Proof.
  unfold hexdigest, digest. pose proof (sha1_length h) as Hl.
  apply long16_hex. intros E. rewrite E in Hl. discriminate.
Qed.

Lemma int_to_bytes_digest (h : hashobj) :
  int_to_bytes (bytes_to_int (SHA1.sha1 h) big) 20 big = Ok (SHA1.sha1 h).
Proof.
  change 20 with (Z.of_nat 20). rewrite <- (sha1_length h).
  apply int_to_bytes_big.
Qed.

Lemma export_extension_loop (kvs : list (bytes * bytes)) : forall header,
  for_each kvs
    (fun '(k, v) header => Ok (header ++ k ++ [NUL] ++ v ++ [NUL])) header
  = Ok (header ++ concat (map Format.pair_bytes kvs)).
Proof.
  induction kvs as [|[k v] kvs IH]; intros header.
  - cbn. now rewrite app_nil_r.
  - cbn [for_each bind map concat]. rewrite IH.
    unfold Format.pair_bytes at 2. cbn [fst snd].
    now rewrite <- !app_assoc.
Qed.

Lemma pack_info_of (m : Format.member) (D : Z) :
  Format.record_ok (Format.fields m) ->
  PboFile.pack_info (PboInfo.set_data_offset (snd (Format.info_of m)) D)
  = Ok (Format.index_record m).
Proof.
  intros Hrec.
  unfold PboFile.pack_info, PboInfo.get_timestamp, PboInfo.get_data_size,
    Format.info_of, PboInfo.set_data_offset, PboInfo.init.
  cbn [snd PboInfo.fp PboInfo.timestamp PboInfo.data_size
       PboInfo.packing_method PboInfo.original_size PboInfo.reserved
       PboInfo.filename bind].
  change (pack_IIIII _) with (pack_IIIII (Format.fields m)).
  rewrite (pack_record5 _ Hrec). reflexivity.
Qed.

Lemma assign_offsets_cons (m : Format.member) (ms : list Format.member)
    (D : Z) :
  PboFile.assign_offsets (map Format.info_of (m :: ms)) D
  = (Format.name m, PboInfo.set_data_offset (snd (Format.info_of m)) D)
    :: PboFile.assign_offsets (map Format.info_of ms)
         (D + Z.of_nat (length (Format.data m))).
Proof. reflexivity. Qed.

Lemma export_index_loop (ms : list Format.member) : forall D header,
  Forall Format.member_ok ms ->
  for_each (PboFile.assign_offsets (map Format.info_of ms) D)
    (fun '(k, v) header => r <- PboFile.pack_info v ;; Ok (header ++ r))
    header
  = Ok (header ++ concat (map Format.index_record ms)).
Proof.
  induction ms as [|m ms IH]; intros D header Hok.
  - cbn. now rewrite app_nil_r.
  - inversion Hok as [|? ? (_ & _ & Hrec) Hok']; subst.
    rewrite assign_offsets_cons.
    cbn [for_each]. rewrite (pack_info_of m D Hrec). cbn [bind].
    rewrite IH by exact Hok'. cbn [map concat].
    now rewrite <- !app_assoc.
Qed.

Lemma assign_offsets_keys (d : list (bytes * PboInfo.t)) : forall off,
  map fst (PboFile.assign_offsets d off) = map fst d.
Proof.
  induction d as [|[k i] d IH]; intros off; [reflexivity|].
  cbn [PboFile.assign_offsets map fst]. now rewrite IH.
Qed.

Lemma sorted_by_keys {A : Type} (key : A -> bytes) (l : list A) :
  StronglySorted bytes_le (map key l) -> StronglySorted (key_le key) l.
Proof.
  induction l as [|x l IH]; intros H; [constructor|].
  cbn [map] in H. inversion H as [|? ? Hs Hx]; subst.
  constructor; [now apply IH|].
  rewrite Forall_map in Hx. exact Hx.
Qed.

Lemma names_ascending (ms : list Format.member) :
  StronglySorted Format.name_lt ms ->
  StronglySorted bytes_le (map Format.name ms).
Proof.
  induction 1 as [|m ms Hs IH Hm]; cbn [map]; constructor; [exact IH|].
  apply Forall_map. eapply Forall_impl; [|exact Hm].
  intros m' Hlt. unfold Format.name_lt in Hlt. unfold bytes_le, bytes_leb.
  now rewrite (bytes_ltb_asym _ _ Hlt).
Qed.

Lemma info_of_keys (ms : list Format.member) :
  map fst (map Format.info_of ms) = map Format.name ms.
Proof. rewrite map_map. reflexivity. Qed.

Section Writing.

Variable bk : File.t.
Hypothesis bk_open : File.closed bk = false.

Lemma export_payload_loop (fuel : nat) (trailer : bytes) :
  trailer <> [] ->
  (length (File.content bk) < fuel)%nat ->
  forall (ms : list Format.member) (D : Z) (h out : bytes) (p : PboFile.t)
         (q : Z),
  0 <= D ->
  skipn (Z.to_nat D) (File.content bk)
    = concat (map Format.data ms) ++ trailer ->
  PboFile.fp p = Some (File.set_pos bk q) ->
  exists p',
    for_each (PboFile.assign_offsets (map Format.info_of ms) D)
      (PboFile.export_member fuel) (h, out, p)
    = Ok (h ++ concat (map Format.data ms),
          out ++ concat (map Format.data ms), p').
Proof.
  intros Htr Hfuel ms.
  induction ms as [|m ms IH]; intros D h out p q HD Hr Hfp.
  - exists p. cbn. now rewrite !app_nil_r.
  - rewrite assign_offsets_cons. cbn [for_each].
    cbn [map concat] in Hr. rewrite <- app_assoc in Hr.
    set (info := PboInfo.set_data_offset _ D).
    assert (Hlt : (Z.to_nat D < length (File.content bk))%nat).
    { destruct (Format.data m ++ concat (map Format.data ms) ++ trailer)
        as [|x r] eqn:E.
      - apply app_eq_nil in E. destruct E as [_ E].
        apply app_eq_nil in E. destruct E as [_ E]. contradiction.
      - eapply skipn_nonempty_lt. exact Hr. }
    assert (Hsz : (Z.to_nat D + length (Format.data m)
                   <= length (File.content bk))%nat).
    { pose proof (f_equal (@length byte) Hr) as E.
      rewrite length_skipn, length_app in E. lia. }
    assert (Harch : archived_in bk info).
    { unfold archived_in, info, File.size. cbn. repeat split; lia. }
    assert (Hpay : payload bk info = Format.data m).
    { unfold payload, info, slice, Format.info_of, PboInfo.set_data_offset,
        PboInfo.init.
      cbn [snd PboInfo.data_offset PboInfo.data_size].
      rewrite Hr, Nat2Z.id, firstn_app, Nat.sub_diag, firstn_all, firstn_O.
      apply app_nil_r. }
    destruct (export_member_archived bk (Format.name m) info fuel h out p q
                bk_open Harch Hfp) as [q' ->].
    { unfold info. cbn. lia. }
    cbn [bind]. rewrite Hpay.
    destruct (IH (D + Z.of_nat (length (Format.data m)))
                (h ++ Format.data m) (out ++ Format.data m)
                (PboFile.set_state p
                   (odict_set (PboFile.filedict p) (Format.name m) info)
                   (Some (File.set_pos bk q'))) q')
      as [p' Hp']; [lia| |reflexivity|].
    + replace (Z.to_nat (D + Z.of_nat (length (Format.data m))))
        with (Z.to_nat D + length (Format.data m))%nat by lia.
      now apply skipn_after.
    + exists p'. rewrite Hp'. cbn [map concat]. now rewrite <- !app_assoc.
Qed.

End Writing.

(** ** Reading and writing back *)

(** C2: for every valid PBO file whose index is in lexicographic order of
    the file names, [from_file] followed by [_export] returns, and the
    bytes written are the bytes read, all of them: leading record, header
    extension, index, the 21 NUL bytes, payloads, and the trailing NUL
    with the SHA-1. *)
Theorem read_then_write (a : Format.archive) (fuel : nat) :
  Format.valid a ->
  (length (Format.file a) < fuel)%nat ->
  exists p p',
    PboFile.from_file fuel (File.open (Format.file a)) = Ok p /\
    PboFile._export fuel p = Ok (Format.file a, p').
Proof.
  intros Hvalid Hfuel.
  destruct (from_file_body a (NUL :: SHA1.sha1 (Format.body a)) fuel
              Hvalid Hfuel) as (D & Hread & HD & Hskip).
  change (Format.body a ++ NUL :: SHA1.sha1 (Format.body a))
    with (Format.file a) in *.
  destruct Hvalid as [Hfirst Hpairs Hkeys Hmembers Horder].
  eexists. rewrite Hread.
  set (bk := File.open (Format.file a)) in *.
  set (L := PboFile.assign_offsets (map Format.info_of (Format.members a)) D).
  assert (Hsorted : sorted fst L = L).
  { apply sorted_id, sorted_by_keys. unfold L.
    rewrite assign_offsets_keys, info_of_keys. now apply names_ascending. }
  destruct (export_payload_loop bk eq_refl fuel
              (NUL :: SHA1.sha1 (Format.body a)) ltac:(discriminate) Hfuel
              (Format.members a) D (Format.head a) (Format.head a)
              (PboFile.mk ([], Format.first_record a) (Format.extension a) L
                 (Some (File.set_pos bk D))) D HD Hskip eq_refl)
    as [p' Hpay].
  exists p'. split; [reflexivity|].
  unfold PboFile._export.
  cbn [PboFile.header PboFile.header_extension PboFile.filedict fst snd].
  rewrite (pack_record5 _ Hfirst). cbn [bind].
  rewrite export_extension_loop. cbn [bind].
  fold L. rewrite Hsorted. unfold L at 1.
  rewrite export_index_loop by exact Hmembers. cbn [bind].
  unfold update, sha1_new. cbn [app].
  change (pack_s []) with [NUL]. change (pack_s [NUL]) with [NUL].
  match goal with |- context [for_each L _ (?h, ?o, _)] =>
    replace h with (Format.head a)
      by (unfold Format.head; now rewrite <- !app_assoc)
  end.
  fold L in Hpay. fold bk. rewrite Hpay. cbn [bind].
  fold (Format.body a).
  rewrite long16_hexdigest. cbn [bind]. rewrite int_to_bytes_digest.
  reflexivity.
Qed.

Lemma not_in_nul (s : bytes) :
  forallb (fun x => negb (byte_eqb x NUL)) s = true -> Format.asciiz s.
Proof.
  intros H Hin. rewrite forallb_forall in H. specialize (H NUL Hin).
  unfold byte_eqb in H. cbn in H. discriminate.
Qed.

Lemma example_format_valid : Format.valid example_format.
Proof.
  constructor.
  - cbn. unfold Format.is_u32. lia.
  - repeat first [apply Forall_nil | apply Forall_cons].
    unfold Format.pair_ok. cbn [fst snd].
    split; [discriminate|]. split; apply not_in_nul; reflexivity.
  - cbn. repeat constructor. intros [].
  - repeat first [apply Forall_nil | apply Forall_cons];
      unfold Format.member_ok;
      (split; [discriminate|]);
      (split; [apply not_in_nul; reflexivity|]);
      cbn; unfold Format.is_u32; lia.
  - repeat constructor.
Qed.

Lemma read_then_write_witness :
  exists p p',
    PboFile.from_file 200 (File.open (Format.file example_format)) = Ok p /\
    PboFile._export 200 p = Ok (Format.file example_format, p').
Proof.
  apply (read_then_write example_format 200).
  - exact example_format_valid.
  - vm_compute. lia.
Defined.

(** ** A flipped payload bit *)

Lemma map_nth_length {A : Type} (g : A -> A) (l : list A) : forall n,
  length (map_nth g n l) = length l.
Proof.
  induction l as [|x l IH]; intros [|n]; cbn [map_nth length]; auto.
Qed.

Lemma map_map_nth {A B : Type} (g : A -> A) (h : A -> B) (l : list A) :
  (forall x, h (g x) = h x) ->
  forall n, map h (map_nth g n l) = map h l.
Proof.
  intros Hg. induction l as [|x l IH]; intros [|n]; cbn [map_nth map];
    rewrite ?Hg, ?IH; reflexivity.
Qed.

Lemma flip_byte_neq (x : byte) (k : Z) :
  0 <= k < 8 ->
  byte.of_Z (Z.lxor (byte.unsigned x) (2 ^ k)) <> x.
Proof.
  intros Hk E. apply (f_equal byte.unsigned) in E.
  rewrite byte.unsigned_of_Z in E. unfold byte.wrap in E.
  apply (f_equal (fun z => Z.testbit z k)) in E.
  rewrite Z.testbit_mod_pow2, Z.lxor_spec, Z.pow2_bits_true in E by lia.
  destruct (Z.ltb_spec k 8); [|lia].
  destruct (Z.testbit (byte.unsigned x) k); discriminate.
Qed.

Lemma flip_bit_length (i : nat) (k : Z) (s : bytes) :
  length (flip_bit i k s) = length s.
Proof. apply map_nth_length. Qed.

Lemma flip_bit_neq (k : Z) (s : bytes) : forall i,
  0 <= k < 8 -> (i < length s)%nat -> flip_bit i k s <> s.
Proof.
  unfold flip_bit. induction s as [|x s IH]; intros [|i] Hk Hi;
    cbn [length] in Hi; try lia; cbn [map_nth]; intros E.
  - injection E as E. now apply (flip_byte_neq x k).
  - injection E as E. apply (IH i Hk); [lia|exact E].
Qed.

(** Flipping a payload bit leaves names, fields and sizes, hence the
    member records, the head of the file and its validity. *)
Lemma info_of_flip (i : nat) (k : Z) (m : Format.member) :
  Format.info_of (flip_data i k m) = Format.info_of m.
Proof.
  unfold Format.info_of, flip_data. cbn. now rewrite flip_bit_length.
Qed.

Lemma fields_flip (i : nat) (k : Z) (m : Format.member) :
  Format.fields (flip_data i k m) = Format.fields m.
Proof.
  unfold Format.fields, flip_data. cbn. now rewrite flip_bit_length.
Qed.

Lemma index_record_flip (i : nat) (k : Z) (m : Format.member) :
  Format.index_record (flip_data i k m) = Format.index_record m.
Proof.
  unfold Format.index_record. now rewrite fields_flip.
Qed.

Lemma head_flip (j i : nat) (k : Z) (a : Format.archive) :
  Format.head (flip_member j i k a) = Format.head a.
Proof.
  unfold Format.head, flip_member. cbn [Format.first_record Format.extension
    Format.members].
  rewrite (map_map_nth _ Format.index_record) by apply index_record_flip.
  reflexivity.
Qed.

Lemma map_nth_Forall {A : Type} (P : A -> Prop) (g : A -> A) (l : list A) :
  (forall x, P x -> P (g x)) ->
  forall n, Forall P l -> Forall P (map_nth g n l).
Proof.
  intros Hg. induction l as [|x l IH]; intros [|n] H; cbn [map_nth];
    inversion H; subst; constructor; auto.
Qed.

Lemma map_nth_sorted {A : Type} (R : A -> A -> Prop) (g : A -> A) :
  (forall x y, R x y -> R (g x) y) ->
  (forall x y, R x y -> R x (g y)) ->
  forall l n, StronglySorted R l -> StronglySorted R (map_nth g n l).
Proof.
  intros Hl Hr. induction l as [|x l IH]; intros [|n] H; cbn [map_nth];
    inversion H as [|? ? Hs Hx]; subst; constructor; auto.
  - eapply Forall_impl; [|exact Hx]. intros y. apply Hl.
  - clear - Hr Hx. revert n. induction Hx as [|y l Hy Hx IH]; intros [|n];
      cbn [map_nth]; constructor; auto.
Qed.

Lemma valid_flip (j i : nat) (k : Z) (a : Format.archive) :
  Format.valid a -> Format.valid (flip_member j i k a).
Proof.
  intros [Hfirst Hpairs Hkeys Hmembers Horder].
  constructor; cbn [flip_member Format.first_record Format.extension
                    Format.members]; try assumption.
  - apply map_nth_Forall; [|exact Hmembers].
    intros m (Hn & Ha & Hr). unfold Format.member_ok.
    rewrite fields_flip. auto.
  - apply map_nth_sorted; [| |exact Horder]; intros x y H; exact H.
Qed.

Lemma concat_map_nth_neq {A : Type} (g : list A -> list A)
    (l : list (list A)) : forall n,
  (forall x, length (g x) = length x) ->
  (forall x, nth_error l n = Some x -> g x <> x) ->
  (n < length l)%nat ->
  concat (map_nth g n l) <> concat l.
Proof.
  induction l as [|x l IH]; intros [|n] Hlen Hneq Hn;
    cbn [length] in Hn; try lia; cbn [map_nth concat]; intros E.
  - apply (Hneq x eq_refl).
    apply (f_equal (firstn (length x))) in E.
    rewrite <- (Hlen x) in E at 1.
    now rewrite !firstn_app, !Nat.sub_diag, !firstn_all, !firstn_O,
      !app_nil_r in E.
  - apply app_inv_head in E. apply (IH n Hlen); [|lia|exact E].
    intros y Hy. apply Hneq. exact Hy.
Qed.

Lemma map_nth_map {A B : Type} (g : A -> A) (g' : B -> B) (h : A -> B)
    (l : list A) :
  (forall x, h (g x) = g' (h x)) ->
  forall n, map h (map_nth g n l) = map_nth g' n (map h l).
Proof.
  intros Hg. induction l as [|x l IH]; intros [|n]; cbn [map_nth map];
    rewrite ?Hg, ?IH; reflexivity.
Qed.

(** The bytes [hash1] is fed change with the flipped bit. *)
Lemma body_flip_neq (j i : nat) (k : Z) (a : Format.archive) (m : Format.member) :
  0 <= k < 8 ->
  nth_error (Format.members a) j = Some m ->
  (i < length (Format.data m))%nat ->
  Format.body (flip_member j i k a) <> Format.body a.
Proof.
  intros Hk Hj Hi. unfold Format.body. rewrite head_flip.
  intros E. apply app_inv_head in E. revert E.
  cbn [flip_member Format.members].
  rewrite (map_nth_map _ (flip_bit i k) Format.data) by reflexivity.
  apply concat_map_nth_neq.
  - intros x. apply flip_bit_length.
  - intros x Hx. rewrite nth_error_map, Hj in Hx. injection Hx as <-.
    now apply flip_bit_neq.
  - rewrite length_map. apply nth_error_Some. congruence.
Qed.

(** ** The hashes of a valid archive *)

Lemma skipn_app_eq {A : Type} (h r : list A) (n : nat) :
  skipn n (h ++ r) = r -> r <> [] -> n = length h.
Proof.
  intros E Hr. pose proof (f_equal (@length A) E) as El.
  rewrite length_skipn, length_app in El.
  destruct (Nat.le_gt_cases n (length h + length r)) as [Hle|Hgt]; [lia|].
  rewrite skipn_all2 in E by (rewrite length_app; lia). congruence.
Qed.

Lemma from_file_loaded (a : Format.archive) (trailer : bytes) (fuel : nat) :
  Format.valid a ->
  trailer <> [] ->
  (length (Format.body a ++ trailer) < fuel)%nat ->
  PboFile.from_file fuel (File.open (Format.body a ++ trailer))
    = Ok (loaded a trailer) /\
  skipn (length (Format.head a)) (Format.body a ++ trailer)
    = concat (map Format.data (Format.members a)) ++ trailer.
Proof.
  intros Hv Ht Hfuel.
  destruct (from_file_body a trailer fuel Hv Hfuel) as (D & Hread & HD & Hskip).
  assert (ED : Z.to_nat D = length (Format.head a)).
  { unfold Format.body in Hskip. rewrite <- app_assoc in Hskip.
    apply skipn_app_eq in Hskip; [exact Hskip|].
    intros E. apply app_eq_nil in E. destruct E as [_ E]. contradiction. }
  rewrite <- ED. split; [|exact Hskip].
  rewrite Hread. unfold loaded. rewrite <- ED, Z2Nat.id by exact HD.
  reflexivity.
Qed.

Section Loaded.

Variable bk : File.t.
Variable trailer : bytes.
Hypothesis trailer_nonempty : trailer <> [].

(** The member records of a loaded archive lie inside the backing file,
    their payloads are the data of the members, and the selection rule
    on the records is the selection rule on the members. *)
Lemma infos_payload (version : Z) :
  forall (ms : list Format.member) (D : Z),
  0 <= D ->
  skipn (Z.to_nat D) (File.content bk)
    = concat (map Format.data ms) ++ trailer ->
  let infos := map snd (PboFile.assign_offsets (map Format.info_of ms) D) in
  Forall (archived_in bk) infos /\
  map (payload bk) infos = map Format.data ms /\
  map (selected version) infos = map (selects version) ms.
Proof.
  induction ms as [|m ms IH]; intros D HD Hr.
  - cbn. auto.
  - rewrite assign_offsets_cons. cbn [map snd].
    cbn [map concat] in Hr. rewrite <- app_assoc in Hr.
    set (info := PboInfo.set_data_offset _ D).
    assert (Hlt : (Z.to_nat D < length (File.content bk))%nat).
    { destruct (Format.data m ++ concat (map Format.data ms) ++ trailer)
        as [|x r] eqn:E.
      - apply app_eq_nil in E. destruct E as [_ E].
        apply app_eq_nil in E. destruct E as [_ E]. contradiction.
      - eapply skipn_nonempty_lt. exact Hr. }
    assert (Hsz : (Z.to_nat D + length (Format.data m)
                   <= length (File.content bk))%nat).
    { pose proof (f_equal (@length byte) Hr) as E.
      rewrite length_skipn, length_app in E. lia. }
    destruct (IH (D + Z.of_nat (length (Format.data m))) ltac:(lia))
      as (Ha & Hp & Hs).
    { replace (Z.to_nat (D + Z.of_nat (length (Format.data m))))
        with (Z.to_nat D + length (Format.data m))%nat by lia.
      now apply skipn_after. }
    split; [|split].
    + constructor; [|exact Ha].
      unfold archived_in, info, File.size. cbn. repeat split; lia.
    + cbn [map]. rewrite Hp. f_equal.
      unfold payload, info, slice, Format.info_of, PboInfo.set_data_offset,
        PboInfo.init.
      cbn [snd PboInfo.data_offset PboInfo.data_size].
      rewrite Hr, Nat2Z.id, firstn_app, Nat.sub_diag, firstn_all, firstn_O.
      apply app_nil_r.
    + cbn [map]. rewrite Hs. reflexivity.
Qed.

End Loaded.

Lemma filter_map_agree {A A' B : Type} (f : A -> B) (f' : A' -> B)
    (p : A -> bool) (p' : A' -> bool) :
  forall (l : list A) (l' : list A'),
  map f l = map f' l' -> map p l = map p' l' ->
  map f (filter p l) = map f' (filter p' l').
Proof.
  induction l as [|x l IH]; intros [|x' l'] Hf Hp; cbn [map filter] in *;
    try discriminate; [reflexivity|].
  injection Hf as Hf0 Hf. injection Hp as Hp0 Hp.
  rewrite <- Hp0. destruct (p x); cbn [map]; rewrite ?Hf0; f_equal; auto.
Qed.

Lemma archived_readable (bk : File.t) (l : list PboInfo.t) :
  Forall (archived_in bk) l -> Forall readable l.
Proof.
  apply Forall_impl. intros i (Hfp & _). unfold readable. now rewrite Hfp.
Qed.

(** [hash] on a loaded valid archive with a 21-byte trailer: hash1 is
    fed the body, hash2 and hash3 the digests and the prefix as section
    4.4 of the specification has them. *)
Lemma hash_loaded (a : Format.archive) (trailer : bytes) (fuel : nat)
    (version : Z) :
  Format.valid a ->
  length trailer = 21%nat ->
  version = 2 \/ version = 3 ->
  (length (Format.body a ++ trailer) < fuel)%nat ->
  exists nh p',
    PboFile._namehash (loaded a trailer) = Ok nh /\
    PboFile.hash fuel (loaded a trailer) None version
    = Ok (Format.body a,
          digest (Format.body a) ++ digest nh ++ prefix_input a,
          digest (filehash_input a version) ++ digest nh ++ prefix_input a,
          p', None).
Proof.
  intros Hv Ht Hver Hfuel.
  assert (Htn : trailer <> []) by (intros ->; discriminate).
  destruct (from_file_loaded a trailer fuel Hv Htn Hfuel) as [_ Hskip].
  set (bk := File.open (Format.body a ++ trailer)).
  set (D := Z.of_nat (length (Format.head a))).
  destruct (infos_payload bk trailer Htn version (Format.members a) D
              ltac:(lia)) as (Harch & Hpay & Hsel).
  { unfold D. rewrite Nat2Z.id. exact Hskip. }
  set (p := loaded a trailer).
  assert (Hinfos : PboFile.infolist p
                   = map snd (PboFile.assign_offsets
                                (map Format.info_of (Format.members a)) D))
    by reflexivity.
  rewrite <- Hinfos in Harch, Hpay, Hsel.
  assert (Hsize : File.size bk = Z.of_nat (length (Format.body a)) + 21).
  { unfold File.size, bk. cbn [File.open File.content].
    rewrite length_app, Ht. lia. }
  (* hash1 *)
  assert (H1 : PboFile.hash1 fuel (PboFile.fp p)
               = Ok (Format.body a, PboFile.fp p)).
  { unfold p, loaded. cbn [PboFile.fp]. fold bk D.
    rewrite hash1_returns; file_simpl; try reflexivity; try lia.
    - rewrite Hsize. replace (Z.of_nat (length (Format.body a)) + 21 - 21)
        with (Z.of_nat (length (Format.body a))) by lia.
      rewrite Nat2Z.id. unfold bk. cbn [File.open File.content].
      now rewrite firstn_app, Nat.sub_diag, firstn_all, firstn_O, app_nil_r.
    - rewrite Hsize. rewrite length_app in Hfuel. lia. }
  (* namehash *)
  pose proof (namehash_loop
                (sorted (fun v => lower (PboInfo.filename v))
                   (PboFile.infolist p)) sha1_new) as Hn.
  specialize (Hn (Permutation_Forall
                    (Permutation_sym (sorted_perm _ _))
                    (archived_readable bk _ Harch))).
  fold (PboFile._namehash p) in Hn.
  (* filehash *)
  destruct (filehash_archived fuel p (File.set_pos bk D) version Hver
              eq_refl eq_refl) as [q Hf].
  { eapply Forall_impl; [|exact Harch]. intros i Hi. exact Hi. }
  { file_simpl. rewrite Hsize. rewrite length_app in Hfuel. lia. }
  cbv zeta in Hf.
  do 2 eexists. split; [exact Hn|].
  unfold PboFile.hash. rewrite H1. cbn [bind].
  change (PboFile.set_state p (PboFile.filedict p) (PboFile.fp p)) with p.
  rewrite Hn. cbn [bind]. rewrite Hf. cbn [bind].
  rewrite !update_prefix_part.
  change (prefix_part _) with (prefix_input a).
  unfold update, sha1_new. cbn [app]. rewrite <- !app_assoc.
  repeat f_equal.
  unfold filehash_input.
  pose proof (filter_map_agree (payload bk) Format.data
                (selected version) (selects version) _ _ Hpay Hsel) as E.
  change (payload (File.set_pos bk D)) with (payload bk).
  destruct (filter (selected version) (PboFile.infolist p)) as [|i l] eqn:E1;
    destruct (filter (selects version) (Format.members a)) as [|m l'] eqn:E2;
    cbn [map] in E; try discriminate; [reflexivity|].
  cbn [map]. now rewrite E.
Qed.

Lemma filter_map_nth {A : Type} (p : A -> bool) (g : A -> A) (l : list A) :
  forall n x,
  nth_error l n = Some x -> p x = false -> p (g x) = false ->
  filter p (map_nth g n l) = filter p l.
Proof.
  induction l as [|y l IH]; intros [|n] x Hn Hx Hgx; cbn [nth_error] in Hn;
    try discriminate; cbn [map_nth filter].
  - injection Hn as ->. now rewrite Hx, Hgx.
  - now rewrite (IH n x Hn Hx Hgx).
Qed.

Lemma selects_flip (version : Z) (i : nat) (k : Z) (m : Format.member) :
  selects version (flip_data i k m) = selects version m.
Proof.
  unfold selects, has_data, lower_member, flip_data. cbn.
  now rewrite flip_bit_length.
Qed.

Lemma filehash_input_flip (version : Z) (j i : nat) (k : Z)
    (a : Format.archive) (m : Format.member) :
  nth_error (Format.members a) j = Some m ->
  selects version m = false ->
  filehash_input (flip_member j i k a) version = filehash_input a version.
Proof.
  intros Hj Hsel. unfold filehash_input, flip_member. cbn [Format.members].
  rewrite (filter_map_nth _ _ _ j m Hj Hsel); [reflexivity|].
  now rewrite selects_flip.
Qed.

Lemma namehash_flip (j i : nat) (k : Z) (a : Format.archive) (trailer : bytes) :
  PboFile._namehash (loaded (flip_member j i k a) trailer)
  = PboFile._namehash (loaded a trailer).
Proof.
  unfold PboFile._namehash, PboFile.infolist, loaded.
  cbn [PboFile.filedict]. rewrite head_flip.
  cbn [flip_member Format.members].
  rewrite (map_map_nth _ Format.info_of) by apply info_of_flip.
  reflexivity.
Qed.

(** ** verify *)

Lemma bytes_to_int_big_inj (x y : bytes) :
  length x = length y -> bytes_to_int x big = bytes_to_int y big -> x = y.
Proof.
  unfold bytes_to_int. intros Hl E.
  apply le_combine_inj in E; [|now rewrite !length_rev].
  rewrite <- (rev_involutive x), <- (rev_involutive y). now f_equal.
Qed.

Lemma emsa_inj (d d' : bytes) (n : Z) : emsa d n = emsa d' n -> d = d'.
Proof.
  unfold emsa. intros E.
  repeat (apply app_inv_head in E). exact E.
Qed.

Lemma verify_hash_value (pkey : PublicKey.t) (d : bytes) (sig : Z) :
  verify_hash pkey (hex d) sig
  = s <- pow sig (PublicKey.public_exponent pkey) (PublicKey.modulus pkey) ;;
    Ok (bytes_to_int
          (emsa d (PublicKey.bitlen pkey / 8 - Z.of_nat (length d) - 18)) big
        =? s).
Proof. unfold verify_hash. rewrite padding_value. reflexivity. Qed.

(** A signature that verifies for one digest does not verify for a
    different digest. *)
Lemma verify_hash_other (pkey : PublicKey.t) (d d' : bytes) (sig : Z) :
  length d = length d' -> d' <> d ->
  verify_hash pkey (hex d) sig = Ok true ->
  verify_hash pkey (hex d') sig = Ok false.
Proof.
  intros Hl Hne. rewrite !verify_hash_value.
  set (n := PublicKey.bitlen pkey / 8).
  assert (Hm : bytes_to_int (emsa d' (n - Z.of_nat (length d') - 18)) big
               <> bytes_to_int (emsa d (n - Z.of_nat (length d) - 18)) big).
  { intros E. apply Hne. rewrite Hl in E.
    apply bytes_to_int_big_inj in E.
    - now apply emsa_inj in E.
    - unfold emsa. rewrite !length_app, Hl. reflexivity. }
  revert Hm.
  generalize (bytes_to_int (emsa d' (n - Z.of_nat (length d') - 18)) big).
  generalize (bytes_to_int (emsa d (n - Z.of_nat (length d) - 18)) big).
  intros m1 m2 Hm.
  destruct (pow sig _ _) as [s| |]; cbn [bind]; try discriminate.
  intros E. injection E as E. apply Z.eqb_eq in E. subst s.
  f_equal. now apply Z.eqb_neq.
Qed.

(** Whatever the digest, the check returns as soon as it returned for
    another digest with the same key and signature. *)
Lemma verify_hash_returns (pkey : PublicKey.t) (d d' : bytes) (sig : Z)
    (r : bool) :
  verify_hash pkey (hex d) sig = Ok r ->
  exists r', verify_hash pkey (hex d') sig = Ok r'.
Proof.
  rewrite !verify_hash_value.
  destruct (pow sig _ _) as [s| |]; cbn [bind]; try discriminate.
  intros _. eexists. reflexivity.
Qed.

Lemma verify_loaded (a : Format.archive) (trailer : bytes) (fuel : nat)
    (pkey : PublicKey.t) (bsign : Bisign.t) :
  Format.valid a ->
  length trailer = 21%nat ->
  Bisign.version bsign = 2 \/ Bisign.version bsign = 3 ->
  (length (Format.body a ++ trailer) < fuel)%nat ->
  exists nh,
    PboFile._namehash (loaded a trailer) = Ok nh /\
    verify fuel pkey bsign (Format.body a ++ trailer)
    = (verify1 <- verify_hash pkey (hex (digest (Format.body a)))
                    (Bisign.sig1 bsign) ;;
       verify2 <- verify_hash pkey
                    (hex (digest (digest (Format.body a) ++ digest nh
                                  ++ prefix_input a)))
                    (Bisign.sig2 bsign) ;;
       verify3 <- verify_hash pkey
                    (hex (digest (digest (filehash_input a
                                            (Bisign.version bsign))
                                  ++ digest nh ++ prefix_input a)))
                    (Bisign.sig3 bsign) ;;
       Ok (if verify1 && verify2 && verify3 then 0 else 1)).
Proof.
  intros Hv Ht Hver Hfuel.
  assert (Htn : trailer <> []) by (intros ->; discriminate).
  destruct (from_file_loaded a trailer fuel Hv Htn Hfuel) as [Hread _].
  destruct (hash_loaded a trailer fuel _ Hv Ht Hver Hfuel)
    as (nh & p' & Hn & Hh).
  exists nh. split; [exact Hn|].
  unfold verify. rewrite Hread. cbn [bind]. rewrite Hh. reflexivity.
Qed.

(** ** One payload bit flipped *)

(** C8, as the specification states it, does not hold: hash2 is
    SHA-1(hash1, name hash, prefix), so it changes with hash1.  On the
    example archive, with bit 0 of the first payload byte of [logo.paa]
    flipped, the digests of hash1 and of hash2 both change (and that of
    hash3 does not: version 3 leaves [.paa] members out of the file
    hash). *)
Lemma hash2_changes_with_flipped_bit :
  exists d1 d2 d3 d1' d2' d3',
    example_flipped = flip_bit 117 0 example_file /\
    digests 200 example_file 3 = Ok (d1, d2, d3) /\
    digests 200 example_flipped 3 = Ok (d1', d2', d3') /\
    d1' <> d1 /\ d2' <> d2 /\ d3' = d3.
Proof.
  do 6 eexists. split; [vm_compute; reflexivity|].
  split; [vm_compute; reflexivity|].
  split; [vm_compute; reflexivity|].
  split; [|split]; [discriminate|discriminate|reflexivity].
Qed.

(** C8, amended.  Take a valid archive followed by a 21-byte trailer, and
    the same file with one bit of one payload byte flipped (index and
    trailer as they were).  Both files are read and hashed; the bytes fed
    to hash1 differ; hash2 is SHA-1(hash1 digest, name hash digest,
    prefix) with the name hash and the prefix unchanged, so what it is
    fed changes whenever the digest of hash1 does; the file hash, hence
    hash3, is unchanged when the member with the flipped bit is not
    selected for the file hash; and when the digest of hash1 differs, a
    signature that [verify] accepts for the first file makes it report
    failure, status 1, for the second. *)
Theorem flipped_payload_bit (a : Format.archive) (trailer : bytes)
    (j i : nat) (k : Z) (m : Format.member) (version : Z) (fuel : nat)
    (pkey : PublicKey.t) (bsign : Bisign.t) :
  Format.valid a ->
  length trailer = 21%nat ->
  nth_error (Format.members a) j = Some m ->
  (i < length (Format.data m))%nat ->
  0 <= k < 8 ->
  version = 2 \/ version = 3 ->
  Bisign.version bsign = version ->
  (length (Format.body a ++ trailer) < fuel)%nat ->
  let a' := flip_member j i k a in
  exists p p' nh q q',
    PboFile.from_file fuel (File.open (Format.body a ++ trailer)) = Ok p /\
    PboFile.from_file fuel (File.open (Format.body a' ++ trailer)) = Ok p' /\
    PboFile._namehash p = Ok nh /\
    PboFile._namehash p' = Ok nh /\
    PboFile.hash fuel p None version
      = Ok (Format.body a,
            digest (Format.body a) ++ digest nh ++ prefix_input a,
            digest (filehash_input a version) ++ digest nh ++ prefix_input a,
            q, None) /\
    PboFile.hash fuel p' None version
      = Ok (Format.body a',
            digest (Format.body a') ++ digest nh ++ prefix_input a,
            digest (filehash_input a' version) ++ digest nh ++ prefix_input a,
            q', None) /\
    Format.body a' <> Format.body a /\
    (selects version m = false ->
     filehash_input a' version = filehash_input a version) /\
    (digest (Format.body a') <> digest (Format.body a) ->
     digest (Format.body a') ++ digest nh ++ prefix_input a
       <> digest (Format.body a) ++ digest nh ++ prefix_input a /\
     (verify fuel pkey bsign (Format.body a ++ trailer) = Ok 0 ->
      verify fuel pkey bsign (Format.body a' ++ trailer) = Ok 1)).
Proof.
  intros Hv Ht Hj Hi Hk Hver Hbv Hfuel a'.
  assert (Hv' : Format.valid a') by now apply valid_flip.
  assert (Htn : trailer <> []) by (intros ->; discriminate).
  assert (Hbody : Format.body a' <> Format.body a)
    by (eapply body_flip_neq; eassumption).
  assert (Hlen : length (Format.body a') = length (Format.body a)).
  { unfold Format.body, a'. rewrite head_flip, !length_app. f_equal.
    cbn [flip_member Format.members].
    rewrite (map_nth_map _ (flip_bit i k) Format.data) by reflexivity.
    generalize (map Format.data (Format.members a)). clear.
    intros l. revert j. induction l as [|x l IH]; intros [|j];
      cbn [map_nth concat]; rewrite ?length_app, ?flip_bit_length, ?IH;
      reflexivity. }
  assert (Hfuel' : (length (Format.body a' ++ trailer) < fuel)%nat)
    by (rewrite length_app, Hlen, <- length_app; exact Hfuel).
  destruct (from_file_loaded a trailer fuel Hv Htn Hfuel) as [Hread _].
  destruct (from_file_loaded a' trailer fuel Hv' Htn Hfuel') as [Hread' _].
  destruct (hash_loaded a trailer fuel version Hv Ht Hver Hfuel)
    as (nh & q & Hn & Hh).
  destruct (hash_loaded a' trailer fuel version Hv' Ht Hver Hfuel')
    as (nh' & q' & Hn' & Hh').
  assert (Enh : nh' = nh).
  { unfold a' in Hn'. rewrite namehash_flip, Hn in Hn'. congruence. }
  subst nh'.
  change (prefix_input a') with (prefix_input a) in Hh'.
  exists (loaded a trailer), (loaded a' trailer), nh, q, q'.
  split; [exact Hread|]. split; [exact Hread'|].
  split; [exact Hn|]. split; [exact Hn'|].
  split; [exact Hh|]. split; [exact Hh'|].
  split; [exact Hbody|]. split.
  - intros Hsel. unfold a'.
    now rewrite (filehash_input_flip version j i k a m Hj Hsel).
  - intros Hd. split.
    { intros E. apply Hd. now apply app_inv_tail in E. }
    intros Hok. subst version.
    destruct (verify_loaded a trailer fuel pkey bsign Hv Ht Hver Hfuel)
      as (nh1 & Hn1 & E).
    destruct (verify_loaded a' trailer fuel pkey bsign Hv' Ht Hver Hfuel')
      as (nh2 & Hn2 & E').
    assert (nh1 = nh) by congruence. assert (nh2 = nh) by congruence.
    subst nh1 nh2. rewrite E in Hok. rewrite E'. clear E E'.
    change (prefix_input a') with (prefix_input a).
    destruct (verify_hash pkey (hex (digest (Format.body a))) _)
      as [v1| |] eqn:E1; cbn [bind] in Hok; try discriminate.
    destruct (verify_hash pkey (hex (digest (_ ++ _))) (Bisign.sig2 bsign))
      as [v2| |] eqn:E2 in Hok; cbn [bind] in Hok; try discriminate.
    destruct (verify_hash pkey (hex (digest (_ ++ _))) (Bisign.sig3 bsign))
      as [v3| |] eqn:E3 in Hok; cbn [bind] in Hok; try discriminate.
    destruct v1; [|cbn in Hok; discriminate].
    rewrite (verify_hash_other pkey (digest (Format.body a))
               (digest (Format.body a')) (Bisign.sig1 bsign)
               ltac:(unfold digest; now rewrite !sha1_length) Hd E1).
    cbn [bind].
    destruct (verify_hash_returns pkey _
                (digest (digest (Format.body a') ++ digest nh
                         ++ prefix_input a)) _ _ E2) as [r2 ->].
    destruct (verify_hash_returns pkey _
                (digest (digest (filehash_input a' (Bisign.version bsign))
                         ++ digest nh ++ prefix_input a)) _ _ E3) as [r3 ->].
    reflexivity.
Qed.

Lemma flipped_payload_bit_witness :
  let a := example_format in
  let a' := flip_member 1 0 0 example_format in
  let trailer := example_trailer in
  exists p p' nh q q',
    PboFile.from_file 200 (File.open (Format.body a ++ trailer)) = Ok p /\
    PboFile.from_file 200 (File.open (Format.body a' ++ trailer)) = Ok p' /\
    PboFile._namehash p = Ok nh /\
    PboFile._namehash p' = Ok nh /\
    PboFile.hash 200 p None 3
      = Ok (Format.body a,
            digest (Format.body a) ++ digest nh ++ prefix_input a,
            digest (filehash_input a 3) ++ digest nh ++ prefix_input a,
            q, None) /\
    PboFile.hash 200 p' None 3
      = Ok (Format.body a',
            digest (Format.body a') ++ digest nh ++ prefix_input a,
            digest (filehash_input a' 3) ++ digest nh ++ prefix_input a,
            q', None) /\
    Format.body a' <> Format.body a /\
    (selects 3 (Format.Member (b "logo.paa") 0 0 0 2000 (b "12345678")) = false ->
     filehash_input a' 3 = filehash_input a 3) /\
    (digest (Format.body a') <> digest (Format.body a) ->
     digest (Format.body a') ++ digest nh ++ prefix_input a
       <> digest (Format.body a) ++ digest nh ++ prefix_input a /\
     (verify 200 example_public_key example_bisign (Format.body a ++ trailer)
        = Ok 0 ->
      verify 200 example_public_key example_bisign (Format.body a' ++ trailer)
        = Ok 1)).
Proof.
  apply (flipped_payload_bit example_format example_trailer 1 0 0
           (Format.Member (b "logo.paa") 0 0 0 2000 (b "12345678")) 3 200
           example_public_key example_bisign).
  - exact example_format_valid.
  - vm_compute. reflexivity.
  - reflexivity.
  - vm_compute. lia.
  - lia.
  - right. reflexivity.
  - reflexivity.
  - vm_compute. lia.
Defined.


(** ** RSA: a signature made with the private exponent verifies *)

Section RSA.

Variables p q : Z.
Hypothesis prime_p : Z.prime p.
Hypothesis prime_q : Z.prime q.
Hypothesis distinct : p <> q.

Lemma pow_one_plus_multiple (r a s : Z) :
  Z.prime r -> 0 <= s -> a ^ (1 + (r - 1) * s) mod r = a mod r.
Proof.
  intros Hr Hs. pose proof (Z.prime_ge_2 r Hr) as Hr2.
  destruct (Z.eq_dec (a mod r) 0) as [Hz|Hnz].
  - rewrite <- Z.mod_pow_l, Hz.
    rewrite Z.pow_0_l by nia. apply Z.mod_0_l. lia.
  - rewrite Z.pow_add_r, Z.pow_1_r, Z.pow_mul_r by nia.
    rewrite <- Z.mul_mod_idemp_r, <- Z.mod_pow_l by lia.
    rewrite (ZmodInv.Z.fermat_nz r a Hr Hnz).
    rewrite Z.pow_1_l by lia. rewrite Z.mul_mod_idemp_r by lia.
    f_equal. lia.
Qed.

Lemma coprime_primes : Z.coprime p q.
Proof.
  apply Z.coprime_prime_l; [exact prime_p|].
  intros Hd. apply distinct. now apply Z.divide_prime_prime.
Qed.

Lemma lcm_pred_ge_2 : 2 <= Z.lcm (p - 1) (q - 1).
Proof.
  pose proof (Z.prime_ge_2 p prime_p). pose proof (Z.prime_ge_2 q prime_q).
  pose proof (Z.divide_lcm_l (p - 1) (q - 1)) as Hl.
  pose proof (Z.divide_lcm_r (p - 1) (q - 1)) as Hr.
  pose proof (Z.lcm_nonneg (p - 1) (q - 1)) as Hnn.
  assert (Hne : Z.lcm (p - 1) (q - 1) <> 0)
    by (intros E; apply Z.lcm_eq_0 in E; lia).
  apply Z.divide_pos_le in Hl; [|lia]. apply Z.divide_pos_le in Hr; lia.
Qed.

(** Raising to [e * d] is the identity modulo [p * q]. *)
Lemma rsa_exponent_identity (e d m : Z) :
  0 <= e -> 0 <= d ->
  (e * d) mod Z.lcm (p - 1) (q - 1) = 1 ->
  m ^ (e * d) mod (p * q) = m mod (p * q).
Proof.
  intros He Hd Hed.
  pose proof (Z.prime_ge_2 p prime_p) as Hp2.
  pose proof (Z.prime_ge_2 q prime_q) as Hq2.
  pose proof lcm_pred_ge_2 as HL.
  pose proof (Z.divide_lcm_l (p - 1) (q - 1)) as Hpl.
  pose proof (Z.divide_lcm_r (p - 1) (q - 1)) as Hql.
  set (L := Z.lcm (p - 1) (q - 1)) in *. clearbody L.
  assert (Hdec : e * d = 1 + L * (e * d / L))
    by (pose proof (Z.div_mod (e * d) L); lia).
  assert (Ht : 0 <= e * d / L) by (apply Z.div_pos; nia).
  assert (Hmodp : forall r, Z.prime r -> (r - 1 | L) ->
            m ^ (e * d) mod r = m mod r).
  { intros r Hr [c Hc]. pose proof (Z.prime_ge_2 r Hr).
    rewrite Hdec.
    replace (1 + L * (e * d / L))
      with (1 + (r - 1) * (c * (e * d / L))) by (rewrite Hc at 2; ring).
    apply pow_one_plus_multiple; [exact Hr|]. nia. }
  assert (Hp : (p | m ^ (e * d) - m)).
  { apply Z.mod_divide; [lia|]. rewrite Zminus_mod, Hmodp, Z.sub_diag;
      [apply Z.mod_0_l; lia|exact prime_p|exact Hpl]. }
  assert (Hq : (q | m ^ (e * d) - m)).
  { apply Z.mod_divide; [lia|]. rewrite Zminus_mod, Hmodp, Z.sub_diag;
      [apply Z.mod_0_l; lia|exact prime_q|exact Hql]. }
  destruct Hp as [u Hu].
  assert (Hqu : (q | u)).
  { apply Z.gauss with p; [rewrite Z.mul_comm, <- Hu; exact Hq|].
    unfold Z.coprime. rewrite Z.gcd_comm. apply coprime_primes. }
  destruct Hqu as [v Hv].
  replace (m ^ (e * d)) with (m + v * (p * q)) by (subst u; lia).
  apply Z.mod_add. nia.
Qed.

Lemma rsa_roundtrip (e d m : Z) :
  0 <= e -> 0 <= d ->
  (e * d) mod Z.lcm (p - 1) (q - 1) = 1 ->
  0 <= m < p * q ->
  (m ^ d mod (p * q)) ^ e mod (p * q) = m.
Proof.
  intros He Hd Hed Hm.
  rewrite Z.mod_pow_l, <- Z.pow_mul_r, (Z.mul_comm d e) by lia.
  rewrite rsa_exponent_identity by assumption.
  apply Z.mod_small. exact Hm.
Qed.

End RSA.

(** ** Proth's criterion, to obtain primes large enough for a key *)

Lemma pow_gcd_one (r a : Z) :
  1 < r ->
  forall y, 0 <= y -> forall x, 0 <= x ->
  a ^ x mod r = 1 -> a ^ y mod r = 1 -> a ^ Z.gcd x y mod r = 1.
Proof.
  intros Hr y Hy. pattern y. apply Z_lt_induction; [|exact Hy].
  clear y Hy. intros y IH x Hx Hax Hay.
  destruct (Z.eq_dec y 0) as [->|Hy0].
  - rewrite Z.gcd_0_r_nonneg by exact Hx. exact Hax.
  - destruct (Z_lt_le_dec y 0) as [Hneg|Hpos].
    + rewrite Z.pow_neg_r in Hay by exact Hneg.
      rewrite Z.mod_0_l in Hay by lia. discriminate.
    + pose proof (Z.mod_pos_bound x y ltac:(lia)) as Hb.
      rewrite (Z.gcd_comm x y), <- (Z.gcd_mod x y Hy0), Z.gcd_comm.
      apply IH; [lia|lia|exact Hay|].
      assert (Hq : 0 <= x / y) by (apply Z.div_pos; lia).
      rewrite (Z.div_mod x y Hy0), Z.pow_add_r, Z.pow_mul_r in Hax by lia.
      rewrite <- Z.mul_mod_idemp_l, <- Z.mod_pow_l, Hay in Hax by lia.
      rewrite Z.pow_1_l, Z.mul_mod_idemp_l, Z.mul_1_l in Hax by lia.
      exact Hax.
Qed.

Lemma divide_pow2 (s : nat) : forall g,
  0 < g -> (g | 2 ^ Z.of_nat (S s)) ->
  g = 2 ^ Z.of_nat (S s) \/ (g | 2 ^ Z.of_nat s).
Proof.
  induction s as [|s IH]; intros g Hg Hd.
  - change (2 ^ Z.of_nat 1) with 2 in *. change (2 ^ Z.of_nat 0) with 1.
    destruct (Z.divide_prime_r g 2 Z.prime_2 Hd) as [E|[E|[E|E]]]; try lia.
    right. subst g. apply Z.divide_refl.
  - replace (2 ^ Z.of_nat (S (S s))) with (2 * 2 ^ Z.of_nat (S s)) in *
      by (rewrite (Nat2Z.inj_succ (S s)), Z.pow_succ_r; lia).
    destruct (Z.Even_or_Odd g) as [[h Hh]|[h Hh]].
    + assert (Hhd : (h | 2 ^ Z.of_nat (S s))).
      { destruct Hd as [c Hc]. exists c. nia. }
      destruct (IH h ltac:(lia) Hhd) as [E|[c Hc]].
      * left. lia.
      * right. replace (2 ^ Z.of_nat (S s)) with (2 * 2 ^ Z.of_nat s)
          by (rewrite Nat2Z.inj_succ, Z.pow_succ_r; lia).
        exists c. nia.
    + right. apply Z.gauss with 2; [exact Hd|].
      apply Z.coprime_Bezout. exists 1, (- h). lia.
Qed.

Lemma prime_factor : forall n, 0 <= n -> 1 < n ->
  exists r, Z.prime r /\ (r | n).
Proof.
  intros n Hn. pattern n. apply Z_lt_induction; [|exact Hn].
  clear n Hn. intros n IH Hn.
  destruct (prime_dec n) as [Hp|Hnp].
  - exists n. split; [apply prime_alt; exact Hp|apply Z.divide_refl].
  - destruct (not_prime_divide n Hn Hnp) as [d [Hd Hdn]].
    destruct (IH d ltac:(lia) ltac:(lia)) as [r [Hr Hrd]].
    exists r. split; [exact Hr|]. now apply Z.divide_trans with d.
Qed.

Lemma small_prime_factor (n : Z) :
  1 < n -> ~ Z.prime n ->
  exists r, Z.prime r /\ (r | n) /\ r * r <= n.
Proof.
  intros Hn Hnp.
  destruct (not_prime_divide n Hn) as [d [Hd [c Hc]]].
  { intros H. apply Hnp, prime_alt, H. }
  assert (Hc1 : 1 < c) by nia.
  destruct (Z_le_gt_dec d c) as [Hle|Hgt].
  - destruct (prime_factor d ltac:(lia) ltac:(lia)) as [r [Hr Hrd]].
    pose proof (Z.prime_ge_2 r Hr).
    pose proof (Z.divide_pos_le r d ltac:(lia) Hrd).
    exists r. split; [exact Hr|split; [|nia]].
    apply Z.divide_trans with d; [exact Hrd|]. exists c. lia.
  - destruct (prime_factor c ltac:(lia) ltac:(lia)) as [r [Hr Hrc]].
    pose proof (Z.prime_ge_2 r Hr).
    pose proof (Z.divide_pos_le r c ltac:(lia) Hrc).
    exists r. split; [exact Hr|split; [|nia]].
    apply Z.divide_trans with c; [exact Hrc|]. exists d. lia.
Qed.

(** Proth: [k * 2^s + 1] with [k < 2^s] is prime as soon as some [a]
    has [a ^ ((N - 1) / 2) = -1] modulo [N]. *)
Theorem proth (k s a : Z) :
  0 < s -> 0 < k < 2 ^ s ->
  a ^ (k * 2 ^ (s - 1)) mod (k * 2 ^ s + 1) = k * 2 ^ s ->
  Z.prime (k * 2 ^ s + 1).
Proof.
  intros Hs Hk Ha.
  set (N := k * 2 ^ s + 1) in *.
  assert (H2s : 2 ^ s = 2 * 2 ^ (s - 1)).
  { replace s with (Z.succ (s - 1)) at 1 by lia. apply Z.pow_succ_r. lia. }
  assert (Hpos : 0 < 2 ^ (s - 1)) by (apply Z.pow_pos_nonneg; lia).
  destruct (prime_dec N) as [Hp|Hnp]; [apply prime_alt; exact Hp|exfalso].
  destruct (small_prime_factor N) as [r [Hr [[t Ht] Hrr]]];
    [unfold N; nia|intros H; apply Hnp, prime_alt, H|].
  pose proof (Z.prime_ge_2 r Hr) as Hr2.
  assert (Hr3 : 3 <= r).
  { destruct (Z.eq_dec r 2) as [->|]; [|lia]. unfold N in Ht. lia. }
  set (c := a ^ k).
  assert (Hc1 : c ^ (2 ^ (s - 1)) mod r = r - 1).
  { unfold c. rewrite <- Z.pow_mul_r by lia.
    pose proof (Z.div_mod (a ^ (k * 2 ^ (s - 1))) N ltac:(unfold N; nia)) as E.
    rewrite Ha in E.
    replace (k * 2 ^ s) with (N - 1) in E by (unfold N; lia).
    rewrite E, Ht.
    replace (t * r * (a ^ (k * 2 ^ (s - 1)) / (t * r)) + (t * r - 1))
      with ((r - 1) + (t * (a ^ (k * 2 ^ (s - 1)) / (t * r)) + t - 1) * r)
      by ring.
    rewrite Z.mod_add by lia. apply Z.mod_small. lia. }
  assert (Hc2 : c ^ (2 ^ s) mod r = 1).
  { rewrite H2s, (Z.mul_comm 2), Z.pow_mul_r, <- Z.mod_pow_l, Hc1 by lia.
    replace ((r - 1) ^ 2) with (1 + (r - 2) * r) by ring.
    rewrite Z.mod_add by lia. apply Z.mod_small. lia. }
  assert (Hcnz : c mod r <> 0).
  { intros E. rewrite <- Z.mod_pow_l, E, Z.pow_0_l, Z.mod_0_l in Hc2; lia. }
  pose proof (ZmodInv.Z.fermat_nz r c Hr Hcnz) as Hf.
  pose proof (pow_gcd_one r c ltac:(lia) (r - 1) ltac:(lia) (2 ^ s) ltac:(lia)
                Hc2 Hf) as Hg.
  set (g := Z.gcd (2 ^ s) (r - 1)) in *.
  assert (Hg0 : 0 < g).
  { pose proof (Z.gcd_nonneg (2 ^ s) (r - 1)).
    destruct (Z.eq_dec g 0) as [E|]; [|fold g in H; lia].
    apply Z.gcd_eq_0_l in E. lia. }
  assert (Es : Z.of_nat (S (Z.to_nat (s - 1))) = s) by (clear - Hs; lia).
  assert (Hgd : (g | 2 ^ Z.of_nat (S (Z.to_nat (s - 1))))).
  { rewrite Es. apply Z.gcd_divide_l. }
  destruct (divide_pow2 _ g Hg0 Hgd) as [E|[u Hu]].
  - rewrite Es in E.
    pose proof (Z.gcd_divide_r (2 ^ s) (r - 1)) as Hgr. fold g in Hgr.
    apply Z.divide_pos_le in Hgr; [|clear - Hr3; lia].
    unfold N in Hrr. clear - Hrr Hgr E Hk. nia.
  - rewrite Z2Nat.id in Hu by (clear - Hs; lia).
    assert (Hu0 : 0 <= u) by (clear - Hu Hpos Hg0; nia).
    assert (Hg1 : 0 <= g) by (clear - Hg0; lia).
    rewrite Hu, Z.mul_comm, Z.pow_mul_r, <- Z.mod_pow_l, Hg, Z.pow_1_l in Hc1
      by assumption.
    rewrite Z.mod_small in Hc1; clear - Hc1 Hr3; lia.
Qed.

Lemma prime_example_p : Z.prime example_p.
Proof.
  change (Z.prime (3 * 2 ^ 438 + 1)). apply (proth 3 438 5).
  - lia.
  - split; [lia|vm_compute; reflexivity].
  - rewrite <- Zpow_mod_correct by (vm_compute; discriminate).
    vm_compute. reflexivity.
Qed.

Lemma prime_example_q : Z.prime example_q.
Proof.
  change (Z.prime (3 * 2 ^ 66 + 1)). apply (proth 3 66 5).
  - lia.
  - split; [lia|vm_compute; reflexivity].
  - rewrite <- Zpow_mod_correct by (vm_compute; discriminate).
    vm_compute. reflexivity.
Qed.

Lemma padding_nonneg (h : bytes) (k m : Z) :
  padding (hex h) k = Ok m -> 0 <= m.
Proof.
  rewrite padding_value. intros E. injection E as <-.
  pose proof (bytes_to_int_big_bound
                (emsa h (k - Z.of_nat (length h) - 18))) as Hb.
  apply Hb.
Qed.

(** C1: for an RSA key pair (two distinct primes [p] and [q], modulus
    [p * q], exponents with [e * d = 1] modulo [lcm (p - 1) (q - 1)]) and
    a 20-byte digest whose padded value is below the modulus, the
    signature [sign] computes for the digest passes the check [verify]
    makes, and it lies in [[0, n)]. *)
Theorem sign_then_verify (name : bytes) (bitlen e d p q dp dq qinv : Z)
    (h : bytes) (m : Z) :
  Z.prime p -> Z.prime q -> p <> q ->
  0 <= e -> 0 <= d ->
  (e * d) mod Z.lcm (p - 1) (q - 1) = 1 ->
  length h = 20%nat ->
  padding (hex h) (bitlen / 8) = Ok m ->
  m < p * q ->
  let pub := PublicKey.mk name bitlen e (p * q) in
  let pkey := PrivateKey.mk pub d p q dp dq qinv in
  exists sig,
    sign_hash pkey (hex h) = Ok sig /\
    verify_hash pub (hex h) sig = Ok true /\
    0 <= sig < p * q.
Proof.
  intros Hp Hq Hpq He Hd Hed Hh Hm Hlt pub pkey.
  pose proof (Z.prime_ge_2 p Hp). pose proof (Z.prime_ge_2 q Hq).
  pose proof (padding_nonneg h _ m Hm) as Hm0.
  assert (Hn : p * q <> 0) by nia.
  exists (m ^ d mod (p * q)).
  unfold sign_hash, verify_hash, pow, pkey, pub. cbn [PrivateKey.public_key
    PrivateKey.private_exponent PublicKey.bitlen PublicKey.modulus
    PublicKey.public_exponent].
  rewrite Hm. cbn [bind].
  destruct (Z.eqb_spec (p * q) 0) as [|_]; [contradiction|].
  destruct (Z.ltb_spec d 0) as [|_]; [lia|].
  destruct (Z.ltb_spec e 0) as [|_]; [lia|].
  repeat split.
  - cbn [bind]. rewrite (rsa_roundtrip p q Hp Hq Hpq e d m) by (assumption || lia).
    rewrite Z.eqb_refl. reflexivity.
  - apply Z.mod_pos_bound. nia.
  - apply Z.mod_pos_bound. nia.
Qed.

Lemma sign_then_verify_witness :
  exists sig,
    sign_hash example_private_key (hex (SHA1.sha1 (b "abc"))) = Ok sig /\
    verify_hash example_public_key (hex (SHA1.sha1 (b "abc"))) sig = Ok true /\
    0 <= sig < example_p * example_q.
Proof.
  apply (sign_then_verify (b "example") 512 example_e example_d
           example_p example_q
           (example_d mod (example_p - 1)) (example_d mod (example_q - 1))
           (Z.invmod example_q example_p)
           (SHA1.sha1 (b "abc"))
           (bytes_to_int (emsa (SHA1.sha1 (b "abc")) 26) big)).
  - exact prime_example_p.
  - exact prime_example_q.
  - vm_compute. discriminate.
  - vm_compute. discriminate.
  - vm_compute. discriminate.
  - vm_compute. reflexivity.
  - vm_compute. reflexivity.
  - vm_compute. reflexivity.
  - vm_compute. reflexivity.
Defined.

(** * Further properties of the code *)

(** ** Integers and byte strings *)

(** X1: a number that fits in [len] bytes is written as exactly [len]
    bytes, and reading them back in the same byte order gives the
    number. *)
Theorem int_to_bytes_roundtrip (n len : Z) (e : endian) :
  0 <= len -> 0 <= n < 2 ^ (8 * len) ->
  exists bs,
    int_to_bytes n len e = Ok bs /\
    Z.of_nat (length bs) = len /\
    bytes_to_int bs e = n.
Proof.
  intros Hlen Hn. unfold int_to_bytes.
  destruct (Z.ltb_spec len 0) as [|_]; [lia|].
  destruct (Z.ltb_spec n 0) as [|_]; [lia|].
  destruct (Z.leb_spec (2 ^ (8 * len)) n) as [|_]; [lia|].
  cbn [orb].
  assert (Hc : le_combine (le_split (Z.to_nat len) n) = n).
  { rewrite le_combine_split, Z2Nat.id, Z.mul_comm by lia.
    apply Z.mod_small. lia. }
  assert (Hl : Z.of_nat (length (le_split (Z.to_nat len) n)) = len).
  { rewrite length_le_split. lia. }
  destruct e; eexists; (split; [reflexivity|]); cbn [bytes_to_int].
  - split; [exact Hl|exact Hc].
  - rewrite length_rev, rev_involutive. split; [exact Hl|exact Hc].
Qed.

Lemma int_to_bytes_roundtrip_witness :
  exists bs,
    int_to_bytes 0x56657273 4 big = Ok bs /\
    Z.of_nat (length bs) = 4 /\
    bytes_to_int bs big = 0x56657273.
Proof.
  apply (int_to_bytes_roundtrip 0x56657273 4 big); [lia|].
  split; [lia|reflexivity].
Defined.

Lemma bytes_to_int_bound (bs : bytes) (e : endian) :
  0 <= bytes_to_int bs e < 2 ^ (8 * Z.of_nat (length bs)).
Proof.
  destruct e; cbn [bytes_to_int].
  - apply le_combine_bound.
  - rewrite <- (length_rev bs). apply le_combine_bound.
Qed.

(** X2: the number read from a byte string is never negative, is below
    [256 ^ length], and written back on as many bytes in the same byte
    order it is the byte string again. *)
Theorem bytes_to_int_roundtrip (bs : bytes) (e : endian) :
  0 <= bytes_to_int bs e < 2 ^ (8 * Z.of_nat (length bs)) /\
  int_to_bytes (bytes_to_int bs e) (Z.of_nat (length bs)) e = Ok bs.
Proof.
  pose proof (bytes_to_int_bound bs e) as Hb. split; [exact Hb|].
  unfold int_to_bytes.
  destruct (Z.ltb_spec (Z.of_nat (length bs)) 0) as [|_]; [lia|].
  destruct (Z.ltb_spec (bytes_to_int bs e) 0) as [|_]; [lia|].
  destruct (Z.leb_spec (2 ^ (8 * Z.of_nat (length bs))) (bytes_to_int bs e))
    as [|_]; [lia|].
  cbn [orb]. rewrite Nat2Z.id.
  destruct e; cbn [bytes_to_int].
  - now rewrite split_le_combine.
  - rewrite <- (length_rev bs), split_le_combine. now rewrite rev_involutive.
Qed.

(** ** Padding *)

Lemma Ok_inj {A : Type} (x y : A) : Ok x = Ok y -> x = y.
Proof. intros E. now injection E. Qed.

(** X3: two digests of the same length with the same padded value are
    the same digest. *)
Theorem padding_injective (d d' : bytes) (k m : Z) :
  length d = length d' ->
  padding (hex d) k = Ok m -> padding (hex d') k = Ok m -> d = d'.
Proof.
  intros Hl. rewrite !padding_value, <- Hl. intros E E'.
  rewrite <- E' in E. apply Ok_inj in E.
  apply bytes_to_int_big_inj in E.
  - now apply emsa_inj in E.
  - unfold emsa. rewrite !length_app, Hl. reflexivity.
Qed.

Lemma padding_injective_witness :
  SHA1.sha1 (b "abc") = SHA1.sha1 (b "abc").
Proof.
  apply (padding_injective _ _ 64
           (bytes_to_int (emsa (SHA1.sha1 (b "abc")) 26) big)).
  - reflexivity.
  - vm_compute. reflexivity.
  - vm_compute. reflexivity.
Defined.

Lemma bytes_to_int_big_cons (x : byte) (l : bytes) :
  bytes_to_int (x :: l) big
  = byte.unsigned x * 2 ^ (8 * Z.of_nat (length l)) + bytes_to_int l big.
Proof.
  cbn [bytes_to_int rev]. rewrite le_combine_snoc, length_rev. ring.
Qed.

Lemma padding_range (d : bytes) (k : Z) :
  length d = 20%nat -> 38 <= k ->
  2 ^ (8 * k - 16)
    <= bytes_to_int (emsa d (k - Z.of_nat (length d) - 18)) big
    < 2 ^ (8 * k - 15).
Proof.
  intros Hd Hk. rewrite Hd. unfold emsa.
  cbn [app]. rewrite !bytes_to_int_big_cons.
  set (r := repeat Byte.xff _ ++ _).
  assert (Hr : Z.of_nat (length r) = k - 2).
  { unfold r. rewrite length_app, repeat_length. simpl length.
    rewrite Hd. lia. }
  pose proof (bytes_to_int_big_bound r) as Hb.
  cbn [length]. rewrite Nat2Z.inj_succ, Hr.
  change (byte.unsigned Byte.x00) with 0. change (byte.unsigned Byte.x01) with 1.
  rewrite Hr in Hb.
  replace (8 * (k - 2)) with (8 * k - 16) in * by lia.
  replace (8 * k - 15) with (Z.succ (8 * k - 16)) by lia.
  rewrite Z.pow_succ_r by lia. lia.
Qed.

(** X4: for a 20-byte digest and a length [k >= 38] the padded value has
    exactly [8 * k - 15] bits: it lies below every modulus of [8 * k] bits. *)
Theorem padding_bits (d : bytes) (k : Z) :
  length d = 20%nat -> 38 <= k ->
  exists m, padding (hex d) k = Ok m /\ 2 ^ (8 * k - 16) <= m < 2 ^ (8 * k - 15).
Proof.
  intros Hd Hk. rewrite padding_value. eexists. split; [reflexivity|].
  now apply padding_range.
Qed.

Lemma padding_bits_witness :
  exists m, padding (hex (SHA1.sha1 (b "abc"))) 64 = Ok m /\
            2 ^ (8 * 64 - 16) <= m < 2 ^ (8 * 64 - 15).
Proof.
  apply (padding_bits (SHA1.sha1 (b "abc")) 64); [reflexivity|lia].
Defined.

(** ** Signatures *)

Section KeyPair.

Variables (name : bytes) (bitlen e d p q dp dq qinv : Z).
Hypothesis prime_p : Z.prime p.
Hypothesis prime_q : Z.prime q.
Hypothesis distinct : p <> q.
Hypothesis e_nonneg : 0 <= e.
Hypothesis d_nonneg : 0 <= d.
Hypothesis inverse : (e * d) mod Z.lcm (p - 1) (q - 1) = 1.

Let pub := PublicKey.mk name bitlen e (p * q).
Let pkey := PrivateKey.mk pub d p q dp dq qinv.

Lemma modulus_pos : 0 < p * q.
Proof.
  pose proof (Z.prime_ge_2 p prime_p). pose proof (Z.prime_ge_2 q prime_q).
  nia.
Qed.

Lemma pow_returns (x y : Z) : 0 <= y -> pow x y (p * q) = Ok (x ^ y mod (p * q)).
Proof.
  intros Hy. unfold pow. pose proof modulus_pos.
  destruct (Z.eqb_spec (p * q) 0) as [|_]; [lia|].
  destruct (Z.ltb_spec y 0) as [|_]; [lia|]. reflexivity.
Qed.


Lemma verified_is_signed (hash_value : string) (sig : Z) :
  0 <= sig < p * q ->
  verify_hash pub hash_value sig = Ok true ->
  sign_hash pkey hash_value = Ok sig.
Proof.
  intros Hs. unfold verify_hash, sign_hash.
  cbn [pkey pub PrivateKey.public_key PrivateKey.private_exponent
       PublicKey.bitlen PublicKey.modulus PublicKey.public_exponent].
  destruct (padding hash_value (bitlen / 8)) as [m| |]; cbn [bind];
    try discriminate.
  rewrite !pow_returns by assumption. cbn [bind].
  intros E. apply Ok_inj in E. apply Z.eqb_eq in E. subst m.
  f_equal. pose proof modulus_pos.
  rewrite Z.mod_pow_l, <- Z.pow_mul_r by lia.
  rewrite (rsa_exponent_identity p q prime_p prime_q distinct e d)
    by assumption.
  apply Z.mod_small. exact Hs.
Qed.

End KeyPair.

(** X5: under an RSA key pair (two distinct primes, exponents inverse to
    each other modulo [lcm (p - 1) (q - 1)]) the only value in [[0, n)]
    that the check of [verify] accepts for a digest is the signature
    [sign] computes for it. *)
Theorem accepted_signature_unique (name : bytes)
    (bitlen e d p q dp dq qinv : Z) (hash_value : string) (sig : Z) :
  Z.prime p -> Z.prime q -> p <> q ->
  0 <= e -> 0 <= d ->
  (e * d) mod Z.lcm (p - 1) (q - 1) = 1 ->
  0 <= sig < p * q ->
  let pub := PublicKey.mk name bitlen e (p * q) in
  let pkey := PrivateKey.mk pub d p q dp dq qinv in
  verify_hash pub hash_value sig = Ok true ->
  sign_hash pkey hash_value = Ok sig.
Proof.
  intros Hp Hq Hpq He Hd Hed Hs pub pkey Hv.
  now apply verified_is_signed.
Qed.

Lemma pow_by_squaring (x y n : Z) :
  n <> 0 -> 0 <= y -> pow x y n = Ok (Zpow_mod x y n).
Proof.
  intros Hn Hy. unfold pow.
  destruct (Z.eqb_spec n 0) as [|_]; [contradiction|].
  destruct (Z.ltb_spec y 0) as [|_]; [lia|].
  rewrite Zpow_mod_correct by exact Hn. reflexivity.
Qed.

Lemma example_signature_accepted :
  verify_hash example_public_key (hex (SHA1.sha1 (Format.body example_format)))
    (Bisign.sig1 example_bisign) = Ok true.
Proof.
  rewrite verify_hash_value.
  rewrite pow_by_squaring by (vm_compute; discriminate).
  vm_compute. reflexivity.
Qed.

Lemma accepted_signature_unique_witness :
  sign_hash example_private_key (hex (SHA1.sha1 (Format.body example_format)))
  = Ok (Bisign.sig1 example_bisign).
Proof.
  apply (accepted_signature_unique (b "example") 512 example_e example_d
           example_p example_q
           (example_d mod (example_p - 1)) (example_d mod (example_q - 1))
           (Z.invmod example_q example_p)).
  - exact prime_example_p.
  - exact prime_example_q.
  - vm_compute. discriminate.
  - vm_compute. discriminate.
  - vm_compute. discriminate.
  - vm_compute. reflexivity.
  - vm_compute. split; [discriminate|reflexivity].
  - exact example_signature_accepted.
Defined.



(** ** Key and signature files *)

Lemma pack_I_u32 (x : Z) : Format.is_u32 x -> pack_I x = Ok (Format.u32 x).
Proof.
  intros [H0 H1]. unfold pack_I.
  destruct (Z.leb_spec 0 x) as [_|]; [|lia].
  destruct (Z.ltb_spec x (2 ^ 32)) as [_|]; [|lia]. reflexivity.
Qed.

Lemma pack_ns_all (x : bytes) : pack_ns (length x) x = x.
Proof.
  unfold pack_ns. rewrite firstn_app, firstn_all, Nat.sub_diag.
  apply app_nil_r.
Qed.

Lemma pack_key_head_ok (name : bytes) (len type : Z) (magic : bytes)
    (bitlen e : Z) :
  Format.is_u32 len -> 0 <= type < 256 -> length magic = 4%nat ->
  Format.is_u32 bitlen -> Format.is_u32 e ->
  pack_key_head name len type magic bitlen e
  = Ok (name ++ NUL
        :: (Format.u32 len ++ [byte.of_Z type; Byte.x02; NUL; NUL]
            ++ Format.u32 0x2400)
        ++ magic ++ (Format.u32 bitlen ++ Format.u32 e)).
Proof.
  intros Hl Ht Hm Hb He. unfold pack_key_head.
  rewrite !pack_I_u32 by (assumption || (split; lia)).
  unfold pack_B.
  destruct (Z.leb_spec 0 type) as [_|]; [|lia].
  destruct (Z.ltb_spec type 256) as [_|]; [|lia].
  cbn [bind andb Z.leb Z.ltb Z.compare Pos.compare Pos.compare_cont].
  rewrite pack_ns_all. f_equal.
  replace (pack_ns 4 magic) with magic
    by (rewrite <- Hm at 1; symmetry; apply pack_ns_all).
  cbn [pack_ns repeat firstn app]. rewrite <- !app_assoc. reflexivity.
Qed.

Lemma pack_number_ok (x n : Z) :
  0 <= n -> fits n x -> pack_number x n = Ok (le_split (Z.to_nat n) x).
Proof.
  intros Hn [H0 H1]. unfold pack_number, int_to_bytes.
  destruct (Z.ltb_spec n 0) as [|_]; [lia|].
  destruct (Z.ltb_spec x 0) as [|_]; [lia|].
  destruct (Z.leb_spec (2 ^ (8 * n)) x) as [|_]; [lia|].
  cbn [orb bind]. unfold pack_nB. rewrite length_le_split, Z2Nat.id by lia.
  now rewrite Z.eqb_refl.
Qed.

Lemma le_combine_fits (x n : Z) :
  0 <= n -> fits n x -> le_combine (le_split (Z.to_nat n) x) = x.
Proof.
  intros Hn [H0 H1].
  rewrite le_combine_split, Z2Nat.id, Z.mul_comm by lia.
  apply Z.mod_small. lia.
Qed.

Lemma unpack_II_u32 (x y : Z) :
  Format.is_u32 x -> Format.is_u32 y ->
  unpack_II (Format.u32 x ++ Format.u32 y) = Ok (x, y).
Proof.
  intros Hx Hy.
  rewrite <- (le_combine_u32 x Hx) at 2. rewrite <- (le_combine_u32 y Hy) at 2.
  pose proof (length_u32 x) as Lx. pose proof (length_u32 y) as Ly.
  destruct (Format.u32 x) as [|a0 [|a1 [|a2 [|a3 [|]]]]]; try discriminate.
  destruct (Format.u32 y) as [|c0 [|c1 [|c2 [|c3 [|]]]]]; try discriminate.
  reflexivity.
Qed.

Section ReadingKeys.

Variable f : File.t.
Hypothesis f_open : File.closed f = false.

Lemma read_number_at (q n : Z) (raw rest : bytes) :
  0 <= q ->
  skipn (Z.to_nat q) (File.content f) = raw ++ rest ->
  Z.of_nat (length raw) = n ->
  read_number (File.set_pos f q) n
    = Ok (le_combine raw, File.set_pos f (q + n)) /\
  skipn (Z.to_nat (q + n)) (File.content f) = rest.
Proof.
  intros Hq Hs Hn.
  destruct (read_at f f_open q n raw rest Hq Hs Hn) as [E S].
  split; [|exact S].
  unfold read_number. rewrite E. cbn [bind].
  unfold unpack_nB. rewrite Hn, Z.eqb_refl. reflexivity.
Qed.

(** Reading a public key: the twelve bytes after the name and the four
    bytes of the magic are read and not looked at. *)
Lemma public_key_at (q : Z) (k : PublicKey.t) (hdr magic rest : bytes)
    (fuel : nat) :
  0 <= q ->
  skipn (Z.to_nat q) (File.content f)
    = PublicKey.name k ++ NUL
      :: hdr ++ magic
      ++ (Format.u32 (PublicKey.bitlen k)
          ++ Format.u32 (PublicKey.public_exponent k))
      ++ le_split (Z.to_nat (PublicKey.bitlen k / 8)) (PublicKey.modulus k)
      ++ rest ->
  length hdr = 12%nat -> length magic = 4%nat ->
  public_key_ok k ->
  (length (PublicKey.name k) < fuel)%nat ->
  let q' := q + Z.of_nat (length (PublicKey.name k)) + 25
            + PublicKey.bitlen k / 8 in
  PublicKey._from_file fuel (File.set_pos f q) = Ok (k, File.set_pos f q') /\
  skipn (Z.to_nat q') (File.content f) = rest.
Proof.
  intros Hq Hs Hh Hm (Hname & Hb & He & Hmod) Hfuel.
  assert (Hk8 : 0 <= PublicKey.bitlen k / 8)
    by (apply Z.div_pos; [apply Hb|lia]).
  unfold PublicKey._from_file.
  destruct (unpack_at f f_open q _ _ fuel Hq Hs Hname Hfuel) as [E1 S1].
  rewrite E1. cbn [bind]. clear E1.
  set (q1 := q + Z.of_nat (length (PublicKey.name k)) + 1) in *.
  assert (Hq1 : 0 <= q1) by (unfold q1; lia).
  destruct (read_at f f_open q1 12 _ _ Hq1 S1 ltac:(rewrite Hh; reflexivity))
    as [E2 S2].
  rewrite E2. cbn [bind]. clear E2.
  unfold unpack_IBB2xI. rewrite Hh. cbn [Nat.eqb bind].
  destruct (read_at f f_open (q1 + 12) 4 _ _ ltac:(lia) S2
              ltac:(rewrite Hm; reflexivity)) as [E3 S3].
  rewrite E3. cbn [bind]. clear E3.
  unfold unpack_4s. rewrite Hm. cbn [Nat.eqb bind].
  destruct (read_at f f_open (q1 + 12 + 4) (4 + 4) _ _ ltac:(lia) S3
              ltac:(rewrite length_app, !length_u32; reflexivity)) as [E4 S4].
  rewrite E4. cbn [bind]. clear E4.
  rewrite unpack_II_u32 by assumption. cbn [bind].
  destruct (read_number_at (q1 + 12 + 4 + (4 + 4)) (PublicKey.bitlen k / 8)
              _ _ ltac:(lia) S4
              ltac:(rewrite length_le_split; lia)) as [E5 S5].
  rewrite E5. cbn [bind]. clear E5.
  rewrite le_combine_fits by (assumption || exact Hmod).
  replace (q1 + 12 + 4 + (4 + 4) + PublicKey.bitlen k / 8)
    with (q + Z.of_nat (length (PublicKey.name k)) + 25
          + PublicKey.bitlen k / 8) in * by (unfold q1; lia).
  split; [destruct k; reflexivity|exact S5].
Qed.

End ReadingKeys.

Lemma unpack_I_u32 (x : Z) : Format.is_u32 x -> unpack_I (Format.u32 x) = Ok x.
Proof.
  intros Hx. unfold unpack_I. rewrite length_u32. cbn [Nat.eqb].
  now rewrite le_combine_u32.
Qed.

Lemma open_at_0 (data : bytes) : File.set_pos (File.open data) 0 = File.open data.
Proof. reflexivity. Qed.

(** The bytes [PublicKey._export] writes, its four parts apart. *)
Lemma public_key_export (k : PublicKey.t) :
  public_key_ok k ->
  PublicKey._export k
  = Ok ((PublicKey.name k ++ NUL
         :: (Format.u32 (PublicKey.bitlen k / 8 + 20)
             ++ [Byte.x06; Byte.x02; NUL; NUL] ++ Format.u32 0x2400)
         ++ b "RSA1"
         ++ (Format.u32 (PublicKey.bitlen k)
             ++ Format.u32 (PublicKey.public_exponent k)))
        ++ le_split (Z.to_nat (PublicKey.bitlen k / 8)) (PublicKey.modulus k)).
Proof.
  intros (Hname & Hb & He & Hmod).
  assert (Hk8 : 0 <= PublicKey.bitlen k / 8 < 2 ^ 29).
  { destruct Hb. split; [apply Z.div_pos; lia|].
    apply Z.div_lt_upper_bound; lia. }
  unfold PublicKey._export.
  rewrite pack_key_head_ok;
    [|split; lia|lia|reflexivity|assumption|assumption].
  cbn [bind]. rewrite pack_number_ok by (lia || exact Hmod).
  reflexivity.
Qed.

(** X7: a public key that fits its file form is written by [_export] and
    read back by [_from_file] as the same key, and the reader stops
    right behind the key, whatever follows it in the file. *)
Theorem public_key_roundtrip (k : PublicKey.t) (rest : bytes) (fuel : nat) :
  public_key_ok k ->
  (length (PublicKey.name k) < fuel)%nat ->
  exists bs,
    PublicKey._export k = Ok bs /\
    PublicKey._from_file fuel (File.open (bs ++ rest))
    = Ok (k, File.set_pos (File.open (bs ++ rest)) (Z.of_nat (length bs))).
Proof.
  intros Hk Hfuel. rewrite (public_key_export k Hk).
  eexists. split; [reflexivity|].
  set (bs := _ ++ le_split _ _).
  destruct (public_key_at (File.open (bs ++ rest)) eq_refl 0 k
              (Format.u32 (PublicKey.bitlen k / 8 + 20)
               ++ [Byte.x06; Byte.x02; NUL; NUL] ++ Format.u32 0x2400)
              (b "RSA1") rest fuel) as [E _]; try assumption; try lia.
  - unfold bs. cbn [File.open File.content Z.to_nat skipn].
    rewrite <- !app_assoc. cbn [app]. rewrite <- !app_assoc. reflexivity.
  - rewrite !length_app, !length_u32. reflexivity.
  - reflexivity.
  - rewrite open_at_0 in E. rewrite E. repeat f_equal.
    destruct Hk as (_ & Hb & _).
    assert (0 <= PublicKey.bitlen k / 8) by (apply Z.div_pos; [apply Hb|lia]).
    unfold bs. rewrite !length_app. cbn [length].
    rewrite !length_app, !length_u32, length_le_split.
    change (length (b "RSA1")) with 4%nat.
    change (length [Byte.x06; Byte.x02; NUL; NUL]) with 4%nat. lia.
Qed.

Lemma public_key_roundtrip_witness :
  exists bs,
    PublicKey._export example_public_key = Ok bs /\
    PublicKey._from_file 10 (File.open (bs ++ []))
    = Ok (example_public_key,
          File.set_pos (File.open (bs ++ [])) (Z.of_nat (length bs))).
Proof.
  apply (public_key_roundtrip example_public_key [] 10).
  - repeat split; try (vm_compute; discriminate); try (vm_compute; reflexivity).
    apply not_in_nul. reflexivity.
  - vm_compute. lia.
Defined.

(** One number read where the stream holds it on [n] bytes. *)
Ltac number_step f :=
  match goal with
  | S : skipn (Z.to_nat ?q) (File.content f) = ?raw ++ ?rest
    |- context [read_number (File.set_pos f ?q) ?n] =>
      let E := fresh "E" in
      let S' := fresh "S" in
      destruct (read_number_at f eq_refl q n raw rest) as [E S'];
      [lia|exact S|rewrite length_le_split; lia|];
      rewrite E; cbn [bind];
      rewrite le_combine_fits by (lia || assumption);
      clear E S
  end.

(** X8: a private key that fits its file form is written by [_export]
    and read back by [_from_file] as the same key. *)
Theorem private_key_roundtrip (k : PrivateKey.t) (rest : bytes) (fuel : nat) :
  private_key_ok k ->
  (length (PublicKey.name (PrivateKey.public_key k)) < fuel)%nat ->
  exists bs,
    PrivateKey._export k = Ok bs /\
    PrivateKey._from_file fuel (File.open (bs ++ rest))
    = Ok (k, File.set_pos (File.open (bs ++ rest)) (Z.of_nat (length bs))).
Proof.
  intros (Hpub & Hd & Hp1 & Hp2 & He1 & He2 & Hc) Hfuel.
  pose proof Hpub as (Hname & Hb & He & Hmod).
  set (pk := PrivateKey.public_key k) in *.
  set (B := PublicKey.bitlen pk) in *.
  assert (Hk8 : 0 <= B / 8 < 2 ^ 29).
  { destruct Hb. split; [apply Z.div_pos; lia|].
    apply Z.div_lt_upper_bound; lia. }
  assert (Hk16 : 0 <= B / 16 < 2 ^ 28).
  { destruct Hb. split; [apply Z.div_pos; lia|].
    apply Z.div_lt_upper_bound; lia. }
  unfold PrivateKey._export. fold pk. fold B. cbv zeta.
  rewrite pack_key_head_ok;
    [|split; lia|lia|reflexivity|assumption|assumption].
  cbn [bind]. rewrite !pack_number_ok by (lia || assumption). cbn [bind].
  eexists. split; [reflexivity|].
  set (tail := le_split (Z.to_nat (B / 16)) (PrivateKey.prime1 k) ++ _).
  set (head := PublicKey.name pk ++ _).
  set (m := le_split (Z.to_nat (B / 8)) (PublicKey.modulus pk)).
  set (f := File.open ((head ++ m ++ tail) ++ rest)).
  destruct (public_key_at f eq_refl 0 pk
              (Format.u32 (B / 16 * 9 + 20)
               ++ [Byte.x07; Byte.x02; NUL; NUL] ++ Format.u32 0x2400)
              (b "RSA2") (tail ++ rest) fuel) as [E S]; try assumption; try lia.
  - unfold f, head, m. cbn [File.open File.content Z.to_nat skipn].
    rewrite <- !app_assoc. cbn [app]. rewrite <- !app_assoc. reflexivity.
  - rewrite !length_app, !length_u32. reflexivity.
  - reflexivity.
  - change (PrivateKey._from_file fuel f)
      with (PrivateKey._from_file fuel (File.set_pos f 0)).
    unfold PrivateKey._from_file. rewrite E. cbn [bind]. clear E.
    cbv zeta in S. fold B. fold B in S.
    unfold tail in S. rewrite <- !app_assoc in S.
    do 6 number_step f.
    f_equal. f_equal; [destruct k; reflexivity|]. f_equal.
    unfold head, m, tail. rewrite !length_app. cbn [length].
    rewrite !length_app, !length_u32, !length_le_split.
    change (length (b "RSA2")) with 4%nat.
    change (length [byte.of_Z 7; Byte.x02; NUL; NUL]) with 4%nat. lia.
Qed.

Lemma private_key_roundtrip_witness :
  exists bs,
    PrivateKey._export toy_private_key = Ok bs /\
    PrivateKey._from_file 10 (File.open (bs ++ []))
    = Ok (toy_private_key,
          File.set_pos (File.open (bs ++ [])) (Z.of_nat (length bs))).
Proof.
  apply (private_key_roundtrip toy_private_key [] 10).
  - repeat split; try (vm_compute; discriminate); try (vm_compute; reflexivity).
    apply not_in_nul. reflexivity.
  - vm_compute. lia.
Defined.

Lemma pack_sig_ok (sig n : Z) :
  Format.is_u32 n -> fits n sig ->
  Bisign.pack_sig sig n = Ok (Format.u32 n ++ le_split (Z.to_nat n) sig).
Proof.
  intros Hn [H0 H1]. unfold Bisign.pack_sig, int_to_bytes.
  destruct Hn as [Hn0 Hn1].
  destruct (Z.ltb_spec n 0) as [|_]; [lia|].
  destruct (Z.ltb_spec sig 0) as [|_]; [lia|].
  destruct (Z.leb_spec (2 ^ (8 * n)) sig) as [|_]; [lia|].
  cbn [orb bind]. rewrite pack_I_u32 by (split; lia). cbn [bind].
  unfold pack_nB. rewrite length_le_split, Z2Nat.id by lia.
  now rewrite Z.eqb_refl.
Qed.

(** X9: a signature whose key and three values fit the file form is
    written by [_export] and read back by [_from_file] as the same
    signature: the key, the version and the three values. *)
Theorem bisign_roundtrip (s : Bisign.t) (rest : bytes) (fuel : nat) :
  bisign_ok s ->
  (length (PublicKey.name (Bisign.public_key s)) < fuel)%nat ->
  exists bs,
    Bisign._export s = Ok bs /\
    Bisign._from_file fuel (File.open (bs ++ rest))
    = Ok (s, File.set_pos (File.open (bs ++ rest)) (Z.of_nat (length bs))).
Proof.
  intros (Hpub & H1 & H2 & H3 & Hver) Hfuel.
  pose proof Hpub as (Hname & Hb & He & Hmod).
  set (pk := Bisign.public_key s) in *.
  set (L := PublicKey.bitlen pk / 8) in *.
  assert (HL : 0 <= L < 2 ^ 29).
  { destruct Hb. split; [apply Z.div_pos; lia|].
    apply Z.div_lt_upper_bound; lia. }
  assert (HLu : Format.is_u32 L) by (split; lia).
  unfold Bisign._export. fold pk. fold L.
  rewrite (public_key_export pk Hpub). cbn [bind]. fold L.
  rewrite !pack_sig_ok by assumption. cbn [bind].
  rewrite pack_I_u32 by assumption. cbn [bind].
  eexists. split; [reflexivity|].
  set (key := (PublicKey.name pk ++ _) ++ le_split _ _).
  set (tail := (Format.u32 L ++ le_split _ (Bisign.sig1 s)) ++ _).
  set (f := File.open ((key ++ tail) ++ rest)).
  destruct (public_key_at f eq_refl 0 pk
              (Format.u32 (L + 20)
               ++ [Byte.x06; Byte.x02; NUL; NUL] ++ Format.u32 0x2400)
              (b "RSA1") (tail ++ rest) fuel) as [E S]; try assumption; try lia.
  - unfold f, key. cbn [File.open File.content Z.to_nat skipn].
    rewrite <- !app_assoc. cbn [app]. rewrite <- !app_assoc. reflexivity.
  - rewrite !length_app, !length_u32. reflexivity.
  - reflexivity.
  - change (Bisign._from_file fuel f)
      with (Bisign._from_file fuel (File.set_pos f 0)).
    unfold Bisign._from_file. rewrite E. cbn [bind]. clear E.
    cbv zeta in S. fold L. fold L in S.
    unfold tail in S. rewrite <- !app_assoc in S.
    set (q0 := 0 + Z.of_nat (length (PublicKey.name pk)) + 25 + L) in *.
    assert (Hq0 : 0 <= q0) by (unfold q0; lia).
    destruct (read_at f eq_refl q0 4 _ _ Hq0 S (f_equal Z.of_nat (length_u32 L)))
      as [E1 S1].
    rewrite E1. cbn [bind]. clear E1 S.
    rewrite unpack_I_u32 by assumption. cbn [bind].
    number_step f.
    rewrite (app_assoc (Format.u32 (Bisign.version s))) in S.
    destruct (read_at f eq_refl (q0 + 4 + L) 8 _ _ ltac:(lia) S
                ltac:(rewrite length_app, !length_u32; reflexivity))
      as [E2 S2].
    rewrite E2. cbn [bind]. clear E2 S.
    rewrite unpack_II_u32 by assumption. cbn [bind].
    number_step f.
    destruct (read_at f eq_refl (q0 + 4 + L + 8 + L) 4 _ _ ltac:(lia) S
                (f_equal Z.of_nat (length_u32 L))) as [E3 S3].
    rewrite E3. cbn [bind]. clear E3 S.
    rewrite unpack_I_u32 by assumption. cbn [bind].
    number_step f.
    f_equal. f_equal; [destruct s; reflexivity|]. f_equal.
    unfold q0, key, tail. rewrite !length_app. cbn [length].
    rewrite !length_app, !length_u32, !length_le_split.
    change (length (b "RSA1")) with 4%nat.
    change (length [Byte.x06; Byte.x02; NUL; NUL]) with 4%nat. lia.
Qed.

Lemma bisign_roundtrip_witness :
  exists bs,
    Bisign._export example_bisign = Ok bs /\
    Bisign._from_file 10 (File.open (bs ++ []))
    = Ok (example_bisign,
          File.set_pos (File.open (bs ++ [])) (Z.of_nat (length bs))).
Proof.
  apply (bisign_roundtrip example_bisign [] 10).
  - repeat split; try (vm_compute; discriminate); try (vm_compute; reflexivity).
    apply not_in_nul. reflexivity.
  - vm_compute. lia.
Defined.

(** ** Reading strings and records *)

(** X10: on an open file whose bytes from the current position on are a
    NUL-free string [s], a NUL and anything, [unpack_asciiz] returns [s]
    and leaves the file right behind the NUL. *)
Theorem unpack_asciiz_reads (f : File.t) (s rest : bytes) (fuel : nat) :
  File.closed f = false ->
  0 <= File.pos f ->
  skipn (Z.to_nat (File.pos f)) (File.content f) = s ++ NUL :: rest ->
  ~ In NUL s ->
  (length s < fuel)%nat ->
  exists f',
    unpack_asciiz fuel f = Ok (s, f') /\
    File.tell f' = Ok (File.pos f + Z.of_nat (length s) + 1) /\
    File.content f' = File.content f /\
    skipn (Z.to_nat (File.pos f')) (File.content f') = rest.
Proof.
  intros Hc Hp Hs Hn Hfuel.
  rewrite (unpack_asciiz_ok f s rest fuel Hc Hp Hs Hn Hfuel).
  eexists. split; [reflexivity|].
  unfold File.tell. rewrite closed_set_pos, Hc, pos_set_pos, content_set_pos.
  split; [reflexivity|]. split; [reflexivity|].
  replace (Z.to_nat (File.pos f + Z.of_nat (length s) + 1))
    with (Z.to_nat (File.pos f) + length (s ++ [NUL]))%nat
    by (rewrite length_app; cbn [length]; lia).
  apply skipn_after. rewrite <- app_assoc. exact Hs.
Qed.

Lemma unpack_asciiz_reads_witness :
  exists f',
    unpack_asciiz 10 (File.mk (b "prefix" ++ NUL :: b "myAddon") 0 false 0)
      = Ok (b "prefix", f') /\
    File.tell f' = Ok (0 + Z.of_nat (length (b "prefix")) + 1) /\
    File.content f' = b "prefix" ++ NUL :: b "myAddon" /\
    skipn (Z.to_nat (File.pos f')) (File.content f') = b "myAddon".
Proof.
  apply (unpack_asciiz_reads
           (File.mk (b "prefix" ++ NUL :: b "myAddon") 0 false 0)
           (b "prefix") (b "myAddon") 10).
  - reflexivity.
  - cbn. lia.
  - reflexivity.
  - apply not_in_nul. reflexivity.
  - cbn. lia.
Defined.

(** X11: a stream that ends inside the twenty bytes of numbers of the
    leading record makes [from_file] raise [struct.error]. *)
Theorem from_file_short_record (s raw : bytes) (fuel : nat) :
  ~ In NUL s ->
  (length raw < 20)%nat ->
  (length s < fuel)%nat ->
  PboFile.from_file fuel (File.open (s ++ NUL :: raw)) = Raise StructError.
Proof.
  intros Hs Hraw Hfuel. unfold PboFile.from_file.
  set (f := File.open (s ++ NUL :: raw)).
  rewrite (unpack_asciiz_ok f s raw fuel eq_refl ltac:(cbn; lia) eq_refl
             Hs Hfuel).
  cbn [bind].
  rewrite file_read_inside by (file_simpl; auto; lia).
  cbn [bind]. file_simpl.
  assert (Hl : length (slice (s ++ NUL :: raw) (0 + Z.of_nat (length s) + 1) 20)
               = length raw).
  { unfold slice.
    replace (Z.to_nat (0 + Z.of_nat (length s) + 1))
      with (length (s ++ [NUL]))
      by (rewrite length_app; cbn [length]; lia).
    replace (s ++ NUL :: raw) with ((s ++ [NUL]) ++ raw)
      by (rewrite <- app_assoc; reflexivity).
    rewrite skipn_app, skipn_all, Nat.sub_diag. cbn [skipn app].
    f_equal. apply firstn_all2. change (Z.to_nat 20) with 20%nat. lia. }
  unfold unpack_IIIII. cbn [File.open File.content f].
  change (File.pos f) with 0.
  rewrite Hl.
  destruct (Nat.eqb_spec (length raw) 20) as [|_]; [lia|]. reflexivity.
Qed.

Lemma from_file_short_record_witness :
  PboFile.from_file 5 (File.open ([] ++ NUL :: firstn 7 (Format.u32 0x56657273)))
  = Raise StructError.
Proof.
  apply (from_file_short_record [] (firstn 7 (Format.u32 0x56657273)) 5).
  - intros [].
  - vm_compute. lia.
  - vm_compute. lia.
Defined.

(** ** Selection for the file hash *)

(** X12: with a signature version other than 2 and 3 the file hash
    raises [ValueError], whatever the archive holds: at its first member
    when it has one, after the loop when it has none. *)
Theorem filehash_unknown_version (fuel : nat) (p : PboFile.t) (version : Z) :
  version <> 2 -> version <> 3 ->
  PboFile._filehash fuel p version = Raise ValueError.
Proof.
  intros H2 H3. unfold PboFile._filehash.
  apply Z.eqb_neq in H2. apply Z.eqb_neq in H3.
  destruct (PboFile.filedict p) as [|[k info] d].
  - cbn [PboFile.filehash_loop bind]. now rewrite H2, H3.
  - cbn [PboFile.filehash_loop]. unfold PboFile.filehash_member.
    unfold PboInfo.check_file_hash. now rewrite H2, H3.
Qed.

Lemma filehash_unknown_version_witness :
  PboFile._filehash 200 example_pbo 4 = Raise ValueError.
Proof.
  apply (filehash_unknown_version 200 example_pbo 4); discriminate.
Defined.

Lemma endswith1_split (s suffix : bytes) :
  endswith1 s suffix = true -> exists pre, s = pre ++ suffix.
Proof.
  unfold endswith1. intros H. apply andb_prop in H as [_ H].
  apply bytes_eqb_eq in H.
  remember (length s - length suffix)%nat as n.
  exists (firstn n s). rewrite <- H. symmetry. apply firstn_skipn.
Qed.

(** No name ends both in a suffix that version 3 hashes and in one that
    version 2 leaves out. *)
Lemma suffix_lists_disjoint (s : bytes) :
  endswith s PboInfo.v3_included = true ->
  endswith s PboInfo.v2_excluded = false.
Proof.
  unfold endswith. intros H.
  apply existsb_exists in H as (suf3 & Hin3 & H3).
  apply endswith1_split in H3 as [pre ->].
  destruct (existsb _ PboInfo.v2_excluded) eqn:E; [exfalso|reflexivity].
  apply existsb_exists in E as (suf2 & Hin2 & H2).
  apply endswith1_split in H2 as [pre' H2].
  apply (f_equal (@rev byte)) in H2. rewrite !rev_app_distr in H2.
  vm_compute in Hin3. vm_compute in Hin2.
  repeat (destruct Hin3 as [<-|Hin3]); try contradiction;
    repeat (destruct Hin2 as [<-|Hin2]); try contradiction;
    cbn [rev app] in H2; congruence.
Qed.

(** X13: every member version 3 takes into the file hash is taken by
    version 2 as well. *)
Theorem v3_selection_within_v2 (i : PboInfo.t) :
  PboInfo.check_file_hash i 3 = Ok true ->
  PboInfo.check_file_hash i 2 = Ok true.
Proof.
  unfold PboInfo.check_file_hash. cbn [Z.eqb Pos.eqb].
  destruct (PboInfo.get_data_size i) as [sz| |]; cbn [bind]; try discriminate.
  intros E. apply Ok_inj in E. apply andb_prop in E as [Hsz Hsuf].
  now rewrite Hsz, (suffix_lists_disjoint _ Hsuf).
Qed.

Lemma v3_selection_within_v2_witness :
  PboInfo.check_file_hash (PboInfo.init (b "Scripts\Init.SQF") 0 0 0 0 12 None) 2
  = Ok true.
Proof.
  apply (v3_selection_within_v2
           (PboInfo.init (b "Scripts\Init.SQF") 0 0 0 0 12 None)).
  reflexivity.
Defined.

(** ** The name hash and the order of the members *)

Lemma bytes_le_antisym (x y : bytes) : bytes_le x y -> bytes_le y x -> x = y.
Proof.
  unfold bytes_le, bytes_leb. intros H1 H2.
  apply negb_true_iff in H1. apply negb_true_iff in H2.
  now apply bytes_ltb_total.
Qed.

(** Two ascending lists with the same elements are the same list. *)
Lemma sorted_unique (l1 : list bytes) : forall l2,
  StronglySorted bytes_le l1 -> StronglySorted bytes_le l2 ->
  Permutation l1 l2 -> l1 = l2.
Proof.
  induction l1 as [|x l1 IH]; intros l2 S1 S2 P.
  - apply Permutation_nil in P. now subst.
  - destruct l2 as [|y l2].
    { apply Permutation_sym, Permutation_nil in P. discriminate. }
    apply StronglySorted_inv in S1 as [S1 F1].
    apply StronglySorted_inv in S2 as [S2 F2].
    rewrite Forall_forall in F1, F2.
    assert (Hxy : x = y).
    { assert (Hx : In x (y :: l2))
        by (apply (Permutation_in _ P); left; reflexivity).
      assert (Hy : In y (x :: l1))
        by (apply (Permutation_in _ (Permutation_sym P)); left; reflexivity).
      destruct Hx as [Hx|Hx]; [now subst|].
      destruct Hy as [Hy|Hy]; [now subst|].
      apply bytes_le_antisym; auto. }
    subst y. f_equal. apply IH; try assumption.
    now apply Permutation_cons_inv in P.
Qed.

(** X14: the name hash does not depend on the order in which the
    archive holds its members. *)
Theorem namehash_order_independent (p p' : PboFile.t) :
  Forall readable (PboFile.infolist p) ->
  Permutation (PboFile.infolist p) (PboFile.infolist p') ->
  exists h, PboFile._namehash p = Ok h /\ PboFile._namehash p' = Ok h.
Proof.
  intros Hr P.
  assert (Hr' : Forall readable (PboFile.infolist p'))
    by (apply (Permutation_Forall P); exact Hr).
  unfold PboFile._namehash. fold lower_name.
  rewrite !namehash_loop;
    try (apply (Permutation_Forall (Permutation_sym (sorted_perm _ _)));
         assumption).
  eexists. split; [reflexivity|]. do 3 f_equal.
  apply sorted_unique.
  - apply map_sorted, filter_sorted, sorted_sorted.
  - apply map_sorted, filter_sorted, sorted_sorted.
  - apply Permutation_map, filter_perm.
    eapply perm_trans; [apply sorted_perm|].
    eapply perm_trans; [|apply Permutation_sym, sorted_perm].
    apply Permutation_sym. exact P.
Qed.

Lemma namehash_order_independent_witness :
  exists h,
    PboFile._namehash example_pbo = Ok h /\
    PboFile._namehash example_pbo_reversed = Ok h.
Proof.
  apply (namehash_order_independent example_pbo example_pbo_reversed).
  - repeat constructor.
  - vm_compute. apply perm_swap.
Defined.

(** ** The checksum of a written archive *)

Lemma while_invariant {S : Type} (cond : S -> bool) (body : S -> res S)
    (Inv : S -> Prop) :
  (forall s s', Inv s -> body s = Ok s' -> Inv s') ->
  forall fuel s s', Inv s -> while fuel cond body s = Ok s' -> Inv s'.
Proof.
  intros Hbody. induction fuel as [|fuel IH]; intros s s' Hs; cbn [while].
  - discriminate.
  - destruct (cond s).
    + destruct (body s) as [s1| |] eqn:E; cbn [bind]; try discriminate.
      apply IH. now apply (Hbody s).
    + intros E. apply Ok_inj in E. now subst.
Qed.

Lemma for_each_invariant {A S : Type} (body : A -> S -> res S)
    (Inv : S -> Prop) :
  (forall x s s', Inv s -> body x s = Ok s' -> Inv s') ->
  forall xs s s', Inv s -> for_each xs body s = Ok s' -> Inv s'.
Proof.
  intros Hbody. induction xs as [|x xs IH]; intros s s' Hs; cbn [for_each].
  - intros E. apply Ok_inj in E. now subst.
  - destruct (body x s) as [s1| |] eqn:E; cbn [bind]; try discriminate.
    apply IH. now apply (Hbody x s).
Qed.

(** Copying a member feeds the hash what it writes. *)
Lemma export_member_same (fuel : nat) (kv : bytes * PboInfo.t)
    (st st' : hashobj * bytes * PboFile.t) :
  fst (fst st) = snd (fst st) ->
  PboFile.export_member fuel kv st = Ok st' ->
  fst (fst st') = snd (fst st').
Proof.
  destruct st as [[h out] p], kv as [k v]. cbn [fst snd]. intros ->.
  unfold PboFile.export_member.
  destruct (member_read _ _ _) as [[[data fp] f]| |]; cbn [bind];
    try discriminate.
  destruct (while _ _ _ _) as [[[[[h' out'] data'] fp'] f']| |] eqn:W;
    cbn [bind]; try discriminate.
  intros E. apply Ok_inj in E. subst st'. cbn [fst snd].
  apply (while_invariant _ _
           (fun s : hashobj * bytes * bytes * option File.t * member =>
              let '(h, out, _, _, _) := s in h = out)) in W;
    [exact W| |reflexivity].
  intros [[[[h1 o1] d1] fp1] f1] s' ->.
  destruct (member_read _ _ _) as [[[d2 fp2] f2]| |]; cbn [bind];
    try discriminate.
  intros E. apply Ok_inj in E. subst s'. reflexivity.
Qed.

(** X15: whatever archive [_export] writes, the output ends in a NUL and
    the SHA-1 of everything in front of that NUL, and [hash1] computed
    on the written file is the hash of exactly those bytes: its digest
    is the stored checksum. *)
Theorem export_checksum (fuel fuel' : nat) (p : PboFile.t)
    (r : bytes * PboFile.t) :
  PboFile._export fuel p = Ok r ->
  (length (fst r) < fuel')%nat ->
  exists body,
    fst r = body ++ NUL :: SHA1.sha1 body /\
    PboFile.hash1 fuel' (Some (File.open (fst r)))
    = Ok (body, Some (File.open (fst r))).
Proof.
  unfold PboFile._export.
  destruct (pack_IIIII _) as [h1| |]; cbn [bind]; try discriminate.
  destruct (for_each (PboFile.header_extension p) _ _) as [hd1| |];
    cbn [bind]; try discriminate.
  destruct (for_each (sorted fst (PboFile.filedict p)) _ _) as [hd2| |];
    cbn [bind]; try discriminate.
  destruct (for_each _ (PboFile.export_member fuel) _)
    as [[[h out] p1]| |] eqn:L; cbn [bind]; try discriminate.
  apply (for_each_invariant _
           (fun s : hashobj * bytes * PboFile.t => fst (fst s) = snd (fst s))
           (export_member_same fuel)) in L; [|reflexivity].
  cbn [fst snd] in L. subst out.
  rewrite long16_hexdigest. cbn [bind]. rewrite int_to_bytes_digest.
  cbn [bind]. intros E Hfuel. apply Ok_inj in E. subst r. cbn [fst] in *.
  exists h. split; [reflexivity|].
  set (f := File.open (h ++ [NUL] ++ SHA1.sha1 h)).
  assert (Hsize : File.size f = Z.of_nat (length h) + 21).
  { unfold File.size, f. cbn [File.open File.content].
    rewrite !length_app, sha1_length. cbn [length]. lia. }
  rewrite (hash1_returns f fuel' eq_refl ltac:(cbn; lia) ltac:(lia));
    [|rewrite Hsize; rewrite length_app in Hfuel; lia].
  rewrite Hsize. f_equal. f_equal.
  replace (Z.to_nat (Z.of_nat (length h) + 21 - 21)) with (length h) by lia.
  unfold f. cbn [File.open File.content].
  rewrite firstn_app, firstn_all, Nat.sub_diag. cbn [firstn].
  apply app_nil_r.
Qed.

Lemma export_checksum_witness :
  exists body,
    fst example_export = body ++ NUL :: SHA1.sha1 body /\
    PboFile.hash1 200 (Some (File.open (fst example_export)))
    = Ok (body, Some (File.open (fst example_export))).
Proof.
  apply (export_checksum 200 200 example_pbo example_export).
  - vm_compute. reflexivity.
  - vm_compute. lia.
Defined.

(** ** Adding, finding and deleting members *)

Lemma odict_get_none {V : Type} (d : list (bytes * V)) (k : bytes) :
  odict_get d k = None <-> ~ In k (map fst d).
Proof.
  induction d as [|[k' v'] d IH]; cbn [odict_get map fst In].
  - tauto.
  - destruct (bytes_eqb k' k) eqn:E.
    + apply bytes_eqb_eq in E. split; [discriminate|]. intros H.
      exfalso. apply H. now left.
    + apply bytes_eqb_neq in E. rewrite IH. tauto.
Qed.

Lemma odict_get_set_same {V : Type} (d : list (bytes * V)) (k : bytes) (v : V) :
  odict_get (odict_set d k v) k = Some v.
Proof.
  induction d as [|[k' v'] d IH]; cbn [odict_set odict_get].
  - now rewrite bytes_eqb_refl.
  - destruct (bytes_eqb k' k) eqn:E; cbn [odict_get]; now rewrite E.
Qed.

Lemma odict_get_set_other {V : Type} (d : list (bytes * V)) (k k' : bytes)
    (v : V) :
  k' <> k -> odict_get (odict_set d k v) k' = odict_get d k'.
Proof.
  intros Hne. induction d as [|[k0 v0] d IH]; cbn [odict_set odict_get].
  - destruct (bytes_eqb k k') eqn:E; [|reflexivity].
    apply bytes_eqb_eq in E. congruence.
  - destruct (bytes_eqb k0 k) eqn:E; cbn [odict_get].
    + apply bytes_eqb_eq in E. subst k0.
      destruct (bytes_eqb k k') eqn:E'; [|reflexivity].
      apply bytes_eqb_eq in E'. congruence.
    + now rewrite IH.
Qed.

Lemma odict_pop_fresh {V : Type} (d : list (bytes * V)) (k : bytes) (v : V) :
  ~ In k (map fst d) -> odict_pop (d ++ [(k, v)]) k = Some (v, d).
Proof.
  induction d as [|[k' v'] d IH]; cbn [map fst In app odict_pop]; intros Hn.
  - now rewrite bytes_eqb_refl.
  - destruct (bytes_eqb k' k) eqn:E.
    + apply bytes_eqb_eq in E. tauto.
    + rewrite IH by tauto. reflexivity.
Qed.

(** X16: a name the archive does not hold yet is added at the end of
    the name list; it is then found with the file object given and the
    sizes still unset, every other name is found as before, and adding
    the name once more raises [KeyError]. *)
Theorem add_then_getinfo (p : PboFile.t) (name : bytes) (file : File.t) :
  ~ In name (PboFile.namelist p) ->
  exists p',
    PboFile.add p name file = Ok p' /\
    PboFile.namelist p' = PboFile.namelist p ++ [name] /\
    PboFile.getinfo p' name
      = Ok (PboInfo.init name 0 0 0 0 (-1) (Some file)) /\
    (forall other, other <> name ->
       PboFile.getinfo p' other = PboFile.getinfo p other) /\
    PboFile.add p' name file = Raise KeyError.
Proof.
  intros Hn. unfold PboFile.add, PboFile.namelist in *.
  rewrite (proj2 (odict_get_none _ _) Hn).
  eexists. split; [reflexivity|].
  unfold PboFile.getinfo. cbn [PboFile.set_state PboFile.filedict].
  rewrite odict_get_set_same.
  repeat split.
  - rewrite odict_set_fresh by exact Hn. rewrite map_app. reflexivity.
  - intros other Hne. now rewrite odict_get_set_other.
Qed.

Lemma add_then_getinfo_witness :
  exists p',
    PboFile.add example_pbo (b "mission.sqm") (File.open (b "version=12;"))
      = Ok p' /\
    PboFile.namelist p' = PboFile.namelist example_pbo ++ [b "mission.sqm"] /\
    PboFile.getinfo p' (b "mission.sqm")
      = Ok (PboInfo.init (b "mission.sqm") 0 0 0 0 (-1)
              (Some (File.open (b "version=12;")))) /\
    (forall other, other <> b "mission.sqm" ->
       PboFile.getinfo p' other = PboFile.getinfo example_pbo other) /\
    PboFile.add p' (b "mission.sqm") (File.open (b "version=12;"))
      = Raise KeyError.
Proof.
  apply (add_then_getinfo example_pbo (b "mission.sqm")
           (File.open (b "version=12;"))).
  vm_compute. intros [H|[H|[]]]; discriminate.
Defined.

(** X17: deleting the member just added gives the archive back as it
    was, and returns the member. *)
Theorem add_then_delete (p : PboFile.t) (name : bytes) (file : File.t) :
  ~ In name (PboFile.namelist p) ->
  exists p' info,
    PboFile.add p name file = Ok p' /\
    PboFile.getinfo p' name = Ok info /\
    PboFile.delete p' info = Ok (info, p).
Proof.
  intros Hn. unfold PboFile.add, PboFile.namelist in *.
  rewrite (proj2 (odict_get_none _ _) Hn).
  eexists. eexists. split; [reflexivity|].
  unfold PboFile.getinfo, PboFile.delete.
  cbn [PboFile.set_state PboFile.filedict PboFile.fp PboFile.header
       PboFile.header_extension].
  rewrite odict_get_set_same. split; [reflexivity|].
  cbn [PboInfo.init PboInfo.filename].
  rewrite odict_set_fresh by exact Hn.
  rewrite odict_pop_fresh by exact Hn.
  destruct p. reflexivity.
Qed.

Lemma add_then_delete_witness :
  exists p' info,
    PboFile.add example_pbo (b "mission.sqm") (File.open (b "version=12;"))
      = Ok p' /\
    PboFile.getinfo p' (b "mission.sqm") = Ok info /\
    PboFile.delete p' info = Ok (info, example_pbo).
Proof.
  apply (add_then_delete example_pbo (b "mission.sqm")
           (File.open (b "version=12;"))).
  vm_compute. intros [H|[H|[]]]; discriminate.
Defined.

Lemma odict_pop_some {V : Type} (d : list (bytes * V)) (k : bytes) (v : V) :
  odict_get d k = Some v ->
  exists d',
    odict_pop d k = Some (v, d') /\
    (NoDup (map fst d) -> odict_get d' k = None) /\
    (forall k', k' <> k -> odict_get d' k' = odict_get d k') /\
    S (length d') = length d.
Proof.
  induction d as [|[k0 v0] d IH]; cbn [odict_get odict_pop]; [discriminate|].
  destruct (bytes_eqb k0 k) eqn:E.
  - intros H. injection H as <-. apply bytes_eqb_eq in E. subst k0.
    exists d. split; [reflexivity|]. split; [|split; [|reflexivity]].
    + cbn [map fst]. intros Hnd. apply NoDup_cons_iff in Hnd as [Hnin _].
      now apply odict_get_none.
    + intros k' Hne. cbn [odict_get].
      destruct (bytes_eqb k k') eqn:E'; [|reflexivity].
      apply bytes_eqb_eq in E'. congruence.
  - intros H. destruct (IH H) as (d' & Hp & Hg & Ho & Hl).
    rewrite Hp. eexists. split; [reflexivity|].
    cbn [odict_get length map fst]. rewrite E. split; [|split].
    + intros Hnd. apply NoDup_cons_iff in Hnd as [_ Hnd]. auto.
    + intros k' Hne. rewrite (Ho k' Hne). reflexivity.
    + now rewrite Hl.
Qed.

(** X18: deleting a member the archive holds returns it and leaves an
    archive with one name less, in which that name is no longer found
    and every other name is found as before. *)
Theorem delete_member (p : PboFile.t) (info v : PboInfo.t) :
  NoDup (PboFile.namelist p) ->
  PboFile.getinfo p (PboInfo.filename info) = Ok v ->
  exists p',
    PboFile.delete p info = Ok (v, p') /\
    PboFile.getinfo p' (PboInfo.filename info) = Raise KeyError /\
    (forall other, other <> PboInfo.filename info ->
       PboFile.getinfo p' other = PboFile.getinfo p other) /\
    S (length (PboFile.namelist p')) = length (PboFile.namelist p).
Proof.
  unfold PboFile.getinfo, PboFile.delete, PboFile.namelist.
  intros Hnd Hg.
  destruct (odict_get (PboFile.filedict p) (PboInfo.filename info))
    as [v'|] eqn:E; [|discriminate].
  apply Ok_inj in Hg. subst v'.
  destruct (odict_pop_some _ _ _ E) as (d' & Hp & Hnone & Hother & Hl).
  rewrite Hp. eexists. split; [reflexivity|].
  cbn [PboFile.set_state PboFile.filedict].
  rewrite (Hnone Hnd). split; [reflexivity|]. split.
  - intros other Hne. now rewrite Hother.
  - now rewrite !length_map.
Qed.

Lemma delete_member_witness :
  exists p',
    PboFile.delete example_pbo
      (PboInfo.init (b "init.sqf") 0 0 0 0 0 None)
    = Ok (PboInfo.mk (b "init.sqf") 0 0 0 1000 10 None 103, p') /\
    PboFile.getinfo p' (b "init.sqf") = Raise KeyError /\
    (forall other, other <> b "init.sqf" ->
       PboFile.getinfo p' other = PboFile.getinfo example_pbo other) /\
    S (length (PboFile.namelist p')) = length (PboFile.namelist example_pbo).
Proof.
  apply (delete_member example_pbo
           (PboInfo.init (b "init.sqf") 0 0 0 0 0 None)
           (PboInfo.mk (b "init.sqf") 0 0 0 1000 10 None 103)).
  - vm_compute. repeat constructor; cbn; intuition discriminate.
  - vm_compute. reflexivity.
Defined.

(** ** Views of archived members *)

(** Seeking the backing file to a position that is not negative. *)
Lemma backing_seek (bk : File.t) (info : PboInfo.t) (t : Z) :
  File.closed bk = false ->
  0 <= t ->
  (fp <- File.seek bk t 0 ;;
   p <- File.tell fp ;;
   Ok (Some fp, PboExtFile.mk info p))
  = Ok (Some (File.set_pos bk t), PboExtFile.mk info t).
Proof.
  intros Hc Ht. unfold File.seek. rewrite Hc. cbn [Z.eqb].
  destruct (Z.ltb_spec t 0) as [|_]; [lia|]. cbn [bind].
  unfold File.tell. rewrite closed_set_pos, Hc, pos_set_pos. reflexivity.
Qed.

(** [seek(o)] with [o] not negative: the view and the backing file stand
    [o] bytes behind the start of the member. *)
Lemma seek_from_start (bk : File.t) (x : PboExtFile.t) (o : Z) :
  File.closed bk = false ->
  0 <= PboInfo.data_offset (PboExtFile.info x) ->
  0 <= o ->
  exists x',
    PboExtFile.seek (Some bk) x o 0
    = Ok (Some (File.set_pos bk
                  (PboInfo.data_offset (PboExtFile.info x) + 0 + o)), x') /\
    PboExtFile.info x' = PboExtFile.info x /\
    PboExtFile.tell x' = 0 + o.
Proof.
  intros Hc Hoff Ho. unfold PboExtFile.seek. cbn [Z.eqb bind].
  set (off := PboInfo.data_offset (PboExtFile.info x)) in *.
  destruct (Z.ltb_spec (o + off) off) as [|_]; [lia|].
  rewrite backing_seek by (try exact Hc; lia). eexists.
  split; [apply f_equal, (f_equal2 pair); [do 2 f_equal; lia|reflexivity]|].
  split; [reflexivity|]. unfold PboExtFile.tell.
  cbn [PboExtFile.pos PboExtFile.info]. fold off. lia.
Qed.

(** X19: [seek] counts from the start of the member, from the position
    of the view or from the end of the member.  A target in front of
    the member raises [IOError], and so does any other [whence];
    otherwise [tell] answers the target, counted from the start of the
    member. *)
Theorem extfile_seek_tell (bk : File.t) (x : PboExtFile.t) (offset whence : Z) :
  File.closed bk = false ->
  0 <= PboInfo.data_offset (PboExtFile.info x) ->
  let start :=
    if whence =? 0 then 0
    else if whence =? 1 then PboExtFile.tell x
    else PboInfo.data_size (PboExtFile.info x) in
  (whence <> 0 -> whence <> 1 -> whence <> 2 ->
   PboExtFile.seek (Some bk) x offset whence = Raise IOError) /\
  (whence = 0 \/ whence = 1 \/ whence = 2 ->
   if start + offset <? 0
   then PboExtFile.seek (Some bk) x offset whence = Raise IOError
   else
     exists x',
       PboExtFile.seek (Some bk) x offset whence
       = Ok (Some (File.set_pos bk
                     (PboInfo.data_offset (PboExtFile.info x) + start + offset)),
             x') /\
       PboExtFile.info x' = PboExtFile.info x /\
       PboExtFile.tell x' = start + offset).
Proof.
  intros Hc Hoff start. unfold PboExtFile.seek. split.
  - intros H0 H1 H2.
    apply Z.eqb_neq in H0. apply Z.eqb_neq in H1. apply Z.eqb_neq in H2.
    now rewrite H0, H1, H2.
  - set (off := PboInfo.data_offset (PboExtFile.info x)) in *.
    unfold PboExtFile.tell in start. fold off in start.
    assert (Hseek : forall t, off <= t ->
              (fp <- File.seek bk t 0 ;;
               p <- File.tell fp ;;
               Ok (Some fp, PboExtFile.mk (PboExtFile.info x) p))
              = Ok (Some (File.set_pos bk t),
                    PboExtFile.mk (PboExtFile.info x) t)).
    { intros t Ht. unfold File.seek. rewrite Hc. cbn [Z.eqb].
      destruct (Z.ltb_spec t 0) as [|_]; [lia|]. cbn [bind].
      unfold File.tell. rewrite closed_set_pos, Hc, pos_set_pos. reflexivity. }
    intros [-> | [-> | ->]]; subst start; cbn [Z.eqb Pos.eqb bind];
      match goal with
      | |- context [?s + offset <? 0] =>
          destruct (Z.ltb_spec (s + offset) 0) as [Hlt|Hge]
      end.
    + destruct (Z.ltb_spec (offset + off) off) as [_|]; [reflexivity|lia].
    + destruct (Z.ltb_spec (offset + off) off) as [|_]; [lia|].
      rewrite Hseek by lia. eexists.
      split; [apply f_equal, (f_equal2 pair); [do 2 f_equal; lia|reflexivity]|].
      split; [reflexivity|]. unfold PboExtFile.tell.
      cbn [PboExtFile.pos PboExtFile.info]. fold off. lia.
    + destruct (Z.ltb_spec (offset + PboExtFile.pos x) off) as [_|];
        [reflexivity|lia].
    + destruct (Z.ltb_spec (offset + PboExtFile.pos x) off) as [|_]; [lia|].
      rewrite Hseek by lia. eexists.
      split; [apply f_equal, (f_equal2 pair); [do 2 f_equal; lia|reflexivity]|].
      split; [reflexivity|]. unfold PboExtFile.tell.
      cbn [PboExtFile.pos PboExtFile.info]. fold off. lia.
    + destruct (Z.ltb_spec
                  (offset + (off + PboInfo.data_size (PboExtFile.info x))) off)
        as [_|]; [reflexivity|lia].
    + destruct (Z.ltb_spec
                  (offset + (off + PboInfo.data_size (PboExtFile.info x))) off)
        as [|_]; [lia|].
      rewrite Hseek by lia. eexists.
      split; [apply f_equal, (f_equal2 pair); [do 2 f_equal; lia|reflexivity]|].
      split; [reflexivity|]. unfold PboExtFile.tell.
      cbn [PboExtFile.pos PboExtFile.info]. fold off. lia.
Qed.

Lemma extfile_seek_tell_witness :
  let bk := File.open example_archive in
  let x := PboExtFile.init (PboInfo.mk (b "init.sqf") 0 0 0 1000 10 None 103) in
  let start := if 2 =? 0 then 0 else if 2 =? 1 then PboExtFile.tell x
               else PboInfo.data_size (PboExtFile.info x) in
  (2 <> 0 -> 2 <> 1 -> 2 <> 2 ->
   PboExtFile.seek (Some bk) x (-4) 2 = Raise IOError) /\
  (2 = 0 \/ 2 = 1 \/ 2 = 2 ->
   if start + -4 <? 0
   then PboExtFile.seek (Some bk) x (-4) 2 = Raise IOError
   else
     exists x',
       PboExtFile.seek (Some bk) x (-4) 2
       = Ok (Some (File.set_pos bk
                     (PboInfo.data_offset (PboExtFile.info x) + start + -4)),
             x') /\
       PboExtFile.info x' = PboExtFile.info x /\
       PboExtFile.tell x' = start + -4).
Proof.
  apply (extfile_seek_tell (File.open example_archive)
           (PboExtFile.init (PboInfo.mk (b "init.sqf") 0 0 0 1000 10 None 103))
           (-4) 2).
  - reflexivity.
  - cbn. lia.
Defined.

Lemma slice_of_slice (c : bytes) (off size o n : Z) :
  0 <= off -> 0 <= o -> 0 <= n ->
  slice (slice c off size) o n = slice c (off + o) (Z.min n (size - o)).
Proof.
  intros Hoff Ho Hn. unfold slice.
  rewrite skipn_firstn_comm, firstn_firstn, skipn_skipn.
  f_equal; [|f_equal]; lia.
Qed.

(** Reading through a view placed anywhere behind the start of its
    member: what is left of the member, at most [n] bytes of it when
    [n] is not negative. *)
Lemma extfile_read_any (bk : File.t) (x : PboExtFile.t) (n : Z) :
  File.closed bk = false ->
  archived_in bk (PboExtFile.info x) ->
  PboInfo.data_offset (PboExtFile.info x) <= PboExtFile.pos x ->
  let left := PboInfo.data_offset (PboExtFile.info x)
              + PboInfo.data_size (PboExtFile.info x) - PboExtFile.pos x in
  let m := Z.max 0 (if -1 <? n then Z.min n left else left) in
  PboExtFile.read (Some bk) x n
  = Ok (slice (File.content bk) (PboExtFile.pos x) m,
        Some (File.set_pos bk (PboExtFile.pos x + m)),
        PboExtFile.mk (PboExtFile.info x) (PboExtFile.pos x + m)).
Proof.
  intros Hc (Hfp & Hoff & Hsz & Hin) Hpos left m.
  unfold PboExtFile.read, File.seek. rewrite Hc.
  change (0 =? 0) with true. cbv iota.
  destruct (Z.ltb_spec (PboExtFile.pos x) 0); [lia|]. cbn [bind].
  fold left. set (rs := if -1 <? n then Z.min n left else left) in *.
  unfold File.size in Hin.
  destruct (Z.ltb_spec 0 rs) as [Hm|Hm].
  - assert (Hle : rs <= left).
    { unfold rs. destruct (-1 <? n); lia. }
    replace m with rs by (unfold m; lia).
    rewrite file_read_inside by (file_simpl; auto; lia).
    file_simpl. cbn [bind]. rewrite length_slice by (unfold left in Hle; lia).
    unfold File.tell. file_simpl. rewrite Hc. reflexivity.
  - replace m with 0 by (unfold m; lia).
    cbn [bind]. unfold File.tell. file_simpl. rewrite Hc. cbn [bind].
    rewrite slice_nil, Z.add_0_r. reflexivity.
Qed.

(** X20: a view of an archived member, moved to offset [o] of the member
    and read for [n] bytes, returns the bytes [o, o + n) of the
    member's payload and never a byte from behind the member: nothing
    when [o] is at or behind its end.  [tell] then answers [o] plus the
    number of bytes returned. *)
Theorem extfile_seek_read (bk : File.t) (info : PboInfo.t) (o n : Z) :
  File.closed bk = false ->
  archived_in bk info ->
  0 <= o -> 0 <= n ->
  exists fp1 x1 fp2 x2,
    PboExtFile.seek (Some bk) (PboExtFile.init info) o 0 = Ok (fp1, x1) /\
    PboExtFile.read fp1 x1 n = Ok (slice (payload bk info) o n, fp2, x2) /\
    PboExtFile.tell x2 = o + Z.of_nat (length (slice (payload bk info) o n)).
Proof.
  intros Hc Ha Ho Hn. pose proof Ha as (Hfp & Hoff & Hsz & Hin).
  unfold File.size in Hin.
  destruct (seek_from_start bk (PboExtFile.init info) o Hc Hoff Ho)
    as (x1 & Hs & Hi & Ht).
  rewrite Hs. do 2 eexists.
  assert (Hp1 : PboExtFile.pos x1 = PboInfo.data_offset info + o).
  { unfold PboExtFile.tell in Ht. rewrite Hi in Ht.
    cbn [PboExtFile.init PboExtFile.info] in Ht. lia. }
  cbn [PboExtFile.init PboExtFile.info] in Hi.
  pose proof (extfile_read_any
                (File.set_pos bk (PboInfo.data_offset info + 0 + o)) x1 n)
    as Hr.
  rewrite closed_set_pos, content_set_pos, Hi, Hp1 in Hr.
  specialize (Hr Hc). cbv zeta in Hr.
  destruct (Z.ltb_spec (-1) n) as [_|]; [|lia].
  rewrite set_pos_set_pos in Hr.
  replace (PboInfo.data_offset info + PboInfo.data_size info
           - (PboInfo.data_offset info + o))
    with (PboInfo.data_size info - o) in Hr by lia.
  do 2 eexists. split; [reflexivity|].
  cbn [PboExtFile.init PboExtFile.info].
  rewrite Hr; [|exact Ha|lia].
  unfold payload. rewrite slice_of_slice by lia.
  set (m := Z.min n (PboInfo.data_size info - o)).
  assert (Hs0 : slice (File.content bk) (PboInfo.data_offset info + o)
                  (Z.max 0 m)
                = slice (File.content bk) (PboInfo.data_offset info + o) m).
  { unfold slice. f_equal. lia. }
  rewrite Hs0. split; [reflexivity|].
  unfold PboExtFile.tell. cbn [PboExtFile.pos PboExtFile.info].
  destruct (Z.le_gt_cases 0 m) as [Hm|Hm].
  - rewrite length_slice by (unfold m in *; lia). lia.
  - replace (slice (File.content bk) (PboInfo.data_offset info + o) m)
      with (@nil byte) by (unfold slice; now replace (Z.to_nat m) with 0%nat by lia).
    cbn [length]. lia.
Qed.

Lemma extfile_seek_read_witness :
  exists fp1 x1 fp2 x2,
    PboExtFile.seek (Some (File.open example_archive))
      (PboExtFile.init (PboInfo.mk (b "init.sqf") 0 0 0 1000 10 None 103)) 5 0
      = Ok (fp1, x1) /\
    PboExtFile.read fp1 x1 100
      = Ok (slice (payload (File.open example_archive)
                     (PboInfo.mk (b "init.sqf") 0 0 0 1000 10 None 103)) 5 100,
            fp2, x2) /\
    PboExtFile.tell x2
      = 5 + Z.of_nat (length
                        (slice (payload (File.open example_archive)
                                  (PboInfo.mk (b "init.sqf") 0 0 0 1000 10
                                     None 103)) 5 100)).
Proof.
  apply (extfile_seek_read (File.open example_archive)
           (PboInfo.mk (b "init.sqf") 0 0 0 1000 10 None 103) 5 100).
  - reflexivity.
  - repeat split; vm_compute; discriminate.
  - lia.
  - lia.
Defined.

(** ** Reading a member back from an archive *)

Lemma odict_get_nth {V : Type} (d : list (bytes * V)) :
  NoDup (map fst d) ->
  forall j k v, nth_error d j = Some (k, v) -> odict_get d k = Some v.
Proof.
  induction d as [|[k0 v0] d IH]; intros Hnd j k v Hj.
  - destruct j; discriminate.
  - cbn [map fst] in Hnd. apply NoDup_cons_iff in Hnd as [Hnin Hnd].
    cbn [odict_get]. destruct j as [|j]; cbn [nth_error] in Hj.
    + injection Hj as -> ->. now rewrite bytes_eqb_refl.
    + destruct (bytes_eqb k0 k) eqn:E.
      * apply bytes_eqb_eq in E. subst k0. exfalso. apply Hnin.
        apply nth_error_In in Hj. now apply (in_map fst) in Hj.
      * now apply (IH Hnd j).
Qed.

Lemma nth_error_map_eq {A A' B : Type} (g : A -> B) (g' : A' -> B)
    (l : list A) (l' : list A') (j : nat) (x : A) (x' : A') :
  map g l = map g' l' ->
  nth_error l j = Some x -> nth_error l' j = Some x' -> g x = g' x'.
Proof.
  intros E Hx Hx'.
  apply (map_nth_error g) in Hx. apply (map_nth_error g') in Hx'.
  rewrite E in Hx. congruence.
Qed.

Lemma assign_offsets_timestamps (ms : list Format.member) : forall D,
  map (fun kv => PboInfo.timestamp (snd kv))
    (PboFile.assign_offsets (map Format.info_of ms) D)
  = map Format.timestamp ms.
Proof.
  induction ms as [|m ms IH]; intros D; [reflexivity|].
  rewrite assign_offsets_cons. cbn [map snd]. now rewrite IH.
Qed.

(** A member of the archive object that [from_file] returns: found
    under its name, and read to its end through its view. *)
Lemma member_of_loaded (a : Format.archive) (trailer : bytes) (j : nat)
    (m : Format.member) :
  Format.valid a ->
  trailer <> [] ->
  nth_error (Format.members a) j = Some m ->
  exists info fp' x',
    PboFile.getinfo (loaded a trailer) (Format.name m) = Ok info /\
    PboInfo.fp info = None /\
    PboInfo.timestamp info = Format.timestamp m /\
    PboExtFile.read (PboFile.fp (loaded a trailer)) (PboExtFile.init info) (-1)
      = Ok (Format.data m, fp', x') /\
    PboExtFile.tell x' = Z.of_nat (length (Format.data m)).
Proof.
  intros Hv Htn Hj.
  destruct (from_file_loaded a trailer _ Hv Htn (Nat.lt_succ_diag_r _))
    as [_ Hskip].
  set (bk := File.open (Format.body a ++ trailer)).
  set (D := Z.of_nat (length (Format.head a))).
  set (d := PboFile.assign_offsets (map Format.info_of (Format.members a)) D).
  assert (HD : skipn (Z.to_nat D) (File.content bk)
               = concat (map Format.data (Format.members a)) ++ trailer).
  { unfold D. rewrite Nat2Z.id. exact Hskip. }
  destruct (infos_payload bk trailer Htn 3 (Format.members a) D
              ltac:(unfold D; lia) HD) as (Harch & Hpay & _).
  fold d in Harch, Hpay.
  assert (Hlen : length d = length (Format.members a)).
  { apply (f_equal (@length _)) in Hpay. now rewrite !length_map in Hpay. }
  destruct (nth_error d j) as [[k info]|] eqn:Ed.
  2:{ apply nth_error_None in Ed.
      assert (j < length (Format.members a))%nat
        by (apply nth_error_Some; congruence).
      lia. }
  assert (Hk : k = Format.name m).
  { assert (Hkeys : map fst d = map Format.name (Format.members a))
      by (unfold d; rewrite assign_offsets_keys; apply info_of_keys).
    exact (nth_error_map_eq fst Format.name _ _ j (k, info) m Hkeys Ed Hj). }
  subst k.
  assert (Hts : PboInfo.timestamp info = Format.timestamp m).
  { exact (nth_error_map_eq (fun kv => PboInfo.timestamp (snd kv))
             Format.timestamp _ _ j (Format.name m, info) m
             (assign_offsets_timestamps _ D) Ed Hj). }
  assert (Hnd : NoDup (map fst d)).
  { unfold d. rewrite assign_offsets_keys, info_of_keys.
    apply name_lt_NoDup, Hv. }
  assert (Hget : odict_get d (Format.name m) = Some info)
    by exact (odict_get_nth d Hnd j _ _ Ed).
  assert (Hinfo : nth_error (map snd d) j = Some info)
    by (now apply (map_nth_error snd) in Ed).
  assert (Ha : archived_in bk info).
  { rewrite Forall_forall in Harch. apply Harch.
    now apply nth_error_In in Hinfo. }
  assert (Hp : payload bk info = Format.data m)
    by exact (nth_error_map_eq (payload bk) Format.data _ _ j info m
                Hpay Hinfo Hj).
  exists info.
  unfold PboFile.getinfo.
  cbn [loaded PboFile.filedict PboFile.fp]. fold D. fold d. fold bk.
  rewrite Hget.
  pose proof Ha as (Hfp & Hoff & Hsz & Hin).
  pose proof (extfile_read_any (File.set_pos bk D) (PboExtFile.init info) (-1))
    as Hr.
  rewrite closed_set_pos, content_set_pos in Hr.
  cbn [PboExtFile.init PboExtFile.info PboExtFile.pos] in Hr.
  specialize (Hr eq_refl Ha ltac:(lia)). cbv zeta in Hr.
  change (-1 <? -1) with false in Hr. cbv iota in Hr.
  replace (Z.max 0 (PboInfo.data_offset info + PboInfo.data_size info
                    - PboInfo.data_offset info))
    with (PboInfo.data_size info) in Hr by lia.
  fold (payload bk info) in Hr. rewrite Hp in Hr.
  do 2 eexists. split; [reflexivity|]. split; [exact Hfp|].
  split; [exact Hts|]. split; [exact Hr|].
  unfold PboExtFile.tell. cbn [PboExtFile.pos PboExtFile.info].
  rewrite <- Hp. unfold payload.
  rewrite length_slice by (unfold File.size in Hin; lia). lia.
Qed.

(** X21: after [from_file] has read a well-formed archive, every member
    is found under its name, and the view [open] gives for it, read to
    its end, returns exactly the payload stored for that member. *)
Theorem read_member_back (a : Format.archive) (trailer : bytes) (fuel : nat)
    (j : nat) (m : Format.member) :
  Format.valid a ->
  trailer <> [] ->
  (length (Format.body a ++ trailer) < fuel)%nat ->
  nth_error (Format.members a) j = Some m ->
  exists p info fp' x',
    PboFile.from_file fuel (File.open (Format.body a ++ trailer)) = Ok p /\
    PboFile.getinfo p (Format.name m) = Ok info /\
    PboFile.open_name p (Format.name m) = Ok (Archived (PboExtFile.init info)) /\
    PboExtFile.read (PboFile.fp p) (PboExtFile.init info) (-1)
      = Ok (Format.data m, fp', x') /\
    PboExtFile.tell x' = Z.of_nat (length (Format.data m)).
Proof.
  intros Hv Htn Hfuel Hj.
  destruct (from_file_loaded a trailer fuel Hv Htn Hfuel) as [Hread _].
  destruct (member_of_loaded a trailer j m Hv Htn Hj)
    as (info & fp' & x' & Hget & Hfp & _ & Hr & Ht).
  exists (loaded a trailer), info, fp', x'.
  split; [exact Hread|]. split; [exact Hget|]. split; [|split; assumption].
  unfold PboFile.open_name. rewrite Hget. cbn [bind].
  unfold PboFile.open. now rewrite Hfp.
Qed.

Lemma read_member_back_witness :
  exists p info fp' x',
    PboFile.from_file 200
      (File.open (Format.body example_format ++ example_trailer)) = Ok p /\
    PboFile.getinfo p (b "logo.paa") = Ok info /\
    PboFile.open_name p (b "logo.paa") = Ok (Archived (PboExtFile.init info)) /\
    PboExtFile.read (PboFile.fp p) (PboExtFile.init info) (-1)
      = Ok (b "12345678", fp', x') /\
    PboExtFile.tell x' = Z.of_nat (length (b "12345678")).
Proof.
  apply (read_member_back example_format example_trailer 200 1
           (Format.Member (b "logo.paa") 0 0 0 2000 (b "12345678"))).
  - exact example_format_valid.
  - discriminate.
  - vm_compute. lia.
  - reflexivity.
Defined.

(** ** The file hash of an archive read from a file *)

(** X22: for a well-formed archive read by [from_file] and version 2 or
    3, [_filehash] returns, and it has hashed the payloads of the
    members the version selects (data not empty, suffix rule of the
    version), in the order of the index, or the sentinel of the version
    when no member is selected. *)
Theorem filehash_read_archive (a : Format.archive) (trailer : bytes)
    (fuel : nat) (version : Z) :
  Format.valid a ->
  trailer <> [] ->
  version = 2 \/ version = 3 ->
  (length (Format.body a ++ trailer) < fuel)%nat ->
  exists p h p',
    PboFile.from_file fuel (File.open (Format.body a ++ trailer)) = Ok p /\
    PboFile._filehash fuel p version = Ok (h, p') /\
    h = match filter (selects version) (Format.members a) with
        | [] => sentinel version
        | l => concat (map Format.data l)
        end.
Proof.
  intros Hv Htn Hver Hfuel.
  destruct (from_file_loaded a trailer fuel Hv Htn Hfuel) as [Hread Hskip].
  set (bk := File.open (Format.body a ++ trailer)).
  set (D := Z.of_nat (length (Format.head a))).
  destruct (infos_payload bk trailer Htn version (Format.members a) D
              ltac:(lia)) as (Harch & Hpay & Hsel).
  { unfold D. rewrite Nat2Z.id. exact Hskip. }
  set (p := loaded a trailer).
  assert (Hinfos : PboFile.infolist p
                   = map snd (PboFile.assign_offsets
                                (map Format.info_of (Format.members a)) D))
    by reflexivity.
  rewrite <- Hinfos in Harch, Hpay, Hsel.
  destruct (filehash_archived fuel p (File.set_pos bk D) version Hver
              eq_refl eq_refl) as [q Hf].
  { eapply Forall_impl; [|exact Harch]. intros i Hi. exact Hi. }
  { file_simpl. unfold File.size, bk. cbn [File.open File.content]. lia. }
  cbv zeta in Hf.
  exists p. do 2 eexists. split; [exact Hread|]. split; [exact Hf|].
  pose proof (filter_map_agree (payload bk) Format.data
                (selected version) (selects version) _ _ Hpay Hsel) as E.
  change (payload (File.set_pos bk D)) with (payload bk).
  destruct (filter (selected version) (PboFile.infolist p)) as [|i l] eqn:E1;
    destruct (filter (selects version) (Format.members a)) as [|m l'] eqn:E2;
    cbn [map] in E; try discriminate; [reflexivity|].
  cbn [map]. now rewrite E.
Qed.

Lemma filehash_read_archive_witness :
  exists p h p',
    PboFile.from_file 200
      (File.open (Format.body example_format ++ example_trailer)) = Ok p /\
    PboFile._filehash 200 p 2 = Ok (h, p') /\
    h = match filter (selects 2) (Format.members example_format) with
        | [] => sentinel 2
        | l => concat (map Format.data l)
        end.
Proof.
  apply (filehash_read_archive example_format example_trailer 200 2).
  - exact example_format_valid.
  - discriminate.
  - left. reflexivity.
  - vm_compute. lia.
Defined.

(** ** Keys that cannot verify, and what the key reader does not check *)

(** X23: when the modulus of the key is not longer than the padded
    value ([n <= 2^(8k - 16)] for [k = bitlen // 8 >= 38]), the check
    of [verify] accepts no signature value at all for any 20-byte
    digest. *)
Theorem short_modulus_never_verifies (pkey : PublicKey.t) (d : bytes)
    (sig : Z) :
  length d = 20%nat ->
  38 <= PublicKey.bitlen pkey / 8 ->
  PublicKey.modulus pkey <= 2 ^ (8 * (PublicKey.bitlen pkey / 8) - 16) ->
  verify_hash pkey (hex d) sig <> Ok true.
Proof.
  intros Hd Hk Hn. rewrite verify_hash_value.
  pose proof (padding_range d _ Hd Hk) as [Hm _].
  set (m := bytes_to_int _ big) in *.
  unfold pow.
  destruct (Z.eqb_spec (PublicKey.modulus pkey) 0) as [|Hn0];
    [discriminate|].
  destruct (PublicKey.public_exponent pkey <? 0); [discriminate|].
  cbn [bind]. intros E. apply Ok_inj in E. apply Z.eqb_eq in E.
  set (n := PublicKey.modulus pkey) in *.
  destruct (Z.lt_ge_cases 0 n) as [Hpos|Hneg].
  - pose proof (Z.mod_pos_bound (sig ^ PublicKey.public_exponent pkey) n Hpos).
    lia.
  - pose proof (Z.mod_neg_bound (sig ^ PublicKey.public_exponent pkey) n
                  ltac:(lia)).
    pose proof (Z.pow_pos_nonneg 2 (8 * (PublicKey.bitlen pkey / 8) - 16)
                  ltac:(lia) ltac:(lia)).
    lia.
Qed.

Lemma short_modulus_never_verifies_witness :
  verify_hash (PublicKey.mk (b "short") 512 65537 (2 ^ 400 + 1))
    (hex (SHA1.sha1 (b "abc"))) 12345 <> Ok true.
Proof.
  apply (short_modulus_never_verifies
           (PublicKey.mk (b "short") 512 65537 (2 ^ 400 + 1))
           (SHA1.sha1 (b "abc")) 12345).
  - reflexivity.
  - vm_compute. discriminate.
  - vm_compute. discriminate.
Defined.

(** X24: [PublicKey._from_file] reads the twelve bytes after the name
    (length, type, version, algorithm) and the four bytes of the magic
    without looking at them: whatever stands there, the key read is the
    one given by the name, the bit length, the exponent and the modulus
    that follow. *)
Theorem public_key_header_unchecked (k : PublicKey.t)
    (hdr magic rest : bytes) (fuel : nat) :
  public_key_ok k ->
  length hdr = 12%nat -> length magic = 4%nat ->
  (length (PublicKey.name k) < fuel)%nat ->
  exists f',
    PublicKey._from_file fuel
      (File.open
         (PublicKey.name k ++ NUL
          :: hdr ++ magic
          ++ (Format.u32 (PublicKey.bitlen k)
              ++ Format.u32 (PublicKey.public_exponent k))
          ++ le_split (Z.to_nat (PublicKey.bitlen k / 8)) (PublicKey.modulus k)
          ++ rest))
    = Ok (k, f') /\
    skipn (Z.to_nat (File.pos f')) (File.content f') = rest.
Proof.
  intros Hk Hh Hm Hfuel.
  set (f := File.open _).
  destruct (public_key_at f eq_refl 0 k hdr magic rest fuel) as [E S];
    try assumption; try lia; [reflexivity|].
  change (File.set_pos f 0) with f in E. rewrite E.
  eexists. split; [reflexivity|].
  rewrite pos_set_pos, content_set_pos. exact S.
Qed.

Lemma public_key_header_unchecked_witness :
  exists f',
    PublicKey._from_file 10
      (File.open
         (b "toy" ++ NUL
          :: repeat Byte.xff 12 ++ b "XXXX"
          ++ (Format.u32 16 ++ Format.u32 7)
          ++ le_split (Z.to_nat (16 / 8)) 143
          ++ []))
    = Ok (PublicKey.mk (b "toy") 16 7 143, f') /\
    skipn (Z.to_nat (File.pos f')) (File.content f') = [].
Proof.
  apply (public_key_header_unchecked (PublicKey.mk (b "toy") 16 7 143)
           (repeat Byte.xff 12) (b "XXXX") [] 10).
  - repeat split; try (vm_compute; discriminate); try (vm_compute; reflexivity).
    apply not_in_nul. reflexivity.
  - reflexivity.
  - reflexivity.
  - vm_compute. lia.
Defined.

(** ** Archives assembled from files, written and read back *)

Lemma add_all_from (hdr : bytes * (Z * Z * Z * Z * Z))
    (ext : list (bytes * bytes)) (files : list (bytes * File.t)) :
  forall d0,
  NoDup (map fst d0 ++ map fst files) ->
  add_all (PboFile.mk hdr ext d0 None) files
  = Ok (PboFile.mk hdr ext (d0 ++ map added files) None).
Proof.
  induction files as [|[name file] files IH]; intros d0 Hnd.
  - cbn [add_all map]. now rewrite app_nil_r.
  - cbn [add_all map fst] in *. unfold PboFile.add, PboFile.set_state.
    cbn [PboFile.filedict PboFile.header PboFile.header_extension PboFile.fp].
    assert (Hn : ~ In name (map fst d0)).
    { apply NoDup_remove_2 in Hnd. intros Hin. apply Hnd.
      apply in_or_app. now left. }
    rewrite (proj2 (odict_get_none _ _) Hn). cbn [bind].
    rewrite odict_set_fresh by exact Hn.
    rewrite IH.
    + now rewrite <- app_assoc.
    + rewrite map_app, <- app_assoc. exact Hnd.
Qed.

Lemma insert_sorted_map {A B : Type} (key : B -> bytes) (g : A -> B) (x : A)
    (l : list A) :
  insert_sorted key (g x) (map g l)
  = map g (insert_sorted (fun y => key (g y)) x l).
Proof.
  induction l as [|y l IH]; cbn [insert_sorted map]; [reflexivity|].
  destruct (bytes_leb (key (g x)) (key (g y))); cbn [map]; [reflexivity|].
  now rewrite IH.
Qed.

Lemma sorted_map {A B : Type} (key : B -> bytes) (g : A -> B) (l : list A) :
  sorted key (map g l) = map g (sorted (fun y => key (g y)) l).
Proof.
  induction l as [|x l IH]; [reflexivity|].
  cbn [map]. unfold sorted in *. cbn [fold_right].
  rewrite IH. apply insert_sorted_map.
Qed.

Lemma sorted_added (files : list (bytes * File.t)) :
  sorted fst (map added files) = map added (sorted fst files).
Proof. apply (sorted_map fst added). Qed.

Lemma pack_info_added (kf : bytes * File.t) :
  file_ok kf ->
  PboFile.pack_info (snd (added kf))
  = Ok (Format.index_record (packed_member kf)).
Proof.
  intros (_ & _ & Hc & _ & Hm & Hs). destruct kf as [k f]. cbn [fst snd] in *.
  unfold PboFile.pack_info, added, PboInfo.get_timestamp,
    PboInfo.get_data_size, File.fstat_size.
  cbn [snd fst PboInfo.init PboInfo.fp PboInfo.packing_method
       PboInfo.original_size PboInfo.reserved PboInfo.filename].
  rewrite Hc. cbn [bind].
  rewrite pack_record5.
  - reflexivity.
  - cbn. unfold Format.is_u32 in *. lia.
Qed.

Lemma created_index_loop (l : list (bytes * File.t)) : forall header,
  Forall file_ok l ->
  for_each (map added l)
    (fun '(k, v) header => r <- PboFile.pack_info v ;; Ok (header ++ r))
    header
  = Ok (header ++ concat (map Format.index_record (map packed_member l))).
Proof.
  induction l as [|kf l IH]; intros header Hok.
  - cbn. now rewrite app_nil_r.
  - inversion Hok as [|? ? Hkf Hok']; subst.
    cbn [map for_each concat].
    change (added kf) with (fst kf, snd (added kf)). cbv beta iota.
    rewrite (pack_info_added kf Hkf). cbn [bind].
    rewrite IH by exact Hok'. now rewrite <- app_assoc.
Qed.

Lemma length_slice_min (s : bytes) (i n : Z) :
  0 <= i <= Z.of_nat (length s) -> 0 <= n ->
  Z.of_nat (length (slice s i n)) = Z.min n (Z.of_nat (length s) - i).
Proof.
  intros Hi Hn. unfold slice. rewrite length_firstn, length_skipn. lia.
Qed.

Lemma slice_trim (s : bytes) (i n : Z) :
  slice s i n = slice s i (Z.of_nat (length (slice s i n))).
Proof.
  unfold slice. rewrite Nat2Z.id, length_firstn.
  set (l := skipn (Z.to_nat i) s).
  destruct (Nat.le_ge_cases (Z.to_nat n) (length l)) as [H|H].
  - now rewrite Nat.min_l.
  - rewrite Nat.min_r by exact H. now rewrite firstn_all, firstn_all2.
Qed.

(** Copying a member that has its own file object: the whole file goes
    to the output and into the hash. *)
Lemma export_member_external (kf : bytes * File.t) (fuel : nat)
    (h out : bytes) (p : PboFile.t) :
  file_ok kf ->
  (length (File.content (snd kf)) < fuel)%nat ->
  exists f',
    PboFile.export_member fuel (added kf) (h, out, p)
    = Ok (h ++ File.content (snd kf), out ++ File.content (snd kf),
          PboFile.set_state p
            (odict_set (PboFile.filedict p) (fst kf)
               (PboInfo.set_fp (snd (added kf)) (Some (File.close f'))))
            (PboFile.fp p)).
Proof.
  intros (_ & _ & Hc & Hp0 & _ & _) Hfuel. destruct kf as [k f].
  cbn [fst snd] in *.
  set (c := File.content f) in *.
  set (size := Z.of_nat (length c)).
  unfold PboFile.export_member, added. cbn [fst snd].
  unfold PboFile.open. cbn [PboInfo.init PboInfo.fp].
  unfold member_read at 1.
  rewrite file_read_inside by (auto; unfold CHUNK_SIZE; lia).
  rewrite Hp0. fold c. cbn [bind].
  set (Inv := fun s : bytes * bytes * bytes * option File.t * member =>
    let '(h', out', data, fp, file) := s in
    exists j, 0 <= j <= size /\
      h' = h ++ slice c 0 j /\
      out' = out ++ slice c 0 j /\
      data = slice c j CHUNK_SIZE /\
      file = External (File.set_pos f (j + Z.of_nat (length data))) /\
      fp = PboFile.fp p).
  set (mu := fun s : bytes * bytes * bytes * option File.t * member =>
    let '(h', out', data, fp, file) := s in
    match file with
    | External g => Z.to_nat (size - File.pos g) + length data
    | Archived _ => O
    end%nat).
  match goal with |- exists _, bind (while _ ?cd ?bd ?s0) _ = _ =>
    set (cond := cd); set (body := bd); set (start := s0) end.
  assert (Hlen : forall j, 0 <= j <= size ->
            Z.of_nat (length (slice c j CHUNK_SIZE))
            = Z.min CHUNK_SIZE (size - j)).
  { intros j Hj. apply length_slice_min; [exact Hj|unfold CHUNK_SIZE; lia]. }
  assert (Hstep : forall s, Inv s -> cond s = true ->
            exists s', body s = Ok s' /\ Inv s' /\ (mu s' < mu s)%nat).
  { intros [[[[h' out'] data] fp] file] (j & Hj & Hh & Ho & Hd & Hx & Hf) Hcond.
    apply Nat.ltb_lt in Hcond. subst h' out' fp file.
    pose proof (Hlen j Hj) as Hl. rewrite <- Hd in Hl.
    set (n := Z.of_nat (length data)) in *.
    assert (Hn : 0 < n <= size - j) by (unfold CHUNK_SIZE in Hl; lia).
    unfold body, member_read.
    rewrite file_read_inside by (file_simpl; auto; unfold CHUNK_SIZE; lia).
    file_simpl. fold c. cbn [bind].
    pose proof (Hlen (j + n) ltac:(lia)) as Hl2.
    set (data' := slice c (j + n) CHUNK_SIZE) in *.
    eexists. split; [reflexivity|]. split.
    - exists (j + n). split; [lia|].
      unfold update. rewrite <- !app_assoc.
      assert (Hs : slice c 0 j ++ data = slice c 0 (j + n)).
      { rewrite Hd, (slice_trim c j CHUNK_SIZE), <- Hd. fold n.
        rewrite <- (Z.add_0_l j) at 2. apply slice_app; lia. }
      rewrite Hs. repeat split; reflexivity.
    - cbn [mu]. file_simpl.
      unfold CHUNK_SIZE in Hl2. unfold n in *.
      clear - Hl2 Hn Hcond Hj. lia. }
  destruct (while_terminates cond body Inv mu Hstep fuel start)
    as [[[[[h' out'] data] fp] file] [Hw [HI Hcond]]].
  { exists 0. split; [unfold size; lia|].
    rewrite slice_nil, !app_nil_r. repeat split; reflexivity. }
  { unfold start. cbn [mu]. file_simpl.
    pose proof (Hlen 0 ltac:(unfold size; lia)) as Hl0.
    set (n0 := length (slice c 0 CHUNK_SIZE)) in *.
    unfold CHUNK_SIZE in Hl0. unfold size in *.
    clearbody n0. clear - Hl0 Hfuel. lia. }
  rewrite Hw. cbn [bind].
  destruct HI as (j & Hj & -> & -> & Hd & -> & ->).
  unfold cond in Hcond. apply Nat.ltb_ge in Hcond.
  pose proof (Hlen j Hj) as Hl. rewrite <- Hd in Hl.
  assert (Hjs : j = size) by (unfold CHUNK_SIZE in Hl; lia).
  subst j. eexists. cbn [member_exit added fst snd].
  assert (Hall : slice c 0 size = c).
  { unfold slice, size. cbn [Z.to_nat skipn]. rewrite Nat2Z.id.
    now rewrite firstn_all. }
  rewrite Hall. reflexivity.
Qed.

Lemma created_payload_loop (fuel : nat) (l : list (bytes * File.t)) :
  forall (h out : bytes) (p : PboFile.t),
  Forall file_ok l ->
  Forall (fun kf => (length (File.content (snd kf)) < fuel)%nat) l ->
  exists p',
    for_each (map added l) (PboFile.export_member fuel) (h, out, p)
    = Ok (h ++ concat (map Format.data (map packed_member l)),
          out ++ concat (map Format.data (map packed_member l)), p').
Proof.
  induction l as [|kf l IH]; intros h out p Hok Hfuel.
  - exists p. cbn. now rewrite !app_nil_r.
  - inversion Hok as [|? ? Hkf Hok']; subst.
    inversion Hfuel as [|? ? Hf Hfuel']; subst.
    cbn [map for_each concat].
    destruct (export_member_external kf fuel h out p Hkf Hf) as [f1 ->].
    cbn [bind].
    match goal with |- context [for_each _ _ (_, _, ?q)] =>
      destruct (IH (h ++ File.content (snd kf))
                  (out ++ File.content (snd kf)) q Hok' Hfuel') as [p' ->]
    end.
    exists p'. cbn [packed_member Format.data]. now rewrite <- !app_assoc.
Qed.

(** What [_export] writes for the archive made of [files]: the format,
    with the members in the order of their names. *)
Lemma export_created (ext : list (bytes * bytes))
    (files : list (bytes * File.t)) (fuel : nat) :
  Forall file_ok files ->
  Forall (fun kf => (length (File.content (snd kf)) < fuel)%nat) files ->
  exists p',
    PboFile._export fuel (created ext files)
    = Ok (Format.file (packed ext files), p').
Proof.
  intros Hok Hfuel.
  assert (Hok' : Forall file_ok (sorted fst files))
    by (apply (Permutation_Forall (Permutation_sym (sorted_perm _ _))); exact Hok).
  assert (Hfuel' : Forall (fun kf => (length (File.content (snd kf)) < fuel)%nat)
                     (sorted fst files))
    by (apply (Permutation_Forall (Permutation_sym (sorted_perm _ _)));
        exact Hfuel).
  unfold PboFile._export, created.
  cbn [PboFile.header PboFile.header_extension PboFile.filedict fst snd].
  rewrite pack_record5 by (cbn; unfold Format.is_u32; lia). cbn [bind].
  rewrite export_extension_loop. cbn [bind].
  rewrite sorted_added.
  rewrite created_index_loop by exact Hok'. cbn [bind].
  unfold update, sha1_new. cbn [app].
  change (pack_s [NUL]) with [NUL].
  set (a := packed ext files).
  match goal with |- context [for_each _ _ (?h, ?o, ?q)] =>
    replace h with (Format.head a)
      by (unfold Format.head, a, packed;
          cbn [Format.first_record Format.extension Format.members];
          now rewrite <- !app_assoc);
    destruct (created_payload_loop fuel (sorted fst files) (Format.head a)
                (Format.head a) q Hok' Hfuel') as [p' Hpay]
  end.
  rewrite Hpay. cbn [bind].
  change (map packed_member (sorted fst files)) with (Format.members a).
  fold (Format.body a).
  rewrite long16_hexdigest. cbn [bind]. rewrite int_to_bytes_digest.
  exists p'. reflexivity.
Qed.

Lemma strictly_sorted {A : Type} (key : A -> bytes) (l : list A) :
  StronglySorted (key_le key) l -> NoDup (map key l) ->
  StronglySorted (fun x y => bytes_ltb (key x) (key y) = true) l.
Proof.
  induction 1 as [|x l Hs IH Hx]; intros Hnd; constructor.
  - apply IH. cbn [map] in Hnd. now apply NoDup_cons_iff in Hnd.
  - cbn [map] in Hnd. apply NoDup_cons_iff in Hnd as [Hnin _].
    rewrite Forall_forall in *. intros y Hy.
    specialize (Hx y Hy). unfold key_le, bytes_leb in Hx.
    apply negb_true_iff in Hx.
    destruct (bytes_ltb (key x) (key y)) eqn:E; [reflexivity|exfalso].
    apply Hnin. rewrite (bytes_ltb_total _ _ E Hx). now apply in_map.
Qed.

Lemma packed_valid (ext : list (bytes * bytes)) (files : list (bytes * File.t)) :
  Forall Format.pair_ok ext -> NoDup (map fst ext) ->
  Forall file_ok files -> NoDup (map fst files) ->
  Format.valid (packed ext files).
Proof.
  intros Hp Hk Hok Hnd.
  pose proof (sorted_perm fst files) as Hperm.
  constructor; cbn [packed Format.first_record Format.extension Format.members].
  - cbn. unfold Format.is_u32. lia.
  - exact Hp.
  - exact Hk.
  - apply Forall_map.
    apply (Permutation_Forall (Permutation_sym Hperm)).
    eapply Forall_impl; [|exact Hok].
    intros [k f] (Hne & Ha & _ & _ & Hm & Hs).
    unfold Format.member_ok, packed_member, Format.fields, Format.record_ok.
    cbn [fst snd] in *.
    cbn [Format.name Format.packing_method Format.original_size
         Format.reserved Format.timestamp Format.data].
    fold (File.size f).
    split; [exact Hne|]. split; [exact Ha|].
    unfold Format.is_u32 in *. lia.
  - assert (Hs : StronglySorted
                   (fun x y : bytes * File.t => bytes_ltb (fst x) (fst y) = true)
                   (sorted fst files)).
    { apply strictly_sorted; [apply sorted_sorted|].
      apply (Permutation_NoDup (Permutation_map fst (Permutation_sym Hperm))).
      exact Hnd. }
    clear - Hs.
    induction Hs as [|x l Hs IH Hx]; cbn [map];
      [constructor|constructor; [exact IH|]].
    apply Forall_map. exact Hx.
Qed.

(** X25: an archive assembled by adding files under distinct names (each
    file open at its start, its size and modification time within 32
    bits) is written by [_export] in the PBO format: the members follow
    the order of their names, whatever the order they were added in,
    each with the modification time, the size and the contents of its
    file, and the layout is a valid archive. *)
Theorem created_archive_layout (ext : list (bytes * bytes))
    (files : list (bytes * File.t)) (fuel : nat) :
  Forall Format.pair_ok ext -> NoDup (map fst ext) ->
  Forall file_ok files -> NoDup (map fst files) ->
  Forall (fun kf => (length (File.content (snd kf)) < fuel)%nat) files ->
  exists p0 p',
    add_all (start ext) files = Ok p0 /\
    PboFile._export fuel p0 = Ok (Format.file (packed ext files), p') /\
    Format.valid (packed ext files) /\
    Format.members (packed ext files) = map packed_member (sorted fst files).
Proof.
  intros Hp Hk Hok Hnd Hfuel.
  destruct (export_created ext files fuel Hok Hfuel) as [p' He].
  exists (created ext files), p'.
  split; [exact (add_all_from _ ext files [] Hnd)|].
  split; [exact He|].
  split; [now apply packed_valid|reflexivity].
Qed.

Lemma created_archive_layout_witness :
  exists p0 p',
    add_all (start [(b "prefix", b "myAddon")]) example_files = Ok p0 /\
    PboFile._export 20 p0
      = Ok (Format.file (packed [(b "prefix", b "myAddon")] example_files), p') /\
    Format.valid (packed [(b "prefix", b "myAddon")] example_files) /\
    Format.members (packed [(b "prefix", b "myAddon")] example_files)
      = map packed_member (sorted fst example_files).
Proof.
  apply (created_archive_layout [(b "prefix", b "myAddon")] example_files 20).
  - repeat constructor; try discriminate; apply not_in_nul; reflexivity.
  - repeat constructor. intros [].
  - repeat constructor; try discriminate; try (apply not_in_nul; reflexivity);
      vm_compute; congruence.
  - repeat constructor; cbn; intuition discriminate.
  - repeat constructor; vm_compute; lia.
Defined.

(** X26: files added to an archive, written by [_export] and read back
    by [from_file]: the header extension comes back as it was set, the
    names come back in name order, and each file is found under its
    name with its modification time, its view returning exactly the
    contents of the file that was added. *)
Theorem create_then_read (ext : list (bytes * bytes))
    (files : list (bytes * File.t)) (fuel : nat) (kf : bytes * File.t) :
  Forall Format.pair_ok ext -> NoDup (map fst ext) ->
  Forall file_ok files -> NoDup (map fst files) ->
  (length (Format.file (packed ext files)) < fuel)%nat ->
  In kf files ->
  exists p0 out p1 p2 info fp' x',
    add_all (start ext) files = Ok p0 /\
    PboFile._export fuel p0 = Ok (out, p1) /\
    PboFile.from_file fuel (File.open out) = Ok p2 /\
    PboFile.header_extension p2 = ext /\
    PboFile.namelist p2 = map fst (sorted fst files) /\
    PboFile.getinfo p2 (fst kf) = Ok info /\
    PboInfo.timestamp info = File.mtime (snd kf) /\
    PboExtFile.read (PboFile.fp p2) (PboExtFile.init info) (-1)
      = Ok (File.content (snd kf), fp', x').
Proof.
  intros Hp Hk Hok Hnd Hfuel Hin.
  set (a := packed ext files) in *.
  assert (Hv : Format.valid a) by now apply packed_valid.
  set (trailer := NUL :: SHA1.sha1 (Format.body a)).
  assert (Htn : trailer <> []) by discriminate.
  assert (Hfile : Format.file a = Format.body a ++ trailer) by reflexivity.
  assert (Hsmall : Forall (fun kf => (length (File.content (snd kf)) < fuel)%nat)
                     files).
  { apply Forall_forall. intros kf' Hin'.
    apply Nat.le_lt_trans with (2 := Hfuel).
    assert (Hm : In (packed_member kf') (Format.members a)).
    { unfold a, packed. cbn [Format.members]. apply in_map.
      apply (Permutation_in _ (Permutation_sym (sorted_perm fst files))).
      exact Hin'. }
    pose proof (length_concat_In _ _ (in_map Format.data _ _ Hm)) as Hl.
    cbn [packed_member Format.data] in Hl.
    unfold Format.file, Format.body. rewrite !length_app. lia. }
  destruct (export_created ext files fuel Hok Hsmall) as [p1 He].
  fold a in He.
  rewrite Hfile in Hfuel.
  destruct (from_file_loaded a trailer fuel Hv Htn Hfuel) as [Hread _].
  assert (Hm : In (packed_member kf) (Format.members a)).
  { unfold a, packed. cbn [Format.members]. apply in_map.
    apply (Permutation_in _ (Permutation_sym (sorted_perm fst files))).
    exact Hin. }
  apply In_nth_error in Hm as [j Hj].
  destruct (member_of_loaded a trailer j _ Hv Htn Hj)
    as (info & fp' & x' & Hget & _ & Hts & Hr & _).
  exists (created ext files), (Format.file a), p1, (loaded a trailer),
    info, fp', x'.
  split; [exact (add_all_from _ ext files [] Hnd)|].
  split; [exact He|]. rewrite Hfile. split; [exact Hread|].
  split; [reflexivity|]. split.
  - unfold PboFile.namelist, loaded. cbn [PboFile.filedict].
    rewrite assign_offsets_keys, info_of_keys.
    unfold a, packed. cbn [Format.members]. rewrite map_map. reflexivity.
  - split; [exact Hget|]. split; [exact Hts|exact Hr].
Qed.

Lemma create_then_read_witness :
  exists p0 out p1 p2 info fp' x',
    add_all (start [(b "prefix", b "myAddon")]) example_files = Ok p0 /\
    PboFile._export 200 p0 = Ok (out, p1) /\
    PboFile.from_file 200 (File.open out) = Ok p2 /\
    PboFile.header_extension p2 = [(b "prefix", b "myAddon")] /\
    PboFile.namelist p2 = map fst (sorted fst example_files) /\
    PboFile.getinfo p2 (b "init.sqf") = Ok info /\
    PboInfo.timestamp info = 1000 /\
    PboExtFile.read (PboFile.fp p2) (PboExtFile.init info) (-1)
      = Ok (b "hint 'hi';", fp', x').
Proof.
  apply (create_then_read [(b "prefix", b "myAddon")] example_files 200
           (b "init.sqf", File.mk (b "hint 'hi';") 0 false 1000)).
  - repeat constructor; try discriminate; apply not_in_nul; reflexivity.
  - repeat constructor. intros [].
  - repeat constructor; try discriminate; try (apply not_in_nul; reflexivity);
      vm_compute; congruence.
  - repeat constructor; cbn; intuition discriminate.
  - vm_compute. lia.
  - right. left. reflexivity.
Defined.

Lemma odict_set_In {V : Type} (d : list (bytes * V)) (k : bytes) (v : V)
    (k' : bytes) (v' : V) :
  NoDup (map fst d) ->
  In (k', v') (odict_set d k v) ->
  (k' = k /\ v' = v) \/ (k' <> k /\ In (k', v') d).
Proof.
  induction d as [|[k0 v0] d IH]; cbn [odict_set map fst In]; intros Hnd Hin.
  - destruct Hin as [E|[]]. injection E as <- <-. now left.
  - apply NoDup_cons_iff in Hnd as [Hnin Hnd].
    destruct (bytes_eqb k0 k) eqn:E; cbn [In] in Hin.
    + apply bytes_eqb_eq in E. subst k0.
      destruct Hin as [E'|Hin]; [injection E' as <- <-; now left|].
      right. split; [|now right]. intros ->. apply Hnin.
      now apply (in_map fst) in Hin.
    + apply bytes_eqb_neq in E.
      destruct Hin as [E'|Hin].
      * injection E' as <- <-. right. split; [exact E|now left].
      * destruct (IH Hnd Hin) as [H|[H1 H2]]; [now left|].
        right. split; [exact H1|now right].
Qed.

Lemma odict_set_keys {V : Type} (d : list (bytes * V)) (k : bytes) (v : V) :
  In k (map fst d) -> map fst (odict_set d k v) = map fst d.
Proof.
  induction d as [|[k0 v0] d IH]; cbn [odict_set map fst In]; [tauto|].
  intros Hin. destruct (bytes_eqb k0 k) eqn:E; cbn [map fst]; [reflexivity|].
  apply bytes_eqb_neq in E. destruct Hin as [|Hin]; [congruence|].
  now rewrite IH.
Qed.

(** The copying loop of [_export] over members that have their own file
    objects: every file is copied whole and left closed. *)
Lemma created_payload_loop_state (fuel : nat)
    (hdr : bytes * (Z * Z * Z * Z * Z)) (ext : list (bytes * bytes))
    (fp : option File.t) (l : list (bytes * File.t)) :
  forall (h out : bytes) (d : list (bytes * PboInfo.t)),
  Forall file_ok l ->
  Forall (fun kf => (length (File.content (snd kf)) < fuel)%nat) l ->
  NoDup (map fst d) ->
  (forall kf, In kf l -> In (fst kf) (map fst d)) ->
  exists d',
    for_each (map added l) (PboFile.export_member fuel)
      (h, out, PboFile.mk hdr ext d fp)
    = Ok (h ++ concat (map Format.data (map packed_member l)),
          out ++ concat (map Format.data (map packed_member l)),
          PboFile.mk hdr ext d' fp) /\
    map fst d' = map fst d /\
    (forall k v, In (k, v) d' ->
       spent v \/ (In (k, v) d /\ ~ In k (map fst l))).
Proof.
  induction l as [|kf l IH]; intros h out d Hok Hfuel Hnd Hkeys.
  - exists d. cbn. rewrite !app_nil_r. repeat split. intros k v Hin.
    right. split; [exact Hin|intros []].
  - inversion Hok as [|? ? Hkf Hok']; subst.
    inversion Hfuel as [|? ? Hf Hfuel']; subst.
    cbn [map for_each concat].
    destruct (export_member_external kf fuel h out (PboFile.mk hdr ext d fp)
                Hkf Hf) as [f1 ->].
    unfold PboFile.set_state.
    cbn [bind PboFile.filedict PboFile.fp PboFile.header
         PboFile.header_extension].
    set (v1 := PboInfo.set_fp (snd (added kf)) (Some (File.close f1))).
    assert (Hk1 : map fst (odict_set d (fst kf) v1) = map fst d).
    { apply odict_set_keys, Hkeys. now left. }
    destruct (IH (h ++ File.content (snd kf)) (out ++ File.content (snd kf))
                (odict_set d (fst kf) v1) Hok' Hfuel')
      as (d' & -> & Hk' & Hin').
    { now rewrite Hk1. }
    { intros kf' Hin. rewrite Hk1. apply Hkeys. now right. }
    exists d'. cbn [packed_member Format.data]. rewrite <- !app_assoc.
    split; [reflexivity|]. split; [congruence|].
    intros k v Hin. destruct (Hin' k v Hin) as [Hs|[Hin1 Hnl]]; [now left|].
    destruct (odict_set_In d (fst kf) v1 k v Hnd Hin1) as [[-> ->]|[Hne Hd]].
    + left. reflexivity.
    + right. split; [exact Hd|]. cbn [map fst In]. intros [E|Hl]; [congruence|].
      now apply Hnl.
Qed.

(** The archive made of [files], written: the bytes of the format, and
    an archive object left with every file closed. *)
Lemma export_created_state (ext : list (bytes * bytes))
    (files : list (bytes * File.t)) (fuel : nat) :
  Forall file_ok files ->
  NoDup (map fst files) ->
  Forall (fun kf => (length (File.content (snd kf)) < fuel)%nat) files ->
  exists d',
    PboFile._export fuel (created ext files)
    = Ok (Format.file (packed ext files),
          PboFile.mk ([NUL], (0x56657273, 0, 0, 0, 0)) ext d' None) /\
    map fst d' = map fst files /\
    Forall spent (map snd d').
Proof.
  intros Hok Hnd Hfuel.
  pose proof (sorted_perm fst files) as Hperm.
  assert (Hok' : Forall file_ok (sorted fst files))
    by (apply (Permutation_Forall (Permutation_sym Hperm)); exact Hok).
  assert (Hfuel' : Forall (fun kf => (length (File.content (snd kf)) < fuel)%nat)
                     (sorted fst files))
    by (apply (Permutation_Forall (Permutation_sym Hperm)); exact Hfuel).
  assert (Hkeys : map fst (map added files) = map fst files)
    by (rewrite map_map; reflexivity).
  unfold PboFile._export, created.
  cbn [PboFile.header PboFile.header_extension PboFile.filedict fst snd].
  rewrite pack_record5 by (cbn; unfold Format.is_u32; lia). cbn [bind].
  rewrite export_extension_loop. cbn [bind].
  rewrite sorted_added.
  rewrite created_index_loop by exact Hok'. cbn [bind].
  unfold update, sha1_new. cbn [app].
  change (pack_s [NUL]) with [NUL].
  set (a := packed ext files).
  match goal with |- context [for_each _ _ (?h, ?o, _)] =>
    replace h with (Format.head a)
      by (unfold Format.head, a, packed;
          cbn [Format.first_record Format.extension Format.members];
          now rewrite <- !app_assoc)
  end.
  destruct (created_payload_loop_state fuel ([NUL], (0x56657273, 0, 0, 0, 0))
              ext None (sorted fst files) (Format.head a) (Format.head a)
              (map added files) Hok' Hfuel')
    as (d' & Hpay & Hk' & Hin').
  { rewrite Hkeys. exact Hnd. }
  { intros kf Hin. rewrite Hkeys. apply in_map.
    apply (Permutation_in _ Hperm). exact Hin. }
  rewrite Hpay. cbn [bind].
  change (map packed_member (sorted fst files)) with (Format.members a).
  fold (Format.body a).
  rewrite long16_hexdigest. cbn [bind]. rewrite int_to_bytes_digest.
  exists d'. split; [reflexivity|]. split; [congruence|].
  apply Forall_forall. intros v Hv. apply in_map_iff in Hv as [[k v'] [<- Hv]].
  cbn [snd]. destruct (Hin' k v' Hv) as [Hs|[Hd Hnl]]; [exact Hs|exfalso].
  apply Hnl. apply (in_map fst) in Hd. rewrite Hkeys in Hd. cbn [fst] in Hd.
  apply (Permutation_in _ (Permutation_map fst (Permutation_sym Hperm))).
  exact Hd.
Qed.

Lemma spent_data_size (v : PboInfo.t) :
  spent v -> PboInfo.get_data_size v = Raise ValueError.
Proof.
  unfold spent, PboInfo.get_data_size, File.fstat_size.
  destruct (PboInfo.fp v) as [f|]; [|tauto]. now intros ->.
Qed.

(** X27: an archive assembled with [add] can be written once.  [_export]
    leaves the file object of every member closed, and on the archive
    object it leaves behind a second [_export], [_namehash] and
    [_filehash] all raise [ValueError]. *)
Theorem export_spends_files (ext : list (bytes * bytes))
    (files : list (bytes * File.t)) (fuel : nat) (version : Z) :
  Forall file_ok files ->
  NoDup (map fst files) ->
  files <> [] ->
  version = 2 \/ version = 3 ->
  Forall (fun kf => (length (File.content (snd kf)) < fuel)%nat) files ->
  exists p0 out p',
    add_all (start ext) files = Ok p0 /\
    PboFile._export fuel p0 = Ok (out, p') /\
    Forall spent (PboFile.infolist p') /\
    PboFile._export fuel p' = Raise ValueError /\
    PboFile._namehash p' = Raise ValueError /\
    PboFile._filehash fuel p' version = Raise ValueError.
Proof.
  intros Hok Hnd Hne Hver Hfuel.
  destruct (export_created_state ext files fuel Hok Hnd Hfuel)
    as (d' & He & Hk & Hs).
  exists (created ext files). do 2 eexists.
  split; [exact (add_all_from _ ext files [] Hnd)|].
  split; [exact He|]. split; [exact Hs|].
  assert (Hd : d' <> []).
  { intros ->. destruct files; [congruence|discriminate]. }
  unfold PboFile.infolist in Hs. cbn [PboFile.filedict] in Hs.
  split; [|split].
  - unfold PboFile._export.
    cbn [PboFile.header PboFile.header_extension PboFile.filedict fst snd].
    rewrite pack_record5 by (cbn; unfold Format.is_u32; lia). cbn [bind].
    rewrite export_extension_loop. cbn [bind].
    pose proof (sorted_perm fst d') as Hperm.
    destruct (sorted fst d') as [|[k v] l] eqn:E.
    { apply Permutation_nil in Hperm. congruence. }
    assert (Hv : spent v).
    { rewrite Forall_forall in Hs. apply Hs.
      apply (in_map snd) with (x := (k, v)).
      apply (Permutation_in _ Hperm). now left. }
    cbn [for_each]. unfold PboFile.pack_info.
    unfold spent in Hv. unfold PboInfo.get_timestamp.
    rewrite (spent_data_size v Hv).
    destruct (PboInfo.fp v); [reflexivity|tauto].
  - unfold PboFile._namehash, PboFile.infolist. cbn [PboFile.filedict].
    pose proof (sorted_perm (fun v => lower (PboInfo.filename v))
                  (map snd d')) as Hperm.
    destruct (sorted _ (map snd d')) as [|v l] eqn:E.
    { apply Permutation_nil in Hperm. destruct d'; [congruence|discriminate]. }
    assert (Hv : spent v).
    { rewrite Forall_forall in Hs. apply Hs.
      apply (Permutation_in _ Hperm). now left. }
    cbn [for_each]. unfold PboInfo.check_name_hash.
    now rewrite (spent_data_size v Hv).
  - unfold PboFile._filehash. cbn [PboFile.filedict].
    destruct d' as [|[k v] d']; [congruence|].
    inversion Hs as [|? ? Hv _]; subst.
    cbn [PboFile.filehash_loop]. unfold PboFile.filehash_member.
    unfold PboInfo.check_file_hash. rewrite (spent_data_size v Hv).
    destruct Hver as [-> | ->]; reflexivity.
Qed.

Lemma export_spends_files_witness :
  exists p0 out p',
    add_all (start []) example_files = Ok p0 /\
    PboFile._export 20 p0 = Ok (out, p') /\
    Forall spent (PboFile.infolist p') /\
    PboFile._export 20 p' = Raise ValueError /\
    PboFile._namehash p' = Raise ValueError /\
    PboFile._filehash 20 p' 3 = Raise ValueError.
Proof.
  apply (export_spends_files [] example_files 20 3).
  - repeat constructor; try discriminate; try (apply not_in_nul; reflexivity);
      vm_compute; congruence.
  - repeat constructor; cbn; intuition discriminate.
  - discriminate.
  - right. reflexivity.
  - repeat constructor; vm_compute; lia.
Defined.

(** ** DER *)

Lemma parse_DER_unfold (fuel : nat) (der : bytes) :
  _parse_DER (S fuel) der
  = '(_, r) <-
      while fuel (fun '(i, _) => i <? Z.of_nat (length der))
        (der_round (_parse_DER fuel) der) (0, []) ;;
    Ok r.
Proof. reflexivity. Qed.

Lemma slice_behind (pre x : bytes) (k n : Z) :
  0 <= k -> slice (pre ++ x) (Z.of_nat (length pre) + k) n = slice x k n.
Proof.
  intros Hk. unfold slice. f_equal.
  replace (Z.to_nat (Z.of_nat (length pre) + k))
    with (length pre + Z.to_nat k)%nat by lia.
  rewrite skipn_app, skipn_all2 by lia. cbn [app]. f_equal. lia.
Qed.

Lemma firstn_exact {A : Type} (a c : list A) : firstn (length a) (a ++ c) = a.
Proof.
  rewrite firstn_app, Nat.sub_diag, firstn_all. cbn [firstn]. apply app_nil_r.
Qed.

Lemma firstn_tail {A : Type} (a c : list A) :
  firstn (length a - 1) (skipn 1 (a ++ c)) = skipn 1 a.
Proof.
  destruct a as [|x a]; [reflexivity|].
  replace (length (x :: a) - 1)%nat with (length a) by (cbn [length]; lia).
  cbn [app skipn]. apply firstn_exact.
Qed.

(** The two forms of the first length byte. *)
Lemma length_byte_bits (k : Z) :
  0 <= k < 128 ->
  Z.land k 0x80 = 0 /\ Z.land k 0x7f = k /\
  Z.land (0x80 + k) 0x80 = 0x80 /\ Z.land (0x80 + k) 0x7f = k.
Proof.
  intros Hk.
  assert (H : forallb
                (fun k => (Z.land k 0x80 =? 0) && (Z.land k 0x7f =? k)
                          && (Z.land (0x80 + k) 0x80 =? 0x80)
                          && (Z.land (0x80 + k) 0x7f =? k))
                (map Z.of_nat (seq 0 128)) = true)
    by (vm_compute; reflexivity).
  rewrite forallb_forall in H. specialize (H k).
  assert (Hin : In k (map Z.of_nat (seq 0 128))).
  { apply in_map_iff. exists (Z.to_nat k). split; [lia|].
    apply in_seq. lia. }
  specialize (H Hin).
  apply andb_prop in H as [H H4]. apply andb_prop in H as [H H3].
  apply andb_prop in H as [H1 H2].
  apply Z.eqb_eq in H1, H2, H3, H4. auto.
Qed.

Lemma unsigned_of_Z_small (z : Z) :
  0 <= z < 256 -> byte.unsigned (byte.of_Z z) = z.
Proof.
  intros Hz. rewrite byte.unsigned_of_Z. unfold byte.wrap.
  apply Z.mod_small. lia.
Qed.

(** The part of a round that makes the item, once the content is found. *)
Lemma der_round_item (parse : bytes -> res (list der_value)) (der : bytes)
    (i l u : Z) (content : bytes) :
  slice der i l = content ->
  slice der (i + 1) (l - 1) = skipn 1 content ->
  l = Z.of_nat (length content) ->
  (if u =? 0x2 then
     bs <- unpack_nB l (slice der i l) ;;
     Ok (DInt (bytes_to_int bs big))
   else if u =? 0x3 then
     sub <- parse (slice der (i + 1) (l - 1)) ;;
     Ok (DTuple sub)
   else if u =? 0x5 then Ok DNone
   else if u =? 0x30 then
     sub <- parse (slice der i l) ;;
     Ok (DTuple sub)
   else Ok (DBytes (slice der i l)))
  = der_item parse u content.
Proof.
  intros -> -> Hl. unfold der_item, unpack_nB.
  rewrite <- Hl, Z.eqb_refl. reflexivity.
Qed.

(** One round over one element: the item of its tag and content, and
    the position right behind the element. *)
Lemma der_round_element (parse : bytes -> res (list der_value))
    (pre post : bytes) (tag : byte) (w : nat) (content : bytes)
    (r : list der_value) :
  length_fits w (length content) = true ->
  der_round parse (pre ++ der_element tag w content ++ post)
    (Z.of_nat (length pre), r)
  = item <- der_item parse (byte.unsigned tag) content ;;
    Ok (Z.of_nat (length (pre ++ der_element tag w content)), r ++ [item]).
Proof.
  intros Hfit. unfold der_element.
  remember (length content) as n eqn:Hn.
  set (P := Z.of_nat (length pre)).
  unfold der_round. cbv zeta.
  set (x := (tag :: der_length w n ++ content) ++ post).
  assert (E0 : forall m, slice (pre ++ x) P m = slice x 0 m).
  { intros m. rewrite <- (Z.add_0_r P). now apply slice_behind. }
  assert (E1 : forall m, slice (pre ++ x) (P + 1) m = slice x 1 m)
    by (intros m; now apply slice_behind).
  assert (E2 : forall k m, 0 <= k ->
            slice (pre ++ x) (P + 1 + 1 + k) m = slice x (2 + k) m).
  { intros k m Hk. rewrite <- !Z.add_assoc. rewrite slice_behind by lia.
    f_equal. lia. }
  assert (E3 : forall k m, 0 <= k ->
            slice (pre ++ x) (P + 1 + 1 + k + 1) m = slice x (2 + k + 1) m).
  { intros k m Hk. rewrite <- !Z.add_assoc. rewrite slice_behind by lia.
    f_equal. lia. }
  rewrite E0, E1.
  destruct w as [|w'].
  - (* the short form *)
    cbn [length_fits] in Hfit. apply Nat.ltb_lt in Hfit.
    destruct (length_byte_bits (Z.of_nat n) ltac:(lia)) as (B1 & B2 & _ & _).
    assert (Hx : x = tag :: byte.of_Z (Z.of_nat n) :: content ++ post)
      by reflexivity.
    assert (S0 : slice x 0 1 = [tag]) by (rewrite Hx; reflexivity).
    assert (S1 : slice x 1 1 = [byte.of_Z (Z.of_nat n)])
      by (rewrite Hx; reflexivity).
    rewrite S0, S1.
    cbn [unpack_B bind]. rewrite unsigned_of_Z_small by lia.
    rewrite B1, B2. cbn [Z.eqb negb bind].
    rewrite (der_round_item parse _ (P + 1 + 1) (Z.of_nat n)
               (byte.unsigned tag) content).
    + destruct (der_item parse (byte.unsigned tag) content) as [item| |];
        cbn [bind]; [|reflexivity|reflexivity].
      do 2 f_equal. rewrite !length_app. cbn [length der_length app].
      rewrite <- Hn. unfold P. lia.
    + rewrite <- (Z.add_0_r (P + 1 + 1)), E2 by lia. rewrite Hx.
      unfold slice. change (Z.to_nat (2 + 0)) with 2%nat. cbn [skipn].
      rewrite Nat2Z.id, Hn. apply firstn_exact.
    + rewrite <- (Z.add_0_r (P + 1 + 1)), E3 by lia. rewrite Hx.
      unfold slice. change (Z.to_nat (2 + 0 + 1)) with 3%nat.
      change (skipn 3 (tag :: byte.of_Z (Z.of_nat n) :: content ++ post))
        with (skipn 1 (content ++ post)).
      replace (Z.to_nat (Z.of_nat n - 1)) with (n - 1)%nat by lia.
      rewrite Hn. apply firstn_tail.
    + now rewrite Hn.
  - (* the long form *)
    set (w := S w') in *.
    cbn [length_fits] in Hfit. apply andb_prop in Hfit as [Hw Hfn].
    apply Nat.ltb_lt in Hw. apply Z.ltb_lt in Hfn.
    destruct (length_byte_bits (Z.of_nat w) ltac:(lia)) as (_ & _ & B3 & B4).
    set (lb := rev (le_split w (Z.of_nat n))).
    assert (Hlb : length lb = w)
      by (unfold lb; now rewrite length_rev, length_le_split).
    assert (Hx : x = tag :: byte.of_Z (0x80 + Z.of_nat w)
                     :: lb ++ content ++ post).
    { unfold x, der_length, w. cbn [app]. now rewrite <- app_assoc. }
    assert (S0 : slice x 0 1 = [tag]) by (rewrite Hx; reflexivity).
    assert (S1 : slice x 1 1 = [byte.of_Z (0x80 + Z.of_nat w)])
      by (rewrite Hx; reflexivity).
    rewrite S0, S1.
    cbn [unpack_B bind]. rewrite unsigned_of_Z_small by lia.
    rewrite B3, B4. cbn [Z.eqb negb Pos.eqb].
    assert (Hs2 : slice (pre ++ x) (P + 1 + 1) (Z.of_nat w) = lb).
    { rewrite <- (Z.add_0_r (P + 1 + 1)), E2 by lia. rewrite Hx.
      unfold slice. change (Z.to_nat (2 + 0)) with 2%nat. cbn [skipn].
      rewrite Nat2Z.id, <- Hlb. apply firstn_exact. }
    rewrite Hs2.
    unfold unpack_nB at 1. rewrite Hlb, Z.eqb_refl. cbn [bind].
    assert (Hl : bytes_to_int lb big = Z.of_nat n).
    { unfold lb. cbn [bytes_to_int]. rewrite rev_involutive.
      rewrite le_combine_split, Z.mul_comm. apply Z.mod_small. lia. }
    rewrite Hl.
    rewrite (der_round_item parse _ (P + 1 + 1 + Z.of_nat w) (Z.of_nat n)
               (byte.unsigned tag) content).
    + destruct (der_item parse (byte.unsigned tag) content) as [item| |];
        cbn [bind]; [|reflexivity|reflexivity].
      do 2 f_equal. unfold der_length, w. cbn [app].
      change (rev (le_split (S w') (Z.of_nat n))) with lb.
      rewrite !length_app. cbn [length]. rewrite length_app, Hlb, <- Hn.
      unfold P, w. lia.
    + rewrite E2 by lia. rewrite Hx. unfold slice.
      replace (Z.to_nat (2 + Z.of_nat w)) with (2 + w)%nat by lia.
      cbn [Nat.add skipn].
      rewrite skipn_app, skipn_all2, Hlb, Nat.sub_diag by lia.
      cbn [skipn app]. rewrite Nat2Z.id, Hn. apply firstn_exact.
    + rewrite E3 by lia. rewrite Hx. unfold slice.
      replace (Z.to_nat (2 + Z.of_nat w + 1)) with (2 + (w + 1))%nat by lia.
      cbn [Nat.add skipn].
      rewrite skipn_app, Hlb.
      replace (w + 1 - w)%nat with 1%nat by lia.
      rewrite skipn_all2 by lia. cbn [app].
      replace (Z.to_nat (Z.of_nat n - 1)) with (n - 1)%nat by lia.
      rewrite Hn. apply firstn_tail.
    + now rewrite Hn.
Qed.

Lemma plain_tag_unsigned (tag : byte) :
  plain_tag tag = true ->
  (byte.unsigned tag =? 0x2) = false /\ (byte.unsigned tag =? 0x3) = false /\
  (byte.unsigned tag =? 0x5) = false /\ (byte.unsigned tag =? 0x30) = false.
Proof.
  unfold plain_tag. intros H.
  apply andb_prop in H as [H H4]. apply andb_prop in H as [H H3].
  apply andb_prop in H as [H1 H2].
  assert (Hne : forall c : byte,
            negb (byte_eqb tag c) = true ->
            (byte.unsigned tag =? byte.unsigned c) = false).
  { intros c Hc. apply Z.eqb_neq. intros E.
    apply negb_true_iff in Hc.
    assert (Heq : tag = c)
      by (rewrite <- (byte.of_Z_unsigned tag), E; apply byte.of_Z_unsigned).
    apply byte_eqb_eq in Heq. congruence. }
  repeat split;
    [exact (Hne _ H1)|exact (Hne _ H2)|exact (Hne _ H3)|exact (Hne _ H4)].
Qed.

Lemma length_der_element (tag : byte) (w : nat) (content : bytes) :
  (length content + 2 <= length (der_element tag w content))%nat.
Proof.
  unfold der_element, der_length. destruct w; cbn [length app];
    rewrite ?length_app; cbn [length]; lia.
Qed.

(** An element of a well-formed tree is a tag, a length and a content,
    and the round makes of them what the tree stands for, when the nested
    calls do so for shorter inputs. *)
Lemma der_item_encoded (f : nat) (t : tlv) :
  (forall ts, forallb well_formed ts = true ->
     (length (concat (map encode ts)) + 1 < f)%nat ->
     _parse_DER f (concat (map encode ts)) = Ok (map value_of ts)) ->
  well_formed t = true ->
  (length (encode t) <= f)%nat ->
  exists tag w content,
    encode t = der_element tag w content /\
    length_fits w (length content) = true /\
    der_item (_parse_DER f) (byte.unsigned tag) content = Ok (value_of t).
Proof.
  intros IH Hwf Hlen.
  destruct t as [w c|w pad items|w c|w items|tag w c];
    cbn [well_formed encode value_of] in *.
  - exists Byte.x02, w, c. split; [reflexivity|]. split; [exact Hwf|reflexivity].
  - apply andb_prop in Hwf as [Hfit Hitems].
    exists Byte.x03, w, (pad :: concat (map encode items)).
    split; [reflexivity|]. split; [exact Hfit|].
    pose proof (length_der_element Byte.x03 w
                  (pad :: concat (map encode items))) as Hl.
    cbn [length] in Hl.
    unfold der_item.
    change (byte.unsigned Byte.x03 =? 0x2) with false.
    change (byte.unsigned Byte.x03 =? 0x3) with true.
    cbn [skipn]. rewrite IH by (try exact Hitems; lia). reflexivity.
  - exists Byte.x05, w, c. split; [reflexivity|]. split; [exact Hwf|reflexivity].
  - apply andb_prop in Hwf as [Hfit Hitems].
    exists Byte.x30, w, (concat (map encode items)).
    split; [reflexivity|]. split; [exact Hfit|].
    pose proof (length_der_element Byte.x30 w
                  (concat (map encode items))) as Hl.
    unfold der_item.
    change (byte.unsigned Byte.x30 =? 0x2) with false.
    change (byte.unsigned Byte.x30 =? 0x3) with false.
    change (byte.unsigned Byte.x30 =? 0x5) with false.
    change (byte.unsigned Byte.x30 =? 0x30) with true.
    rewrite IH by (try exact Hitems; lia). reflexivity.
  - apply andb_prop in Hwf as [Hplain Hfit].
    exists tag, w, c. split; [reflexivity|]. split; [exact Hfit|].
    destruct (plain_tag_unsigned tag Hplain) as (E2 & E3 & E5 & E30).
    unfold der_item. now rewrite E2, E3, E5, E30.
Qed.

(** The loop over the elements that are left, from the position behind
    the ones already read. *)
Lemma parse_loop_encoded (f : nat) (ts : list tlv) :
  (forall ts, forallb well_formed ts = true ->
     (length (concat (map encode ts)) + 1 < f)%nat ->
     _parse_DER f (concat (map encode ts)) = Ok (map value_of ts)) ->
  forall (k : nat) (pre : bytes) (r : list der_value),
  forallb well_formed ts = true ->
  (length (concat (map encode ts)) <= f)%nat ->
  (length ts < k)%nat ->
  while k
    (fun '(i, _) => i <? Z.of_nat (length (pre ++ concat (map encode ts))))
    (der_round (_parse_DER f) (pre ++ concat (map encode ts)))
    (Z.of_nat (length pre), r)
  = Ok (Z.of_nat (length (pre ++ concat (map encode ts))),
        r ++ map value_of ts).
Proof.
  intros IH. induction ts as [|t ts IHts]; intros k pre r Hwf Hlen Hk.
  - destruct k as [|k]; [cbn [length] in Hk; lia|].
    cbn [map concat while]. rewrite !app_nil_r, Z.ltb_irrefl. reflexivity.
  - destruct k as [|k]; [lia|].
    cbn [forallb] in Hwf. apply andb_prop in Hwf as [Ht Hts].
    cbn [map concat length] in *. rewrite length_app in Hlen.
    destruct (der_item_encoded f t IH Ht ltac:(lia))
      as (tag & w & content & Henc & Hfit & Hitem).
    rewrite Henc in *.
    pose proof (length_der_element tag w content) as Hl.
    cbn [while].
    replace (Z.of_nat (length pre)
             <? Z.of_nat (length (pre ++ der_element tag w content
                                  ++ concat (map encode ts))))
      with true
      by (symmetry; apply Z.ltb_lt; rewrite !length_app; lia).
    rewrite (der_round_element _ pre _ tag w content r Hfit), Hitem.
    cbn [bind].
    rewrite (app_assoc pre).
    rewrite (IHts k (pre ++ der_element tag w content) (r ++ [value_of t]))
      by (try exact Hts; lia).
    rewrite <- !app_assoc. reflexivity.
Qed.

(** X28: parsing what was encoded.  For every list of tag-length-value
    trees whose lengths can be written as the trees say (short form below
    128, long form on the given number of bytes) and whose plain elements
    carry none of the tags 0x02, 0x03, 0x05 and 0x30, [_parse_DER] on the
    encoding returns the values of the trees: the number of an INTEGER,
    the tuple of a SEQUENCE, the tuple behind the pad byte of a BIT
    STRING, [None] for NULL and the content of anything else. *)
Theorem parse_DER_of_encoding (ts : list tlv) (fuel : nat) :
  forallb well_formed ts = true ->
  (length (concat (map encode ts)) + 1 < fuel)%nat ->
  _parse_DER fuel (concat (map encode ts)) = Ok (map value_of ts).
Proof.
  revert ts. induction fuel as [|f IH]; intros ts Hwf Hfuel; [lia|].
  rewrite parse_DER_unfold.
  assert (Hn : (length ts <= length (concat (map encode ts)))%nat).
  { clear. induction ts as [|t ts IHts]; cbn [map concat length]; [lia|].
    rewrite length_app.
    assert (2 <= length (encode t))%nat; [|lia].
    destruct t; cbn [encode];
      match goal with |- context [der_element ?a ?b ?c] =>
        pose proof (length_der_element a b c) end; lia. }
  pose proof (parse_loop_encoded f ts IH f [] [] Hwf ltac:(lia) ltac:(lia))
    as Hloop.
  cbn [app length] in Hloop. change (Z.of_nat 0) with 0 in Hloop.
  rewrite Hloop. reflexivity.
Qed.

Lemma parse_DER_of_encoding_witness :
  _parse_DER 20 (concat (map encode example_der))
  = Ok [DTuple [DInt 143; DInt 7]].
Proof.
  apply (parse_DER_of_encoding example_der 20).
  - reflexivity.
  - vm_compute. lia.
Defined.

(** A loop whose body either makes progress or raises. *)
Lemma while_returns_or_raises {S : Type} (cond : S -> bool)
    (body : S -> res S) (Inv : S -> Prop) (mu : S -> nat) (e : exn) :
  (forall s, Inv s -> cond s = true ->
     (exists s', body s = Ok s' /\ Inv s' /\ (mu s' < mu s)%nat) \/
     body s = Raise e) ->
  forall fuel s, Inv s -> (mu s < fuel)%nat ->
  (exists s', while fuel cond body s = Ok s') \/
  while fuel cond body s = Raise e.
Proof.
  intros Hstep fuel. induction fuel as [|fuel IH]; intros s Hs Hmu; [lia|].
  cbn [while]. destruct (cond s) eqn:Hc.
  - destruct (Hstep s Hs Hc) as [[s' [Hb [Hs' Hlt]]]|Hb]; rewrite Hb;
      cbn [bind]; [|now right].
    apply IH; [exact Hs'|lia].
  - left. now exists s.
Qed.

Lemma unpack_B_cases (bs : bytes) :
  (exists z, unpack_B bs = Ok z) \/ unpack_B bs = Raise StructError.
Proof.
  destruct bs as [|x [|y bs]]; cbn [unpack_B]; eauto.
Qed.

Lemma length_slice_behind (s : bytes) (i n : Z) :
  (length (slice s i n) <= length s - Z.to_nat i)%nat.
Proof.
  unfold slice. rewrite length_firstn, length_skipn. lia.
Qed.

(** One round at a position inside the input: it raises [struct.error]
    or moves on by two bytes at least. *)
Lemma der_round_cases (parse : bytes -> res (list der_value)) (der : bytes)
    (i : Z) (r : list der_value) :
  (forall sub, (length sub + 2 <= length der)%nat ->
     (exists v, parse sub = Ok v) \/ parse sub = Raise StructError) ->
  (exists v, parse [] = Ok v) \/ parse [] = Raise StructError ->
  0 <= i ->
  (exists i' r', der_round parse der (i, r) = Ok (i', r') /\ i + 2 <= i') \/
  der_round parse der (i, r) = Raise StructError.
Proof.
  intros Hparse Hnil Hi. unfold der_round.
  assert (Hsub : forall j n, i + 2 <= j ->
            (exists v, parse (slice der j n) = Ok v) \/
            parse (slice der j n) = Raise StructError).
  { intros j n Hj. pose proof (length_slice_behind der j n) as Hl.
    destruct (slice der j n) as [|x sub] eqn:E; [exact Hnil|].
    apply Hparse. cbn [length] in *. lia. }
  destruct (unpack_B_cases (slice der i 1)) as [[tag ->]| ->];
    cbn [bind]; [|now right].
  destruct (unpack_B_cases (slice der (i + 1) 1)) as [[l1 ->]| ->];
    cbn [bind]; [|now right].
  assert (H2 : 0 <= Z.land l1 0x7f) by (apply Z.land_nonneg; lia).
  set (l2 := Z.land l1 0x7f) in *.
  assert (Hlen :
    (exists l j,
       (if negb (Z.land l1 0x80 =? 0)
        then bs <- unpack_nB l2 (slice der (i + 1 + 1) l2) ;;
             Ok (bytes_to_int bs big, i + 1 + 1 + l2)
        else Ok (l2, i + 1 + 1)) = Ok (l, j) /\ 0 <= l /\ i + 2 <= j) \/
    (if negb (Z.land l1 0x80 =? 0)
     then bs <- unpack_nB l2 (slice der (i + 1 + 1) l2) ;;
          Ok (bytes_to_int bs big, i + 1 + 1 + l2)
     else Ok (l2, i + 1 + 1)) = Raise StructError).
  { destruct (negb (Z.land l1 0x80 =? 0)).
    - unfold unpack_nB.
      destruct (Z.of_nat (length (slice der (i + 1 + 1) l2)) =? l2);
        cbn [bind]; [|now right].
      left. do 2 eexists. split; [reflexivity|].
      split; [apply bytes_to_int_bound|lia].
    - left. do 2 eexists. split; [reflexivity|]. split; [exact H2|lia]. }
  destruct Hlen as [(l & j & -> & Hl & Hj)| ->]; cbn [bind]; [|now right].
  assert (Hitem :
    (exists item,
       (if tag =? 0x2 then
          bs <- unpack_nB l (slice der j l) ;;
          Ok (DInt (bytes_to_int bs big))
        else if tag =? 0x3 then
          sub <- parse (slice der (j + 1) (l - 1)) ;;
          Ok (DTuple sub)
        else if tag =? 0x5 then Ok DNone
        else if tag =? 0x30 then
          sub <- parse (slice der j l) ;;
          Ok (DTuple sub)
        else Ok (DBytes (slice der j l))) = Ok item) \/
    (if tag =? 0x2 then
       bs <- unpack_nB l (slice der j l) ;;
       Ok (DInt (bytes_to_int bs big))
     else if tag =? 0x3 then
       sub <- parse (slice der (j + 1) (l - 1)) ;;
       Ok (DTuple sub)
     else if tag =? 0x5 then Ok DNone
     else if tag =? 0x30 then
       sub <- parse (slice der j l) ;;
       Ok (DTuple sub)
     else Ok (DBytes (slice der j l))) = Raise StructError).
  { destruct (tag =? 0x2).
    { unfold unpack_nB. destruct (Z.of_nat (length (slice der j l)) =? l);
        cbn [bind]; eauto. }
    destruct (tag =? 0x3).
    { destruct (Hsub (j + 1) (l - 1) ltac:(lia)) as [[v ->]| ->];
        cbn [bind]; eauto. }
    destruct (tag =? 0x5); [eauto|].
    destruct (tag =? 0x30); [|eauto].
    destruct (Hsub j l ltac:(lia)) as [[v ->]| ->]; cbn [bind]; eauto. }
  destruct Hitem as [[item ->]| ->]; cbn [bind]; [|now right].
  left. do 2 eexists. split; [reflexivity|lia].
Qed.

(** X29: [_parse_DER] ends on every input.  Each round moves on by two
    bytes at least and the nested calls get strictly shorter inputs, so
    with fuel above the length of the input plus one the parser returns a
    tuple or raises [struct.error] (an element cut short); it never runs
    on and raises nothing else. *)
Theorem parse_DER_returns_or_struct_error (der : bytes) (fuel : nat) :
  (length der + 1 < fuel)%nat ->
  (exists r, _parse_DER fuel der = Ok r) \/
  _parse_DER fuel der = Raise StructError.
Proof.
  revert der. induction fuel as [|f IH]; intros der Hfuel; [lia|].
  rewrite parse_DER_unfold.
  assert (Hloop :
    (exists s', while f (fun '(i, _) => i <? Z.of_nat (length der))
                  (der_round (_parse_DER f) der) (0, []) = Ok s') \/
    while f (fun '(i, _) => i <? Z.of_nat (length der))
      (der_round (_parse_DER f) der) (0, []) = Raise StructError).
  { apply (while_returns_or_raises _ _ (fun s => 0 <= fst s)
             (fun s => Z.to_nat (Z.of_nat (length der) - fst s))).
    - intros [i r] Hi Hc. cbn [fst] in *. apply Z.ltb_lt in Hc.
      destruct (der_round_cases (_parse_DER f) der i r)
        as [(i' & r' & E & Hi')|E]; try exact Hi.
      + intros sub Hsub. apply IH. lia.
      + apply IH. cbn [length]. lia.
      + left. exists (i', r'). cbn [fst]. split; [exact E|]. split; lia.
      + now right.
    - cbn [fst]. lia.
    - cbn [fst]. lia. }
  destruct Hloop as [[[i r] ->]| ->]; cbn [bind]; eauto.
Qed.

Lemma parse_DER_returns_or_struct_error_witness :
  (exists r, _parse_DER 4 [Byte.x30; Byte.x05] = Ok r) \/
  _parse_DER 4 [Byte.x30; Byte.x05] = Raise StructError.
Proof.
  apply (parse_DER_returns_or_struct_error [Byte.x30; Byte.x05] 4).
  cbn. lia.
Defined.

(** X30: the length an element declares is not checked against the
    input, except for an INTEGER.  For an element with a tag other than
    0x02, 0x03, 0x05 and 0x30 that declares [n] content bytes (short
    form) while the input ends after fewer, [_parse_DER] raises nothing
    and returns the bytes that are there. *)
Theorem parse_DER_short_content (tag : byte) (n : nat) (content : bytes)
    (fuel : nat) :
  plain_tag tag = true ->
  (length content <= n)%nat ->
  (n < 128)%nat ->
  (2 < fuel)%nat ->
  _parse_DER fuel (tag :: byte.of_Z (Z.of_nat n) :: content)
  = Ok [DBytes content].
Proof.
  intros Hplain Hlen Hn Hfuel.
  destruct fuel as [|[|[|f]]]; try lia.
  rewrite parse_DER_unfold.
  destruct (plain_tag_unsigned tag Hplain) as (E2 & E3 & E5 & E30).
  destruct (length_byte_bits (Z.of_nat n) ltac:(lia)) as (B1 & B2 & _ & _).
  set (der := tag :: byte.of_Z (Z.of_nat n) :: content).
  assert (Hd : Z.of_nat (length der) = 2 + Z.of_nat (length content))
    by (unfold der; cbn [length]; lia).
  cbn [while].
  replace (0 <? Z.of_nat (length der)) with true
    by (symmetry; apply Z.ltb_lt; lia).
  unfold der_round at 1.
  change (slice der 0 1) with [tag].
  change (slice der (0 + 1) 1) with [byte.of_Z (Z.of_nat n)].
  cbn [unpack_B bind]. rewrite unsigned_of_Z_small by lia.
  rewrite B1, B2, E2, E3, E5, E30. cbn [Z.eqb negb bind].
  assert (Hs : slice der (0 + 1 + 1) (Z.of_nat n) = content).
  { unfold slice, der. change (Z.to_nat (0 + 1 + 1)) with 2%nat.
    cbn [skipn]. rewrite Nat2Z.id. apply firstn_all2. exact Hlen. }
  rewrite Hs. cbn [app].
  replace (0 + 1 + 1 + Z.of_nat n <? Z.of_nat (length der)) with false
    by (symmetry; apply Z.ltb_ge; lia).
  reflexivity.
Qed.

Lemma parse_DER_short_content_witness :
  _parse_DER 3 [Byte.x04; Byte.x0a; Byte.x61; Byte.x62; Byte.x63]
  = Ok [DBytes [Byte.x61; Byte.x62; Byte.x63]].
Proof.
  apply (parse_DER_short_content Byte.x04 10 [Byte.x61; Byte.x62; Byte.x63] 3).
  - reflexivity.
  - cbn. lia.
  - lia.
  - lia.
Defined.
